(** * SpaceAudio: sample-rate conversion, chunk accumulation, sample formats

    A shallow embedding of the scalar code paths of
    - [src/resampler.cpp] (class [Resampler] and its C API),
    - the capture front end ([AudioCapture::Impl::onAudioData], [Start],
      [Stop], [Close], both overloads of [Init]),
    - the output stream ([AudioOutputStream]: [open], [close], [start],
      [stop], [abort], [write], [writeInt16], its PortAudio callback),
    - the PortAudio reference counter and its other users
      ([AudioInputStream]: [open], [close], [start], [stop]; [listDevices]
      and [findDeviceByName]) and
    - the playback front end ([AudioPlayer::Start], [Write]),
    followed by the properties established about them.

    Numbers are modelled the way the C++ has them: [int] and [size_t] as [Z]
    with the wrap-around of the conversions written out, [float] and
    [double] as IEEE-754 binary32 and binary64 values ([spec_float], with
    the round-to-nearest-even operations of the standard library's
    [SpecFloat]), vectors and raw buffers as lists. *)

From Stdlib Require Import ZArith Bool Lia SpecFloat.
From stdpp Require Import base option list.

Open Scope Z_scope.

(** ** Target platform

    Converting a floating-point value whose truncation does not fit the
    destination integer type (or a NaN) has no defined result in C++.  The
    value the target produces in that case is a parameter of the model, so
    everything proved below holds whatever the hardware does. *)
Class Platform := { cast_undef : spec_float -> Z }.

(** The behaviour of the RISC-V [fcvt] instructions, for concrete runs:
    NaN and positive overflow saturate upwards, negative overflow downwards.
    (The upper value is masked to the destination width by the casts.) *)
Definition riscv_fcvt : Platform :=
  {| cast_undef x :=
       match x with
       | S754_infinity true | S754_finite true _ _ => 0
       | _ => -1
       end |}.

(** ** Machine integers *)
Module Int.

(** Conversion to [size_t] (64-bit, unsigned). *)
Definition usize (z : Z) : Z := z mod 2 ^ 64.

(** Conversion to [int] (32-bit, two's complement). *)
Definition to_int (z : Z) : Z := (z + 2 ^ 31) mod 2 ^ 32 - 2 ^ 31.

(** Conversion to [int16_t]. *)
Definition to_int16 (z : Z) : Z := (z + 2 ^ 15) mod 2 ^ 16 - 2 ^ 15.

(** [size_t] arithmetic. *)
Definition uadd (a b : Z) : Z := usize (a + b).
Definition usub (a b : Z) : Z := usize (a - b).
Definition umul (a b : Z) : Z := usize (a * b).

Definition INT_MAX : Z := 2 ^ 31 - 1.

End Int.

(** ** Floating point *)
Module Fp.
Import Int.

(** [float] is binary32, [double] is binary64. *)
Definition float := spec_float.
Definition double := spec_float.

Definition f_valid (x : float) : bool := valid_binary 24 128 x.
Definition d_valid (x : double) : bool := valid_binary 53 1024 x.

Definition is_finite (x : spec_float) : bool :=
  match x with
  | S754_zero _ | S754_finite _ _ _ => true
  | _ => false
  end.

Definition is_nan (x : spec_float) : bool :=
  match x with
  | S754_nan => true
  | _ => false
  end.

(** Integer to floating point ([static_cast<double>(n)] and the implicit
    conversions of mixed expressions). *)
Definition d_of_Z (z : Z) : double := binary_normalize 53 1024 z 0 false.
Definition f_of_Z (z : Z) : float := binary_normalize 24 128 z 0 false.

(** Widening and narrowing conversions. *)
Definition d_of_f (x : float) : double :=
  match x with
  | S754_finite s m e => binary_round 53 1024 s m e
  | _ => x
  end.

Definition f_of_d (x : double) : float :=
  match x with
  | S754_finite s m e => binary_round 24 128 s m e
  | _ => x
  end.

Definition d_add : double -> double -> double := SFadd 53 1024.
Definition d_sub : double -> double -> double := SFsub 53 1024.
Definition d_mul : double -> double -> double := SFmul 53 1024.
Definition d_div : double -> double -> double := SFdiv 53 1024.
Definition d_ltb : double -> double -> bool := SFltb.

Definition f_mul : float -> float -> float := SFmul 24 128.
Definition f_div : float -> float -> float := SFdiv 24 128.
Definition f_ltb : float -> float -> bool := SFltb.

Definition d_zero : double := S754_zero false.
Definition d_one : double := d_of_Z 1.
Definition f_zero : float := S754_zero false.
Definition f_one : float := f_of_Z 1.

(** The integer part of a finite value, rounded towards zero. *)
Definition trunc (x : spec_float) : option Z :=
  match x with
  | S754_zero _ => Some 0
  | S754_finite s m e => Some (cond_Zopp s (Z.shiftl (Zpos m) e))
  | _ => None
  end.

(** The least integer not below a finite value. *)
Definition ceilZ (s : bool) (m : positive) (e : Z) : Z :=
  - Z.shiftl (- cond_Zopp s (Zpos m)) e.

(** [std::ceil] on [double]. *)
Definition d_ceil (x : double) : double :=
  match x with
  | S754_finite s m e => binary_normalize 53 1024 (ceilZ s m e) 0 s
  | _ => x
  end.

Section Casts.
Context `{Platform}.

(** [static_cast<size_t>(x)]. *)
Definition to_size_t (x : double) : Z :=
  match trunc x with
  | Some z => if (0 <=? z) && (z <? 2 ^ 64) then z else usize (cast_undef x)
  | None => usize (cast_undef x)
  end.

(** [static_cast<int16_t>(x)]. *)
Definition f_to_int16 (x : float) : Z :=
  match trunc x with
  | Some z =>
      if (- 2 ^ 15 <=? z) && (z <? 2 ^ 15) then z else to_int16 (cast_undef x)
  | None => to_int16 (cast_undef x)
  end.
End Casts.

End Fp.

(** ** Loops *)

(** [n] iterations of a counting loop starting at [i]; the body may hit
    undefined behaviour ([None]). *)
Fixpoint loop {St : Type} (n : nat) (i : Z) (body : Z -> St -> option St)
    (s : St) : option St :=
  match n with
  | O => Some s
  | S n' =>
      match body i s with
      | Some s' => loop n' (i + 1) body s'
      | None => None
      end
  end.

(** [for (i = lo; i < hi; ++i) body]. *)
Definition for_range {St : Type} (lo hi : Z) (body : Z -> St -> option St)
    (s : St) : option St :=
  loop (Z.to_nat (hi - lo)) lo body s.

(** [v[k]] for reading and [v[k] = x] for writing; outside the storage both
    are undefined. *)
Definition load {A : Type} (v : list A) (k : Z) : option A :=
  if (0 <=? k) && (k <? Z.of_nat (length v)) then v !! Z.to_nat k else None.

Definition store {A : Type} (v : list A) (k : Z) (x : A) : option (list A) :=
  if (0 <=? k) && (k <? Z.of_nat (length v))
  then Some (<[Z.to_nat k := x]> v)
  else None.

(** ** The resampler ([src/resampler.cpp])

    The build modelled is the one that is always available: neither
    [USE_LIBSAMPLERATE] nor [USE_RVV_OPTIMIZATION] is defined, so every
    method ends in one of the two scalar linear paths. *)
Module Resampler.
Import Int Fp.

Inductive ResampleMethod :=
| LINEAR_UPSAMPLE
| LINEAR_DOWNSAMPLE
| SRC_SINC_BEST_QUALITY
| SRC_SINC_MEDIUM_QUALITY
| SRC_SINC_FASTEST
| SRC_ZERO_ORDER_HOLD
| SRC_LINEAR.

Record Config := mkConfig {
  input_sample_rate : Z;
  output_sample_rate : Z;
  channels : Z;
  method : ResampleMethod
}.

Definition default_config : Config :=
  mkConfig 16000 48000 1 LINEAR_UPSAMPLE.

Record t := mk {
  config_ : Config;
  ratio_ : double;
  initialized_ : bool
}.

(** [Resampler::Resampler(const Config&)]. *)
Definition make (config : Config) : t :=
  {| config_ := config;
     ratio_ := d_div (d_of_Z (output_sample_rate config))
                     (d_of_Z (input_sample_rate config));
     initialized_ := false |}.

Definition methodRequiresLibsamplerate (m : ResampleMethod) : bool :=
  match m with
  | LINEAR_UPSAMPLE | LINEAR_DOWNSAMPLE => false
  | _ => true
  end.

Definition isUpsampling (r : t) : bool := d_ltb d_one (ratio_ r).
Definition isDownsampling (r : t) : bool := d_ltb (ratio_ r) d_one.

Definition with_method (c : Config) (m : ResampleMethod) : Config :=
  mkConfig (input_sample_rate c) (output_sample_rate c) (channels c) m.

(** [Resampler::initialize]: the flag returned and the object afterwards. *)
Definition initialize (r : t) : bool * t :=
  if initialized_ r then (true, r)
  else if (input_sample_rate (config_ r) <=? 0)
          || (output_sample_rate (config_ r) <=? 0) then (false, r)
  else if channels (config_ r) <=? 0 then (false, r)
  else
    let c :=
      if methodRequiresLibsamplerate (method (config_ r))
      then with_method (config_ r)
             (if isUpsampling r then LINEAR_UPSAMPLE else LINEAR_DOWNSAMPLE)
      else config_ r in
    (true, {| config_ := c; ratio_ := ratio_ r; initialized_ := true |}).

(** [sample0 * (1.0 - frac) + sample1 * frac], computed in [double] and
    narrowed to [float]. *)
Definition interpolate (sample0 sample1 : float) (frac : double) : float :=
  f_of_d (d_add (d_mul (d_of_f sample0) (d_sub d_one frac))
                (d_mul (d_of_f sample1) frac)).

Section Paths.
Context `{Platform}.

(** [static_cast<size_t>(std::ceil(num_frames * ratio_))]. *)
Definition output_frames_of (r : t) (num_frames : Z) : Z :=
  to_size_t (d_ceil (d_mul (d_of_Z num_frames) (ratio_ r))).

(** The source frame and the weight used for output frame [i] by the
    upsampling loop, after the clamp. *)
Definition upsample_source (r : t) (num_frames i : Z) : Z * double :=
  let src_pos := d_div (d_of_Z i) (ratio_ r) in
  let src_idx := to_size_t src_pos in
  let frac := d_sub src_pos (d_of_Z src_idx) in
  if usub num_frames 1 <=? src_idx
  then (usub num_frames 2, d_one)
  else (src_idx, frac).

(** Body of the inner loop of [linearUpsample]. *)
Definition upsample_body (r : t) (input : list float) (num_frames ch i : Z)
    (output : list float) : option (list float) :=
  let c := usize (channels (config_ r)) in
  let '(src_idx, frac) := upsample_source r num_frames i in
  sample0 ← load input (uadd (umul src_idx c) (usize ch));
  sample1 ← load input (uadd (umul (uadd src_idx 1) c) (usize ch));
  store output (uadd (umul i c) (usize ch)) (interpolate sample0 sample1 frac).

(** [Resampler::linearUpsample], scalar path. *)
Definition linearUpsample (r : t) (input : list float) (num_samples : Z)
    : option (list float) :=
  let c := usize (channels (config_ r)) in
  let num_frames := num_samples / c in
  let output_frames := output_frames_of r num_frames in
  let output := replicate (Z.to_nat (umul output_frames c)) f_zero in
  if c =? 0 then None
  else
    for_range 0 (channels (config_ r))
      (fun ch => for_range 0 output_frames (upsample_body r input num_frames ch))
      output.

(** Body of the inner loop of [linearDownsample]. *)
Definition downsample_body (r : t) (input : list float) (num_frames ch i : Z)
    (output : list float) : option (list float) :=
  let c := usize (channels (config_ r)) in
  let src_pos := d_div (d_of_Z i) (ratio_ r) in
  let src_idx := to_size_t src_pos in
  let frac := d_sub src_pos (d_of_Z src_idx) in
  if usub num_frames 1 <=? src_idx
  then
    last ← load input (uadd (umul (usub num_frames 1) c) (usize ch));
    store output (uadd (umul i c) (usize ch)) last
  else
    sample0 ← load input (uadd (umul src_idx c) (usize ch));
    sample1 ← load input (uadd (umul (uadd src_idx 1) c) (usize ch));
    store output (uadd (umul i c) (usize ch)) (interpolate sample0 sample1 frac).

(** [Resampler::linearDownsample], scalar path. *)
Definition linearDownsample (r : t) (input : list float) (num_samples : Z)
    : option (list float) :=
  let c := usize (channels (config_ r)) in
  let num_frames := num_samples / c in
  let output_frames := output_frames_of r num_frames in
  let output := replicate (Z.to_nat (umul output_frames c)) f_zero in
  if c =? 0 then None
  else
    for_range 0 (channels (config_ r))
      (fun ch => for_range 0 output_frames (downsample_body r input num_frames ch))
      output.

(** The early return of [Resampler::linearUpsample_RVV] (the vector build):
    the zero-filled vector handed back when there is nothing to interpolate.
    [None] stands for what is not modelled, the division by zero channels
    and the vector loop the function goes on to otherwise. *)
Definition linearUpsample_RVV_early (r : t) (num_samples : Z)
    : option (list float) :=
  let c := usize (channels (config_ r)) in
  let num_frames := num_samples / c in
  let output_frames := output_frames_of r num_frames in
  let output := replicate (Z.to_nat (umul output_frames c)) f_zero in
  if c =? 0 then None
  else if (output_frames =? 0) || (num_frames <? 2) then Some output
  else None.

(** [std::vector<float>(input, input + num_samples)]. *)
Definition copy_samples (input : list float) (num_samples : Z)
    : option (list float) :=
  if num_samples <=? Z.of_nat (length input)
  then Some (take (Z.to_nat num_samples) input)
  else None.

(** [Resampler::process(const float*, size_t)]: the samples returned
    ([None] when the call runs into undefined behaviour) and the object
    afterwards. *)
Definition process_ptr (r : t) (input : list float) (num_samples : Z)
    : option (list float) * t :=
  let '(ok, r') := initialize r in
  if negb ok then (Some [], r')
  else if num_samples =? 0 then (Some [], r')
  else if input_sample_rate (config_ r') =? output_sample_rate (config_ r')
  then (copy_samples input num_samples, r')
  else
    match method (config_ r') with
    | LINEAR_UPSAMPLE => (linearUpsample r' input num_samples, r')
    | LINEAR_DOWNSAMPLE => (linearDownsample r' input num_samples, r')
    | _ =>
        if isUpsampling r'
        then (linearUpsample r' input num_samples, r')
        else (linearDownsample r' input num_samples, r')
    end.

(** [Resampler::process(const std::vector<float>&)]. *)
Definition process (r : t) (input : list float) : option (list float) * t :=
  process_ptr r input (Z.of_nat (length input)).

(** [Resampler::processStreaming]. *)
Definition processStreaming (r : t) (input : list float) (end_of_input : bool)
    : option (list float) * t :=
  let '(ok, r') := initialize r in
  if negb ok then (Some [], r')
  else if bool_decide (input = []) && negb end_of_input then (Some [], r')
  else process r' input.

(** [Resampler::estimateOutputSize]. *)
Definition estimateOutputSize (input_size input_rate output_rate : Z) : Z :=
  let ratio := d_div (d_of_Z output_rate) (d_of_Z input_rate) in
  uadd (to_size_t (d_ceil (d_mul (d_of_Z input_size) ratio))) 256.
End Paths.

(** *** C API *)

Inductive ResampleMethodC :=
| RESAMPLE_METHOD_LINEAR
| RESAMPLE_METHOD_SRC_BEST_QUALITY
| RESAMPLE_METHOD_SRC_MEDIUM_QUALITY
| RESAMPLE_METHOD_SRC_FASTEST
| RESAMPLE_METHOD_SRC_ZERO_ORDER_HOLD
| RESAMPLE_METHOD_SRC_LINEAR.

(** [methodCToCpp]: without libsamplerate every method is a linear one. *)
Definition methodCToCpp (m : ResampleMethodC) (output_rate input_rate : Z)
    : ResampleMethod :=
  let ratio := d_div (d_of_Z output_rate) (d_of_Z input_rate) in
  if d_ltb d_one ratio then LINEAR_UPSAMPLE else LINEAR_DOWNSAMPLE.

(** [resampler_create]: the handle, or a null pointer. *)
Definition resampler_create (input_rate output_rate channels : Z)
    (m : ResampleMethodC) : option t :=
  let config :=
    mkConfig input_rate output_rate channels
      (methodCToCpp m output_rate input_rate) in
  let '(ok, r) := initialize (make config) in
  if ok then Some r else None.

(** What a call of the C entry point leaves behind: the value returned,
    the caller's output buffer and the resampler. *)
Record CResult := mkCResult {
  returned : Z;
  output_after : option (list float);
  handle_after : option t
}.

Section CApi.
Context `{Platform}.

(** [resampler_process].  A null pointer is [None]; the outer [None] of the
    result is undefined behaviour (of [process], or of a copy past the end
    of the caller's buffer). *)
Definition resampler_process (handle : option t) (input : option (list float))
    (input_samples : Z) (output : option (list float)) (output_capacity : Z)
    : option CResult :=
  match handle, input, output with
  | Some r, Some inp, Some out =>
      if input_samples <=? 0 then Some (mkCResult (-1) output handle)
      else
        let '(res, r') := process_ptr r inp (usize input_samples) in
        match res with
        | None => None
        | Some result =>
            let size := Z.of_nat (length result) in
            if output_capacity <? to_int size
            then Some (mkCResult (-1) output (Some r'))
            else if size <=? Z.of_nat (length out)
            then Some (mkCResult (to_int size)
                         (Some (result ++ drop (length result) out))
                         (Some r'))
            else None
        end
  | _, _, _ => Some (mkCResult (-1) output handle)
  end.

(** [resampler_estimate_output_size]. *)
Definition resampler_estimate_output_size (input_samples input_rate output_rate : Z)
    : Z :=
  to_int (estimateOutputSize (usize input_samples) input_rate output_rate).

(** [resample_simple]. *)
Definition resample_simple (input : option (list float)) (input_samples : Z)
    (input_rate output_rate channels : Z) (m : ResampleMethodC)
    (output : option (list float)) (output_capacity : Z) : option CResult :=
  match resampler_create input_rate output_rate channels m with
  | None => Some (mkCResult (-1) output None)
  | Some r =>
      match resampler_process (Some r) input input_samples output output_capacity with
      | Some res => Some (mkCResult (returned res) (output_after res) None)
      | None => None
      end
  end.
End CApi.

End Resampler.

(** ** Sample formats

    The two conversions are written inline in the source: float to PCM16 in
    the capture callback ([onAudioData]), PCM16 to float in
    [AudioOutputStream::writeInt16]. *)
Module Format.
Import Int Fp.

Definition byte := Z.

Section CaptureSide.
Context `{Platform}.

(** The body of the conversion loop of [onAudioData]:
    clamp to [-1.0f, 1.0f], scale by [32767.0f], [static_cast<int16_t>]. *)
Definition floatToInt16 (sample : float) : Z :=
  let sample := if f_ltb f_one sample then f_one else sample in
  let sample := if f_ltb sample (SFopp f_one) then SFopp f_one else sample in
  f_to_int16 (f_mul sample (f_of_Z 32767)).
End CaptureSide.

(** The body of the conversion loop of [writeInt16]:
    [static_cast<float>(data[i]) / 32768.0f]. *)
Definition int16ToFloat (v : Z) : float :=
  f_div (f_of_Z v) (f_of_Z 32768).

(** The two bytes of an [int16_t] in memory (little-endian target). *)
Definition int16_bytes (v : Z) : list byte :=
  [v mod 256; (v / 256) mod 256].

(** The [int16_t] stored in two bytes. *)
Definition int16_of_bytes (lo hi : byte) : Z :=
  to_int16 (lo + 256 * hi).

End Format.

(** ** The capture front end ([AudioCapture]) *)
Module Capture.
Import Int Fp Format.

(** Process-wide defaults ([AudioConfig], [g_config]). *)
Record AudioConfig := mkAudioConfig {
  cfg_sample_rate : Z;
  cfg_channels : Z;
  cfg_chunk_size : Z;
  cfg_capture_device : Z;
  cfg_player_device : Z
}.

Definition default_AudioConfig : AudioConfig :=
  mkAudioConfig 16000 1 3200 (-1) (-1).

(** [Init(const AudioConfig&)]: the configuration given replaces the
    current one as it is. *)
Definition Init_config (g config : AudioConfig) : AudioConfig := config.

(** [Init(int, int, int, int, int)]: only meaningful values replace the
    current ones. *)
Definition Init (g : AudioConfig)
    (sample_rate channels chunk_size capture_device player_device : Z)
    : AudioConfig :=
  mkAudioConfig
    (if 0 <? sample_rate then sample_rate else cfg_sample_rate g)
    (if 0 <? channels then channels else cfg_channels g)
    (if 0 <? chunk_size then chunk_size else cfg_chunk_size g)
    (if -1 <=? capture_device then capture_device else cfg_capture_device g)
    (if -1 <=? player_device then player_device else cfg_player_device g).

(** The part of [AudioInputStream] the front end relies on.  PortAudio is
    an external collaborator: the answers of its calls ([pa_ok]) are inputs
    of the model. *)
Record Stream := mkStream {
  is_open_ : bool;
  is_running_ : bool;
  frames_per_buffer : Z
}.

(** [AudioInputStream::open]. *)
Definition stream_open (st : Stream) (pa_ok : bool) (frames : Z) : bool * Stream :=
  if is_open_ st then (false, st)
  else if pa_ok then (true, mkStream true (is_running_ st) frames)
  else (false, st).

(** [AudioInputStream::start]. *)
Definition stream_start (st : Stream) (pa_ok : bool) : bool * Stream :=
  if negb (is_open_ st) then (false, st)
  else if is_running_ st then (true, st)
  else if pa_ok then (true, mkStream (is_open_ st) true (frames_per_buffer st))
  else (false, st).

(** [AudioInputStream::stop]. *)
Definition stream_stop (st : Stream) (pa_ok : bool) : bool * Stream :=
  if negb (is_running_ st) then (true, st)
  else if pa_ok then (true, mkStream (is_open_ st) false (frames_per_buffer st))
  else (false, st).

(** [AudioInputStream::close]. *)
Definition stream_close (st : Stream) (pa_ok : bool) : Stream :=
  if negb (is_open_ st) then st
  else
    let st' := snd (stream_stop st pa_ok) in
    mkStream false (is_running_ st') (frames_per_buffer st').

(** [AudioCapture::Impl].  [user_callback] records whether a consumer is
    registered; what the consumer receives is the list of chunks returned
    by [onAudioData]. *)
Record Impl := mkImpl {
  stream : Stream;
  user_callback : bool;
  device_index : Z;
  sample_rate : Z;
  channels : Z;
  chunk_size : Z;
  buffer : list byte
}.

(** [AudioCapture::AudioCapture(device_index)]. *)
Definition create (g : AudioConfig) (device : Z) : Impl :=
  mkImpl (mkStream false false 0) false
    (if device =? -1 then cfg_capture_device g else device)
    16000 1 3200 [].

Definition with_buffer (s : Impl) (b : list byte) : Impl :=
  mkImpl (stream s) (user_callback s) (device_index s) (sample_rate s)
    (channels s) (chunk_size s) b.

Definition with_stream (s : Impl) (st : Stream) : Impl :=
  mkImpl st (user_callback s) (device_index s) (sample_rate s)
    (channels s) (chunk_size s) (buffer s).

(** [std::vector::resize]. *)
Definition resize (n : Z) (v : list byte) : list byte :=
  take (Z.to_nat n) v ++ replicate (Z.to_nat n - length v)%nat 0.

Section Callback.
Context `{Platform}.

(** One round of the conversion loop: [out[i] = ...] through the
    [int16_t*] view of the bytes starting at [old_size]. *)
Definition convert_body (data : list float) (old_size i : Z)
    (buffer : list byte) : option (list byte) :=
  sample ← load data i;
  let bytes := int16_bytes (floatToInt16 sample) in
  b1 ← store buffer (old_size + 2 * i) (bytes !!! 0%nat);
  store b1 (old_size + 2 * i + 1) (bytes !!! 1%nat).

(** The [while] loop of [onAudioData]; [None] when the fuel runs out. *)
Fixpoint deliver (fuel : nat) (chunk_size : Z) (buffer : list byte)
    : option (list byte * list (list byte)) :=
  match fuel with
  | O => None
  | S fuel' =>
      if usize chunk_size <=? Z.of_nat (length buffer)
      then
        let chunk := take (Z.to_nat (usize chunk_size)) buffer in
        match deliver fuel' chunk_size (drop (Z.to_nat chunk_size) buffer) with
        | Some (rest, chunks) => Some (rest, chunk :: chunks)
        | None => None
        end
      else Some (buffer, [])
  end.

(** [AudioCapture::Impl::onAudioData]: the object afterwards and the chunks
    handed to the consumer, in order.  [None] when a read or write leaves
    its storage or the fuel of the delivery loop runs out. *)
Definition onAudioData (fuel : nat) (s : Impl) (data : list float)
    (frames ch : Z) : option (Impl * list (list byte)) :=
  if negb (user_callback s) then Some (s, [])
  else
    let samples := umul frames (usize ch) in
    let bytes_needed := umul samples 2 in
    let old_size := Z.of_nat (length (buffer s)) in
    let resized := resize (uadd old_size bytes_needed) (buffer s) in
    filled ← for_range 0 samples (convert_body data old_size) resized;
    '(rest, chunks) ← deliver fuel (chunk_size s) filled;
    Some (with_buffer s rest, chunks).
End Callback.

(** [AudioCapture::SetCallback]. *)
Definition SetCallback (s : Impl) (registered : bool) : Impl :=
  mkImpl (stream s) registered (device_index s) (sample_rate s)
    (channels s) (chunk_size s) (buffer s).

(** [AudioCapture::Start]; [open_ok] and [start_ok] are the answers of the
    audio device. *)
Definition Start (g : AudioConfig) (open_ok start_ok : bool) (s : Impl)
    (sample_rate channels chunk_size : Z) : bool * Impl :=
  let sample_rate := if sample_rate <=? 0 then cfg_sample_rate g else sample_rate in
  let channels := if channels <=? 0 then cfg_channels g else channels in
  let chunk_size := if chunk_size <=? 0 then cfg_chunk_size g else chunk_size in
  let s1 := mkImpl (stream s) (user_callback s) (device_index s)
              sample_rate channels chunk_size [] in
  let bytes_per_frame := to_int (umul (usize channels) 2) in
  let frames := Z.quot chunk_size bytes_per_frame in
  let frames := if frames <? 64 then 64 else frames in
  let '(opened, st1) := stream_open (stream s1) open_ok frames in
  if negb opened then (false, with_stream s1 st1)
  else
    let '(started, st2) := stream_start st1 start_ok in
    (started, with_stream s1 st2).

(** [AudioCapture::Stop]. *)
Definition Stop (stop_ok : bool) (s : Impl) : Impl :=
  with_stream s (snd (stream_stop (stream s) stop_ok)).

(** [AudioCapture::Close]. *)
Definition Close (stop_ok : bool) (s : Impl) : Impl :=
  with_buffer (with_stream s (stream_close (stream s) stop_ok)) [].

(** *** The front end as a state machine

    What a client and the device can do to a capture object, in any order:
    the operations above and the audio callback.  The process-wide defaults
    are part of the state. *)
Inductive event :=
| EvInit (sample_rate channels chunk_size capture_device player_device : Z)
| EvInitConfig (config : AudioConfig)
| EvSetCallback (registered : bool)
| EvStart (open_ok start_ok : bool) (sample_rate channels chunk_size : Z)
| EvStop (stop_ok : bool)
| EvClose (stop_ok : bool)
| EvAudio (fuel : nat) (data : list float) (frames ch : Z).

Section Machine.
Context `{Platform}.

(** One event: the state afterwards and the chunks the consumer received. *)
Definition step (st : AudioConfig * Impl) (ev : event)
    : option (AudioConfig * Impl * list (list byte)) :=
  let '(g, s) := st in
  match ev with
  | EvInit sr ch cs cd pd => Some (Init g sr ch cs cd pd, s, [])
  | EvInitConfig config => Some (Init_config g config, s, [])
  | EvSetCallback registered => Some (g, SetCallback s registered, [])
  | EvStart open_ok start_ok sr ch cs =>
      Some (g, snd (Start g open_ok start_ok s sr ch cs), [])
  | EvStop stop_ok => Some (g, Stop stop_ok s, [])
  | EvClose stop_ok => Some (g, Close stop_ok s, [])
  | EvAudio fuel data frames ch =>
      '(s', chunks) ← onAudioData fuel s data frames ch;
      Some (g, s', chunks)
  end.

(** A sequence of events: the final state and everything delivered. *)
Fixpoint run (st : AudioConfig * Impl) (evs : list event)
    : option (AudioConfig * Impl * list (list byte)) :=
  match evs with
  | [] => Some (st, [])
  | ev :: evs' =>
      '(st1, chunks1) ← step st ev;
      '(st2, chunks2) ← run st1 evs';
      Some (st2, chunks1 ++ chunks2)
  end.

(** The PCM16 bytes of a block of samples. *)
Definition pcm16 (data : list float) : list byte :=
  mjoin ((fun x => int16_bytes (floatToInt16 x)) <$> data).
End Machine.






End Capture.

(** ** The output stream ([AudioOutputStream])

    PortAudio is an external collaborator: what its calls answer is an
    input of the model, and the stream handle it keeps is left to it. *)
Module Output.
Import Int Fp Format.

(** *** The PortAudio reference counter

    [g_pa_ref_count] counts the streams that hold PortAudio; [pa_live]
    records that [Pa_Initialize] has succeeded and [Pa_Terminate] has not
    been called since.  (The counter is an [int]; it counts open streams,
    so it stays far from the end of the type.) *)
Record PortAudio := mkPortAudio {
  g_pa_ref_count : Z;
  pa_live : bool
}.

(** [ensurePortAudioInitialized]; [init_ok] is the answer of
    [Pa_Initialize], asked only when the counter is zero. *)
Definition ensurePortAudioInitialized (init_ok : bool) (pa : PortAudio)
    : bool * PortAudio :=
  if g_pa_ref_count pa =? 0 then
    if init_ok then (true, mkPortAudio (g_pa_ref_count pa + 1) true)
    else (false, pa)
  else (true, mkPortAudio (g_pa_ref_count pa + 1) (pa_live pa)).

(** [releasePortAudio]. *)
Definition releasePortAudio (pa : PortAudio) : PortAudio :=
  if 0 <? g_pa_ref_count pa then
    let count := g_pa_ref_count pa - 1 in
    mkPortAudio count (if count =? 0 then false else pa_live pa)
  else pa.

(** PortAudio's [paNoDevice]. *)
Definition paNoDevice : Z := -1.

(** *** The stream *)

(** A playback callback: from the buffer to fill, the frames asked for and
    the channel count to the buffer as it leaves it and the frames it
    reports written. *)
Definition AudioOutputCallback : Type :=
  list float -> Z -> Z -> list float * Z.

Record AudioOutputConfig := mkAudioOutputConfig {
  sample_rate : Z;
  channels : Z;
  frames_per_buffer : Z;
  device_index : Z;
  (** whether [device_name_hint] points to a string that is not empty *)
  has_name_hint : bool
}.

Record t := mk {
  callback_ : option AudioOutputCallback;
  actual_sample_rate_ : Z;
  actual_channels_ : Z;
  device_index_ : Z;
  is_running_ : bool;
  is_open_ : bool;
  use_callback_mode_ : bool;
  float_buffer_ : list float
}.

(** [AudioOutputStream::AudioOutputStream()]. *)
Definition make : t := mk None 0 0 (-1) false false false [].

(** [setCallback]. *)
Definition setCallback (st : t) (callback : option AudioOutputCallback) : t :=
  mk callback (actual_sample_rate_ st) (actual_channels_ st) (device_index_ st)
    (is_running_ st) (is_open_ st)
    (match callback with Some _ => true | None => false end)
    (float_buffer_ st).

Definition with_running (st : t) (running : bool) : t :=
  mk (callback_ st) (actual_sample_rate_ st) (actual_channels_ st)
    (device_index_ st) running (is_open_ st) (use_callback_mode_ st)
    (float_buffer_ st).

Definition with_float_buffer (st : t) (b : list float) : t :=
  mk (callback_ st) (actual_sample_rate_ st) (actual_channels_ st)
    (device_index_ st) (is_running_ st) (is_open_ st) (use_callback_mode_ st) b.

(** What the device layer answers during [open]. *)
Record OpenAnswers := mkOpenAnswers {
  init_ok : bool;                (** [Pa_Initialize] *)
  found_by_name : Z;             (** [findDeviceByName] *)
  default_device : Z;            (** [Pa_GetDefaultOutputDevice] *)
  max_channels : option Z;       (** [Pa_GetDeviceInfo]: [maxOutputChannels],
                                     or a null pointer *)
  open_ok : bool                 (** [Pa_OpenStream] *)
}.

(** [AudioOutputStream::open]. *)
Definition open (config : AudioOutputConfig) (ans : OpenAnswers)
    (pa : PortAudio) (st : t) : bool * PortAudio * t :=
  if is_open_ st then (false, pa, st)
  else
    let '(ok, pa1) := ensurePortAudioInitialized (init_ok ans) pa in
    if negb ok then (false, pa1, st)
    else if has_name_hint config && (found_by_name ans <? 0)
    then (false, releasePortAudio pa1, st)
    else
      let device :=
        if has_name_hint config then found_by_name ans
        else device_index config in
      let device := if device <? 0 then default_device ans else device in
      if device =? paNoDevice then (false, releasePortAudio pa1, st)
      else
        match max_channels ans with
        | None => (false, releasePortAudio pa1, st)
        | Some maxOutputChannels =>
            let nchannels :=
              if maxOutputChannels <? channels config then maxOutputChannels
              else channels config in
            if negb (open_ok ans) then (false, releasePortAudio pa1, st)
            else
              (true, pa1,
               mk (callback_ st) (sample_rate config) nchannels device
                 (is_running_ st) true (use_callback_mode_ st)
                 (float_buffer_ st))
        end.

(** [start], [stop] and [abort]; [pa_ok] is the answer of the PortAudio
    call, when it is made. *)
Definition start (pa_ok : bool) (st : t) : bool * t :=
  if negb (is_open_ st) then (false, st)
  else if is_running_ st then (true, st)
  else if pa_ok then (true, with_running st true)
  else (false, st).

Definition stop (pa_ok : bool) (st : t) : bool * t :=
  if negb (is_running_ st) then (true, st)
  else if pa_ok then (true, with_running st false)
  else (false, st).

Definition abort (pa_ok : bool) (st : t) : bool * t :=
  if negb (is_running_ st) then (true, st)
  else if pa_ok then (true, with_running st false)
  else (false, st).

(** [close]. *)
Definition close (stop_ok : bool) (pa : PortAudio) (st : t) : PortAudio * t :=
  if negb (is_open_ st) then (pa, st)
  else
    let st1 := snd (stop stop_ok st) in
    (releasePortAudio pa,
     mk (callback_ st1) (actual_sample_rate_ st1) (actual_channels_ st1)
       (device_index_ st1) (is_running_ st1) false (use_callback_mode_ st1)
       (float_buffer_ st1)).

(** *** The PortAudio callback *)

Inductive PaStreamCallbackResult := paContinue | paComplete.

(** [std::memset(p + offset, 0, bytes)] on a buffer of floats: the floats
    covered become [+0.0f]; outside the buffer the write is undefined. *)
Definition zero_fill (buf : list float) (offset bytes : Z)
    : option (list float) :=
  let count := bytes / 4 in
  if (0 <=? offset) && (offset + count <=? Z.of_nat (length buf))
  then Some (take (Z.to_nat offset) buf ++ replicate (Z.to_nat count) f_zero
               ++ drop (Z.to_nat (offset + count)) buf)
  else None.

(** [AudioOutputStream::paCallback]: the value returned and the output
    buffer afterwards.  [self] and [output_buffer] may be null pointers;
    [None] as a whole is undefined behaviour. *)
Definition paCallback (self : option t) (output_buffer : option (list float))
    (frames_per_buffer : Z)
    : option (PaStreamCallbackResult * option (list float)) :=
  match self, output_buffer with
  | None, None => Some (paContinue, None)
  | None, Some _ => None
  | Some st, None => Some (paContinue, None)
  | Some st, Some output =>
      let nchannels := usize (actual_channels_ st) in
      match callback_ st with
      | None =>
          filled ← zero_fill output 0 (umul (umul frames_per_buffer nchannels) 4);
          Some (paContinue, Some filled)
      | Some callback =>
          let '(output1, frames_written) :=
            callback output frames_per_buffer (actual_channels_ st) in
          if frames_written <? frames_per_buffer then
            let remaining := usub frames_per_buffer frames_written in
            filled ← zero_fill output1 (umul frames_written nchannels)
                       (umul (umul remaining nchannels) 4);
            Some (if frames_written =? 0 then paComplete else paContinue,
                  Some filled)
          else Some (paContinue, Some output1)
      end
  end.

(** *** Blocking writes *)

(** What a call leaves behind: the value returned, the stream, and the
    buffer and frame count passed to [Pa_WriteStream] if it was called. *)
Record Written := mkWritten {
  returned : Z;
  stream_after : t;
  pa_write : option (list float * Z)
}.

(** [write]; [start_ok] and [write_ok] are the answers of
    [Pa_StartStream] and of [Pa_WriteStream] ([paNoError] or
    [paOutputUnderflowed]). *)
Definition write (start_ok write_ok : bool) (st : t) (data : list float)
    (frames : Z) : Written :=
  if negb (is_open_ st) || use_callback_mode_ st then mkWritten (-1) st None
  else
    let '(started, st1) :=
      if is_running_ st then (true, st) else start start_ok st in
    if negb started then mkWritten (-1) st1 None
    else if negb write_ok then mkWritten (-1) st1 (Some (data, frames))
    else mkWritten (to_int frames) st1 (Some (data, frames)).

(** [std::vector<float>::resize], growing. *)
Definition grow (n : Z) (v : list float) : list float :=
  v ++ replicate (Z.to_nat n - length v)%nat f_zero.

(** One round of the conversion loop of [writeInt16]. *)
Definition convert_body (data : list Z) (i : Z) (buf : list float)
    : option (list float) :=
  v ← load data i;
  store buf i (int16ToFloat v).

(** [writeInt16]; [data] may be a null pointer.  [None] when the loop reads
    past the samples given. *)
Definition writeInt16 (start_ok write_ok : bool) (st : t)
    (data : option (list Z)) (frames : Z) : option Written :=
  match data with
  | None => Some (mkWritten (-1) st None)
  | Some samples =>
      if negb (is_open_ st) || (frames =? 0) then Some (mkWritten (-1) st None)
      else
        let total_samples := umul frames (usize (actual_channels_ st)) in
        let buffer :=
          if Z.of_nat (length (float_buffer_ st)) <? total_samples
          then grow total_samples (float_buffer_ st)
          else float_buffer_ st in
        filled ← for_range 0 total_samples (convert_body samples) buffer;
        Some (write start_ok write_ok (with_float_buffer st filled) filled frames)
  end.

(** Whether a stream holds PortAudio. *)
Definition openness (st : t) : Z := if is_open_ st then 1 else 0.

(** The counter and the flag agree. *)
Definition pa_consistent (pa : PortAudio) : Prop :=
  0 <= g_pa_ref_count pa /\ pa_live pa = (0 <? g_pa_ref_count pa).

End Output.

(** ** The input stream ([AudioInputStream])

    The members that decide whether the stream holds PortAudio.  What its
    audio callback hands on is the business of the capture front end. *)
Module Input.
Import Int.

Record AudioInputConfig := mkAudioInputConfig {
  sample_rate : Z;
  channels : Z;
  frames_per_buffer : Z;
  device_index : Z;
  (** whether [device_name_hint] points to a string that is not empty *)
  has_name_hint : bool
}.

Record t := mk {
  actual_sample_rate_ : Z;
  actual_channels_ : Z;
  device_index_ : Z;
  is_running_ : bool;
  is_open_ : bool
}.

(** [AudioInputStream::AudioInputStream()]. *)
Definition make : t := mk 0 0 (-1) false false.

(** What the device layer answers during [open]. *)
Record OpenAnswers := mkOpenAnswers {
  init_ok : bool;                (** [Pa_Initialize] *)
  found_by_name : Z;             (** [findDeviceByName] *)
  default_device : Z;            (** [Pa_GetDefaultInputDevice] *)
  max_channels : option Z;       (** [Pa_GetDeviceInfo]: [maxInputChannels],
                                     or a null pointer *)
  open_ok : bool                 (** [Pa_OpenStream] *)
}.

(** [AudioInputStream::open]. *)
Definition open (config : AudioInputConfig) (ans : OpenAnswers)
    (pa : Output.PortAudio) (st : t) : bool * Output.PortAudio * t :=
  if is_open_ st then (false, pa, st)
  else
    let '(ok, pa1) := Output.ensurePortAudioInitialized (init_ok ans) pa in
    if negb ok then (false, pa1, st)
    else if has_name_hint config && (found_by_name ans <? 0)
    then (false, Output.releasePortAudio pa1, st)
    else
      let device :=
        if has_name_hint config then found_by_name ans
        else device_index config in
      let device := if device <? 0 then default_device ans else device in
      if device =? Output.paNoDevice
      then (false, Output.releasePortAudio pa1, st)
      else
        match max_channels ans with
        | None => (false, Output.releasePortAudio pa1, st)
        | Some maxInputChannels =>
            let nchannels :=
              if maxInputChannels <? channels config then maxInputChannels
              else channels config in
            if negb (open_ok ans)
            then (false, Output.releasePortAudio pa1, st)
            else
              (true, pa1,
               mk (sample_rate config) nchannels device (is_running_ st) true)
        end.

(** [start] and [stop]; [pa_ok] is the answer of the PortAudio call, when
    it is made. *)
Definition start (pa_ok : bool) (st : t) : bool * t :=
  if negb (is_open_ st) then (false, st)
  else if is_running_ st then (true, st)
  else if pa_ok
  then (true, mk (actual_sample_rate_ st) (actual_channels_ st)
                (device_index_ st) true (is_open_ st))
  else (false, st).

Definition stop (pa_ok : bool) (st : t) : bool * t :=
  if negb (is_running_ st) then (true, st)
  else if pa_ok
  then (true, mk (actual_sample_rate_ st) (actual_channels_ st)
                (device_index_ st) false (is_open_ st))
  else (false, st).

(** [close]. *)
Definition close (stop_ok : bool) (pa : Output.PortAudio) (st : t)
    : Output.PortAudio * t :=
  if negb (is_open_ st) then (pa, st)
  else
    let st1 := snd (stop stop_ok st) in
    (Output.releasePortAudio pa,
     mk (actual_sample_rate_ st1) (actual_channels_ st1) (device_index_ st1)
       (is_running_ st1) false).

(** Whether a stream holds PortAudio. *)
Definition openness (st : t) : Z := if is_open_ st then 1 else 0.

End Input.

(** ** The streams that share PortAudio

    [g_pa_ref_count] is one counter for the input streams, the output
    streams and the device queries of both classes.  (The duplex stream
    keeps a counter of its own.) *)
Module Shared.
Import Int Output.

(** [listDevices], of either class: PortAudio is held for the time of the
    query.  The names found are PortAudio's business. *)
Definition listDevices (init_ok : bool) (pa : PortAudio) : PortAudio :=
  let '(ok, pa1) := ensurePortAudioInitialized init_ok pa in
  if negb ok then pa1 else releasePortAudio pa1.

(** [findDeviceByName], of either class; [has_name] tells whether the
    name is neither null nor empty. *)
Definition findDeviceByName (has_name init_ok : bool) (pa : PortAudio)
    : PortAudio :=
  if negb has_name then pa
  else
    let '(ok, pa1) := ensurePortAudioInitialized init_ok pa in
    if negb ok then pa1 else releasePortAudio pa1.

Inductive stream :=
| Playback (st : Output.t)
| Recording (st : Input.t).

(** What a program can do to its streams and to the device list, in any
    order; a stream is named by its position. *)
Inductive operation :=
| OpOpen (i : nat) (config : AudioOutputConfig) (ans : OpenAnswers)
| OpClose (i : nat) (stop_ok : bool)
| OpStart (i : nat) (pa_ok : bool)
| OpStop (i : nat) (pa_ok : bool)
| OpAbort (i : nat) (pa_ok : bool)
| InOpen (i : nat) (config : Input.AudioInputConfig) (ans : Input.OpenAnswers)
| InClose (i : nat) (stop_ok : bool)
| InStart (i : nat) (pa_ok : bool)
| InStop (i : nat) (pa_ok : bool)
| OpListDevices (init_ok : bool)
| OpFindDeviceByName (has_name init_ok : bool).

Definition apply (sys : PortAudio * list stream) (o : operation)
    : PortAudio * list stream :=
  let '(pa, streams) := sys in
  match o with
  | OpOpen i config ans =>
      match streams !! i with
      | Some (Playback st) =>
          let '(_, pa1, st1) := Output.open config ans pa st in
          (pa1, <[i := Playback st1]> streams)
      | _ => sys
      end
  | OpClose i stop_ok =>
      match streams !! i with
      | Some (Playback st) =>
          let '(pa1, st1) := Output.close stop_ok pa st in
          (pa1, <[i := Playback st1]> streams)
      | _ => sys
      end
  | OpStart i pa_ok =>
      match streams !! i with
      | Some (Playback st) =>
          (pa, <[i := Playback (snd (Output.start pa_ok st))]> streams)
      | _ => sys
      end
  | OpStop i pa_ok =>
      match streams !! i with
      | Some (Playback st) =>
          (pa, <[i := Playback (snd (Output.stop pa_ok st))]> streams)
      | _ => sys
      end
  | OpAbort i pa_ok =>
      match streams !! i with
      | Some (Playback st) =>
          (pa, <[i := Playback (snd (Output.abort pa_ok st))]> streams)
      | _ => sys
      end
  | InOpen i config ans =>
      match streams !! i with
      | Some (Recording st) =>
          let '(_, pa1, st1) := Input.open config ans pa st in
          (pa1, <[i := Recording st1]> streams)
      | _ => sys
      end
  | InClose i stop_ok =>
      match streams !! i with
      | Some (Recording st) =>
          let '(pa1, st1) := Input.close stop_ok pa st in
          (pa1, <[i := Recording st1]> streams)
      | _ => sys
      end
  | InStart i pa_ok =>
      match streams !! i with
      | Some (Recording st) =>
          (pa, <[i := Recording (snd (Input.start pa_ok st))]> streams)
      | _ => sys
      end
  | InStop i pa_ok =>
      match streams !! i with
      | Some (Recording st) =>
          (pa, <[i := Recording (snd (Input.stop pa_ok st))]> streams)
      | _ => sys
      end
  | OpListDevices init_ok => (listDevices init_ok pa, streams)
  | OpFindDeviceByName has_name init_ok =>
      (findDeviceByName has_name init_ok pa, streams)
  end.

(** How many of the streams are open. *)
Definition openness (s : stream) : Z :=
  match s with
  | Playback st => Output.openness st
  | Recording st => Input.openness st
  end.

Fixpoint open_count (streams : list stream) : Z :=
  match streams with
  | [] => 0
  | s :: rest => openness s + open_count rest
  end.

(** The counter is the number of open streams. *)
Definition balanced (sys : PortAudio * list stream) : Prop :=
  pa_consistent (fst sys) /\ g_pa_ref_count (fst sys) = open_count (snd sys).

(** [n] output streams and [m] input streams as constructed, PortAudio
    not initialised. *)
Definition fresh (n m : nat) : PortAudio * list stream :=
  (mkPortAudio 0 false,
   replicate n (Playback Output.make) ++ replicate m (Recording Input.make)).

End Shared.

(** ** The playback front end ([AudioPlayer]) *)
Module Player.
Import Int Fp Format.

(** [AudioPlayer::Impl]. *)
Record Impl := mkImpl {
  stream : Output.t;
  device_index : Z;
  sample_rate : Z;
  channels : Z
}.

(** [AudioPlayer::AudioPlayer(device_index)]. *)
Definition create (g : Capture.AudioConfig) (device : Z) : Impl :=
  mkImpl Output.make
    (if device =? -1 then Capture.cfg_player_device g else device)
    16000 1.

(** [AudioPlayer::Start]. *)
Definition Start (g : Capture.AudioConfig) (ans : Output.OpenAnswers)
    (start_ok : bool) (pa : Output.PortAudio) (p : Impl)
    (sample_rate channels : Z) : bool * Output.PortAudio * Impl :=
  let sample_rate :=
    if sample_rate <=? 0 then Capture.cfg_sample_rate g else sample_rate in
  let channels :=
    if channels <=? 0 then Capture.cfg_channels g else channels in
  let config :=
    Output.mkAudioOutputConfig sample_rate channels 256 (device_index p) false in
  let '(opened, pa1, st1) := Output.open config ans pa (stream p) in
  if negb opened
  then (false, pa1, mkImpl st1 (device_index p) sample_rate channels)
  else
    let '(started, st2) := Output.start start_ok st1 in
    (started, pa1, mkImpl st2 (device_index p) sample_rate channels).

(** The bytes of a PCM16 buffer seen through an [int16_t] pointer. *)
Fixpoint pcm_view (data : list byte) : list Z :=
  match data with
  | lo :: hi :: rest => int16_of_bytes lo hi :: pcm_view rest
  | _ => []
  end.

(** What a call of [Write] leaves behind. *)
Record Played := mkPlayed {
  accepted : bool;
  player_after : Impl;
  handed_over : option (list float * Z)
}.

(** [AudioPlayer::Write(const uint8_t*, size_t)]; [None] when the channel
    count is zero (a division by zero) or the bytes run out. *)
Definition Write_ptr (start_ok write_ok : bool) (p : Impl)
    (data : option (list byte)) (size : Z) : option Played :=
  if negb (Output.is_open_ (stream p)) || (size =? 0)
  then Some (mkPlayed false p None)
  else
    let samples := size / 2 in
    if usize (channels p) =? 0 then None
    else
      let frames := samples / usize (channels p) in
      if frames =? 0 then Some (mkPlayed true p None)
      else
        w ← Output.writeInt16 start_ok write_ok (stream p)
              (pcm_view <$> data) frames;
        Some (mkPlayed (0 <? Output.returned w)
                (mkImpl (Output.stream_after w) (device_index p)
                   (sample_rate p) (channels p))
                (Output.pa_write w)).

(** [AudioPlayer::Write(const std::vector<uint8_t>&)]. *)
Definition Write (start_ok write_ok : bool) (p : Impl) (data : list byte)
    : option Played :=
  Write_ptr start_ok write_ok p (Some data) (Z.of_nat (length data)).

(** [AudioPlayer::Stop] and [AudioPlayer::Close]. *)
Definition Stop (stop_ok : bool) (p : Impl) : Impl :=
  mkImpl (snd (Output.stop stop_ok (stream p))) (device_index p)
    (sample_rate p) (channels p).

Definition Close (stop_ok : bool) (pa : Output.PortAudio) (p : Impl)
    : Output.PortAudio * Impl :=
  let '(pa1, st1) := Output.close stop_ok pa (stream p) in
  (pa1, mkImpl st1 (device_index p) (sample_rate p) (channels p)).

End Player.

(** ** The rules of the specification

    The interpolation rules as the specification words them, frame by
    frame, to be compared with what the loops above leave in the output
    vector. *)
Module Rules.
Import Int Fp Resampler.

Section Interpolation.
Context `{Platform}.

(** Source position, index and weight of output frame [i]:
    [p = i / ratio], [idx = floor p], [frac = p - idx]. *)
Definition position (ratio : double) (i : Z) : double := d_div (d_of_Z i) ratio.
Definition index (ratio : double) (i : Z) : Z := to_size_t (position ratio i).
Definition weight (ratio : double) (i : Z) : double :=
  d_sub (position ratio i) (d_of_Z (index ratio i)).

(** The blend of two neighbouring samples, [a * (1 - frac) + b * frac]:
    the samples widened to [double], the sum narrowed to [float]. *)
Definition blend (a b : float) (frac : double) : float :=
  f_of_d (d_add (d_mul (d_of_f a) (d_sub d_one frac)) (d_mul (d_of_f b) frac)).

(** Upsampling: at the boundary, clamp the index and force the weight. *)
Definition upsample_rule (ratio : double) (input : list float)
    (c num_frames ch i : Z) : option float :=
  let '(idx, frac) :=
    if num_frames - 1 <=? index ratio i
    then (num_frames - 2, d_one)
    else (index ratio i, weight ratio i) in
  a ← input !! Z.to_nat (idx * c + ch);
  b ← input !! Z.to_nat ((idx + 1) * c + ch);
  Some (blend a b frac).

End Interpolation.

(** Clamping to [-1.0, 1.0]. *)
Definition clamp (x : float) : float :=
  if f_ltb f_one x then f_one
  else if f_ltb x (SFopp f_one) then SFopp f_one
  else x.

(** The integer nearest to a finite number, halves away from zero. *)
Definition nearest (x : spec_float) : option Z :=
  match x with
  | S754_zero _ => Some 0
  | S754_finite s m e =>
      Some (cond_Zopp s
              (if 0 <=? e then Zpos m * 2 ^ e
               else (Zpos m + 2 ^ (- e - 1)) / 2 ^ (- e)))
  | _ => None
  end.

(** Float to PCM16 in the words of the specification: clamp, scale by
    32767, round, cut to 16 bits. *)
Definition floatToInt16_rounding (x : float) : option Z :=
  z ← nearest (f_mul (clamp x) (f_of_Z 32767));
  Some (to_int16 z).

(** A sample as PCM16 goes: clamped to [-1.0, 1.0], scaled by 32767, the
    fraction dropped.  A NaN has no PCM16 value. *)
Definition quantise (x : float) : option Z :=
  trunc (f_mul (clamp x) (f_of_Z 32767)).

(** The two bytes of a 16-bit signed value, little-endian: the low eight
    bits of its two's complement, then the next eight. *)
Definition le16 (v : Z) : list Z :=
  [Z.land v 255; Z.land (Z.shiftr v 8) 255].

(** A block of samples as 16-bit signed little-endian PCM bytes. *)
Fixpoint pcm16_bytes (data : list float) : option (list Z) :=
  match data with
  | [] => Some []
  | x :: rest =>
      z ← quantise x;
      bytes ← pcm16_bytes rest;
      Some (le16 z ++ bytes)
  end.

(** The test signal of the scenarios: a linear ramp, [k / 128] at frame [k]. *)
Definition ramp (n : nat) : list float :=
  (fun k => binary_normalize 24 128 (Z.of_nat k) (-7) false) <$> seq 0 n.

(** A quarter of full scale, [0.25f]. *)
Definition quarter : float := S754_finite false 8388608 (-25).

End Rules.

(** ** Configurations for concrete runs *)
Module Samples.
Import Fp Resampler Capture.

(** 8 kHz to 16 kHz and 16 kHz to 8 kHz, mono. *)
Definition doubling : Resampler.t :=
  make (mkConfig 8000 16000 1 LINEAR_UPSAMPLE).
Definition halving : Resampler.t :=
  make (mkConfig 16000 8000 1 LINEAR_DOWNSAMPLE).

(** 16 kHz to 48 kHz, mono, as [resampler_create] hands it out. *)
Definition tripling : Resampler.t :=
  snd (initialize (make (mkConfig 16000 48000 1 LINEAR_UPSAMPLE))).

(** 48 kHz to 8 kHz on 309 interleaved channels. *)
Definition many_channels : Resampler.t :=
  make (mkConfig 48000 8000 309 LINEAR_DOWNSAMPLE).

(** A capture object as constructed, with a consumer registered. *)
Definition listening : Impl :=
  SetCallback (create default_AudioConfig (-1)) true.

(** A configuration [initialize] refuses, and one with equal rates. *)
Definition refused : Resampler.t :=
  make (mkConfig 0 16000 1 LINEAR_UPSAMPLE).
Definition same_rate : Resampler.t :=
  make (mkConfig 16000 16000 2 SRC_LINEAR).

(** An output stream opened for blocking writes on device 0, mono, and a
    player holding it. *)
Definition write_stream : Output.t :=
  Output.mk None 16000 1 0 false true false [].
Definition player : Player.Impl := Player.mkImpl write_stream 0 16000 1.

(** A callback stream on two channels whose callback fills one frame with
    ones. *)
Definition one_frame : Output.AudioOutputCallback :=
  fun buf _ _ => (<[0%nat := f_one]> (<[1%nat := f_one]> buf), 1).
Definition callback_stream : Output.t :=
  Output.mk (Some one_frame) 48000 2 0 true true true [].

End Samples.

(** ** Runs of audio callbacks *)
Module Blocks.
Import Int Fp Capture.

(** One call of the audio callback: the fuel of its delivery loop, the
    samples, the frame count and the channel count. *)
Definition block : Type := nat * list float * Z * Z.

Definition audio_events (blocks : list block) : list event :=
  (fun '(fuel, data, frames, ch) => EvAudio fuel data frames ch) <$> blocks.

(** The samples a run of callbacks reads. *)
Definition captured (blocks : list block) : list float :=
  blocks ≫= (fun '(_, data, frames, ch) => take (Z.to_nat (frames * ch)) data).

(** A callback whose arguments describe its data, whose bytes fit the
    address space and whose fuel covers the chunks it can complete. *)
Definition block_ok (chunk_size : Z) (b : block) : Prop :=
  let '(fuel, data, frames, ch) := b in
  0 <= frames /\ 0 <= ch <= INT_MAX /\
  frames * ch <= Z.of_nat (length data) /\
  chunk_size + 2 * (frames * ch) < 2 ^ 64 /\
  (chunk_size + 2 * (frames * ch)) / chunk_size < Z.of_nat fuel.

(** Process-wide defaults that can be used as they are. *)
Definition config_ok (g : AudioConfig) : Prop :=
  0 < cfg_sample_rate g /\ 0 < cfg_channels g /\ 0 < cfg_chunk_size g /\
  -1 <= cfg_capture_device g /\ -1 <= cfg_player_device g.

End Blocks.

(** The slots of an interleaved buffer ([c] channels, [n] frames) assigned
    when two nested loops, channels outside, stand at channel [ch] and
    frame [i]; [val] gives the value due in each slot. *)
Definition filled_upto {A : Type} (c n : Z) (val : Z -> Z -> A) (ch i : Z)
    (out : list A) : Prop :=
  Z.of_nat (length out) = n * c /\
  forall ch' i',
    0 <= ch' < c -> 0 <= i' < n -> ch' < ch \/ (ch' = ch /\ i' < i) ->
    out !! Z.to_nat (i' * c + ch') = Some (val ch' i').

(** ** Rounding: auxiliary notions *)
Module Round.

(** Whether digits have been lost to the right of a shifted mantissa. *)
Definition inexact (r : shr_record) : bool := shr_r r || shr_s r.

(** The floating-point number of sign [sx], mantissa [m] and exponent [e],
    when the mantissa is in range. *)
Definition pack (prec emax : Z) (sx : bool) (m e : Z) : spec_float :=
  match m with
  | Z0 => S754_zero sx
  | Zpos p => if e <=? emax - prec then S754_finite sx p e else S754_infinity sx
  | Zneg _ => S754_nan
  end.

(** The exponent the rounding settles on, and the mantissa shifted to it. *)
Definition round_exp (prec emax mx ex : Z) : Z :=
  Z.max ex (fexp prec emax (Zdigits2 mx + ex)).
Definition round_mant (prec emax mx ex : Z) : Z :=
  mx / 2 ^ (round_exp prec emax mx ex - ex).

(** [m1 * 2 ^ e1 <= m2 * 2 ^ e2], without leaving the integers. *)
Definition scaled_le (m1 e1 m2 e2 : Z) : Prop :=
  m1 * 2 ^ (e1 - Z.min e1 e2) <= m2 * 2 ^ (e2 - Z.min e1 e2).

(** A finite number of sign [sx] whose magnitude is at most, respectively
    at least, [K * 2 ^ g]. *)
Definition mag_le (sx : bool) (x : spec_float) (K g : Z) : Prop :=
  match x with
  | S754_zero s => s = sx /\ 0 <= K
  | S754_finite s m e => s = sx /\ scaled_le (Zpos m) e K g
  | _ => False
  end.

Definition mag_ge (sx : bool) (x : spec_float) (K g : Z) : Prop :=
  match x with
  | S754_zero s => s = sx /\ K <= 0
  | S754_finite s m e => s = sx /\ scaled_le K g (Zpos m) e
  | _ => False
  end.

End Round.

(** * Properties *)

(** ** Integer conversions *)
Module IntFacts.
Import Int.

Lemma usize_small z : 0 <= z < 2 ^ 64 -> usize z = z.
Proof. intros Hz. unfold usize. apply Z.mod_small. exact Hz. Qed.

Lemma usize_range z : 0 <= usize z < 2 ^ 64.
Proof. unfold usize. apply Z.mod_pos_bound. reflexivity. Qed.

Lemma uadd_small a b : 0 <= a + b < 2 ^ 64 -> uadd a b = a + b.
Proof. apply usize_small. Qed.

Lemma umul_small a b : 0 <= a * b < 2 ^ 64 -> umul a b = a * b.
Proof. apply usize_small. Qed.

Lemma usub_small a b : 0 <= a - b < 2 ^ 64 -> usub a b = a - b.
Proof. apply usize_small. Qed.

(** Below one, the unsigned difference wraps to the top of the range. *)
Lemma usub_wraps a b : 0 <= a < b -> b <= 2 ^ 64 -> usub a b = 2 ^ 64 + a - b.
Proof.
  intros Hab Hb. unfold usub, usize.
  symmetry. apply (Z.mod_unique_pos _ _ (-1)); lia.
Qed.

Lemma to_int_small z : - 2 ^ 31 <= z < 2 ^ 31 -> to_int z = z.
Proof. intros Hz. unfold to_int. rewrite Z.mod_small; lia. Qed.

(** Interleaved indices: frame [i], channel [ch] of [c]. *)
Lemma interleaved_bound c n i ch :
  0 <= ch < c -> 0 <= i < n -> 0 <= i * c + ch < n * c.
Proof. intros Hch Hi. nia. Qed.

Lemma interleaved_inj c i ch i' ch' :
  0 <= ch < c -> 0 <= ch' < c -> i * c + ch = i' * c + ch' ->
  i = i' /\ ch = ch'.
Proof.
  intros Hch Hch' Heq.
  assert (Hi : i = i').
  { destruct (Z.lt_trichotomy i i') as [Hlt|[Heqi|Hgt]]; [|exact Heqi|].
    - assert (i * c + c <= i' * c) by nia. lia.
    - assert (i' * c + c <= i * c) by nia. lia. }
  subst i'. split; [reflexivity|lia].
Qed.

End IntFacts.

(** ** Counting loops and buffers *)
Section LoopFacts.
Context {St : Type}.

(** A loop whose body keeps an invariant runs to completion and
    re-establishes it at the end. *)
Lemma loop_invariant (P : Z -> St -> Prop) (body : Z -> St -> option St) :
  forall n i s,
    P i s ->
    (forall j s0, i <= j < i + Z.of_nat n -> P j s0 ->
       exists s1, body j s0 = Some s1 /\ P (j + 1) s1) ->
    exists s', loop n i body s = Some s' /\ P (i + Z.of_nat n) s'.
Proof.
  induction n as [|n IH]; intros i s Hs Hbody; simpl loop.
  - exists s. split; [reflexivity|]. now replace (i + Z.of_nat 0) with i by lia.
  - destruct (Hbody i s) as (s1 & -> & Hs1); [lia|exact Hs|].
    destruct (IH (i + 1) s1 Hs1) as (s' & Hrun & Hs').
    + intros j s0 Hj. apply Hbody. lia.
    + exists s'. split; [exact Hrun|].
      now replace (i + Z.of_nat (S n)) with (i + 1 + Z.of_nat n) by lia.
Qed.

Lemma for_range_invariant (P : Z -> St -> Prop) (body : Z -> St -> option St)
    (lo hi : Z) (s : St) :
  lo <= hi ->
  P lo s ->
  (forall j s0, lo <= j < hi -> P j s0 ->
     exists s1, body j s0 = Some s1 /\ P (j + 1) s1) ->
  exists s', for_range lo hi body s = Some s' /\ P hi s'.
Proof.
  intros Hle Hs Hbody. unfold for_range.
  destruct (loop_invariant P body (Z.to_nat (hi - lo)) lo s Hs) as (s' & Hrun & Hs').
  - intros j s0 Hj. apply Hbody. lia.
  - exists s'. split; [exact Hrun|].
    replace (lo + Z.of_nat (Z.to_nat (hi - lo))) with hi in Hs' by lia.
    exact Hs'.
Qed.

(** A loop over an empty range does nothing. *)
Lemma for_range_empty (body : Z -> St -> option St) (lo hi : Z) (s : St) :
  hi <= lo -> for_range lo hi body s = Some s.
Proof.
  intros Hle. unfold for_range.
  now replace (Z.to_nat (hi - lo)) with O by lia.
Qed.
End LoopFacts.

Section BufferFacts.
Context {A : Type}.
Implicit Types (v : list A) (k : Z).

Lemma load_Some v k x :
  load v k = Some x <-> 0 <= k < Z.of_nat (length v) /\ v !! Z.to_nat k = Some x.
Proof.
  unfold load.
  destruct (Z.leb_spec 0 k); destruct (Z.ltb_spec k (Z.of_nat (length v))); simpl;
    split; try (intros [? ?]); try discriminate; try lia; auto.
Qed.

Lemma load_in_range v k :
  0 <= k < Z.of_nat (length v) -> exists x, load v k = Some x.
Proof.
  intros Hk. destruct (lookup_lt_is_Some_2 v (Z.to_nat k)) as [x Hx]; [lia|].
  exists x. apply load_Some. split; assumption.
Qed.

Lemma load_out_of_range v k :
  Z.of_nat (length v) <= k -> load v k = None.
Proof.
  intros Hk. unfold load.
  replace (k <? Z.of_nat (length v)) with false by (symmetry; lia).
  now rewrite andb_false_r.
Qed.

Lemma store_in_range v k x :
  0 <= k < Z.of_nat (length v) -> store v k x = Some (<[Z.to_nat k := x]> v).
Proof.
  intros Hk. unfold store.
  replace (0 <=? k) with true by (symmetry; lia).
  now replace (k <? Z.of_nat (length v)) with true by (symmetry; lia).
Qed.
End BufferFacts.

(** ** Filling an interleaved buffer

    Both linear paths have the same shape: for every channel, for every
    output frame, one element of the output vector is assigned.  When the
    body of the inner loop amounts to that assignment, the two loops run to
    completion and leave in every slot the value computed for it. *)
Section Fill.
Context {A : Type}.
Variables (c n : Z) (val : Z -> Z -> A).
Variable body : Z -> Z -> list A -> option (list A).
Hypothesis c_pos : 0 < c.
Hypothesis n_nonneg : 0 <= n.
Hypothesis body_assigns :
  forall ch i out,
    0 <= ch < c -> 0 <= i < n -> Z.of_nat (length out) = n * c ->
    body ch i out = Some (<[Z.to_nat (i * c + ch) := val ch i]> out).

Lemma filled_step ch i out :
  0 <= ch < c -> 0 <= i < n ->
  filled_upto c n val ch i out ->
  filled_upto c n val ch (i + 1) (<[Z.to_nat (i * c + ch) := val ch i]> out).
Proof.
  intros Hch Hi [Hlen Hold]. split.
  - now rewrite length_insert.
  - intros ch' i' Hch' Hi' Hdone.
    destruct (decide (i' * c + ch' = i * c + ch)) as [Heq|Hne].
    + destruct (IntFacts.interleaved_inj c i' ch' i ch Hch' Hch Heq) as [-> ->].
      apply list_lookup_insert_eq.
      pose proof (IntFacts.interleaved_bound c n i ch Hch Hi). lia.
    + rewrite list_lookup_insert_ne.
      * apply Hold; [assumption..|].
        destruct Hdone as [Hlt|[-> Hlt]]; [now left|].
        right. split; [reflexivity|].
        assert (i' <> i) by (intros ->; now apply Hne). lia.
      * pose proof (IntFacts.interleaved_bound c n i ch Hch Hi).
        pose proof (IntFacts.interleaved_bound c n i' ch' Hch' Hi'). lia.
Qed.

Lemma fill_channel ch out :
  0 <= ch < c ->
  filled_upto c n val ch 0 out ->
  exists out', for_range 0 n (body ch) out = Some out' /\ filled_upto c n val (ch + 1) 0 out'.
Proof.
  intros Hch Hout.
  destruct (for_range_invariant (filled_upto c n val ch) (body ch) 0 n out n_nonneg Hout)
    as (out' & Hrun & [Hlen Hall]).
  - intros i out0 Hi Hinv. eexists. split.
    + apply body_assigns; [assumption..|]. apply Hinv.
    + now apply filled_step.
  - exists out'. split; [exact Hrun|]. split; [exact Hlen|].
    intros ch' i' Hch' Hi' Hdone. apply Hall; [assumption..|]. lia.
Qed.

Lemma fill_all out0 :
  Z.of_nat (length out0) = n * c ->
  exists out,
    for_range 0 c (fun ch => for_range 0 n (body ch)) out0 = Some out /\
    Z.of_nat (length out) = n * c /\
    forall ch i, 0 <= ch < c -> 0 <= i < n ->
      out !! Z.to_nat (i * c + ch) = Some (val ch i).
Proof.
  intros Hlen.
  destruct (for_range_invariant (fun ch => filled_upto c n val ch 0)
              (fun ch => for_range 0 n (body ch)) 0 c out0)
    as (out & Hrun & [Hlen' Hall]).
  - lia.
  - split; [exact Hlen|]. intros; lia.
  - intros ch out1 Hch Hinv. now apply fill_channel.
  - exists out. split; [exact Hrun|]. split; [exact Hlen'|].
    intros ch i Hch Hi. apply Hall; [assumption..|]. lia.
Qed.
End Fill.

(** ** Rounding *)
Module RoundFacts.
Import Round.

(** *** Number of binary digits *)

Lemma digits2_pos_size p : digits2_pos p = Pos.size p.
Proof. induction p as [p IH|p IH|]; simpl; now rewrite ?IH. Qed.

Lemma Zdigits2_log2 p : Zdigits2 (Zpos p) = Z.log2 (Zpos p) + 1.
Proof.
  unfold Zdigits2. rewrite digits2_pos_size.
  destruct p as [p|p|]; simpl; lia.
Qed.

Lemma Zdigits2_bounds m :
  0 < m -> 2 ^ (Zdigits2 m - 1) <= m < 2 ^ Zdigits2 m.
Proof.
  intros Hm. destruct m as [|p|p]; try lia.
  rewrite Zdigits2_log2.
  pose proof (Z.log2_spec (Zpos p) Hm) as Hs.
  replace (Z.log2 (Zpos p) + 1 - 1) with (Z.log2 (Zpos p)) by lia.
  now replace (Z.log2 (Zpos p) + 1) with (Z.succ (Z.log2 (Zpos p))) by lia.
Qed.

Lemma Zdigits2_nonneg m : 0 <= Zdigits2 m.
Proof. destruct m; simpl; lia. Qed.

Lemma Zdigits2_pos m : 0 < m -> 0 < Zdigits2 m.
Proof. destruct m; simpl; lia. Qed.

(** A positive number below [2 ^ k] has at most [k] digits, one not below
    [2 ^ k] more than [k]. *)
Lemma Zdigits2_le m k : 0 <= m < 2 ^ k -> 0 <= k -> Zdigits2 m <= k.
Proof.
  intros Hm Hk. destruct (Z.eq_dec m 0) as [->|Hne]; [simpl; lia|].
  destruct (Z.le_gt_cases (Zdigits2 m) k) as [Hle|Hgt]; [exact Hle|].
  pose proof (Zdigits2_bounds m ltac:(lia)) as [Hlo _].
  assert (2 ^ k <= 2 ^ (Zdigits2 m - 1)) by (apply Z.pow_le_mono_r; lia).
  lia.
Qed.

Lemma Zdigits2_gt m k : 2 ^ k <= m -> 0 <= k -> k < Zdigits2 m.
Proof.
  intros Hm Hk.
  assert (0 < 2 ^ k) by (apply Z.pow_pos_nonneg; lia).
  destruct (Z.lt_ge_cases k (Zdigits2 m)) as [Hlt|Hge]; [exact Hlt|].
  pose proof (Zdigits2_bounds m ltac:(lia)) as [_ Hhi].
  assert (2 ^ Zdigits2 m <= 2 ^ k) by (apply Z.pow_le_mono_r; lia).
  lia.
Qed.

Lemma Zdigits2_mul_pow2 m k :
  0 < m -> 0 <= k -> Zdigits2 (m * 2 ^ k) = Zdigits2 m + k.
Proof.
  intros Hm Hk.
  assert (Hp : 0 < 2 ^ k) by (apply Z.pow_pos_nonneg; lia).
  destruct m as [|p|p]; try lia.
  destruct (Z.pos p * 2 ^ k) as [|q|q] eqn:E; try lia.
  rewrite !Zdigits2_log2, <- E, Z.log2_mul_pow2 by lia. lia.
Qed.

(** *** Repeated halving *)

Lemma iter_pos_nat {A : Type} (f : A -> A) p : forall x,
  SpecFloat.iter_pos f p x = Nat.iter (Pos.to_nat p) f x.
Proof.
  induction p as [p IH|p IH|]; intros x; simpl SpecFloat.iter_pos.
  - rewrite !IH, Pos2Nat.inj_xI.
    replace (S (2 * Pos.to_nat p)) with (Pos.to_nat p + S (Pos.to_nat p))%nat by lia.
    rewrite Nat.iter_add. f_equal. now rewrite Nat.iter_succ_r.
  - rewrite !IH, Pos2Nat.inj_xO.
    replace (2 * Pos.to_nat p)%nat with (Pos.to_nat p + Pos.to_nat p)%nat by lia.
    now rewrite Nat.iter_add.
  - reflexivity.
Qed.

Lemma shr_1_spec r :
  0 <= shr_m r ->
  shr_m (shr_1 r) = shr_m r / 2 /\
  inexact (shr_1 r) = inexact r || negb (shr_m r mod 2 =? 0).
Proof.
  destruct r as [m rb sb]. unfold inexact. simpl shr_m. intros Hm.
  destruct m as [|[p|p|]|p]; try lia; cbn [shr_1 shr_m shr_r shr_s].
  - split; [reflexivity|]. simpl. now rewrite orb_false_r.
  - split.
    + rewrite Pos2Z.inj_xI. apply (Z.div_unique _ _ _ 1); lia.
    + rewrite Pos2Z.inj_xI.
      replace ((2 * Z.pos p + 1) mod 2) with 1
        by (apply (Z.mod_unique _ _ (Zpos p)); lia).
      simpl. now rewrite orb_true_r.
  - split.
    + rewrite Pos2Z.inj_xO. apply (Z.div_unique _ _ _ 0); lia.
    + rewrite Pos2Z.inj_xO.
      replace ((2 * Z.pos p) mod 2) with 0
        by (apply (Z.mod_unique _ _ (Zpos p)); lia).
      simpl. now rewrite orb_false_r.
  - split; [reflexivity|]. simpl. now rewrite orb_true_r.
Qed.

Lemma shr_iter_spec n : forall r,
  0 <= shr_m r ->
  0 <= shr_m (Nat.iter n shr_1 r) /\
  shr_m (Nat.iter n shr_1 r) = shr_m r / 2 ^ Z.of_nat n /\
  inexact (Nat.iter n shr_1 r) =
    inexact r || negb (shr_m r mod 2 ^ Z.of_nat n =? 0).
Proof.
  induction n as [|n IH]; intros r Hr.
  - simpl Nat.iter. change (2 ^ Z.of_nat 0) with 1.
    rewrite Z.div_1_r, Z.mod_1_r. simpl. now rewrite orb_false_r.
  - rewrite Nat.iter_succ_r.
    destruct (shr_1_spec r Hr) as [Hm1 Hi1].
    assert (H1 : 0 <= shr_m (shr_1 r)) by (rewrite Hm1; apply Z.div_pos; lia).
    destruct (IH (shr_1 r) H1) as (Hpos & Hm & Hi).
    split; [exact Hpos|].
    assert (Hpow : 2 ^ Z.of_nat (S n) = 2 * 2 ^ Z.of_nat n).
    { rewrite Nat2Z.inj_succ. apply Z.pow_succ_r. lia. }
    assert (Hp : 0 < 2 ^ Z.of_nat n) by (apply Z.pow_pos_nonneg; lia).
    split.
    + rewrite Hm, Hm1, Hpow. apply Z.div_div; lia.
    + rewrite Hi, Hi1, Hm1, Hpow, <- orb_assoc. f_equal.
      rewrite Z.rem_mul_r by lia.
      destruct (Z.eqb_spec (shr_m r mod 2) 0) as [E0|E0];
        destruct (Z.eqb_spec ((shr_m r / 2) mod 2 ^ Z.of_nat n) 0) as [E1|E1];
        cbn [negb orb]; symmetry.
      * apply negb_false_iff, Z.eqb_eq. rewrite E0, E1. lia.
      * apply negb_true_iff, Z.eqb_neq.
        pose proof (Z.mod_pos_bound (shr_m r / 2) (2 ^ Z.of_nat n) Hp). lia.
      * apply negb_true_iff, Z.eqb_neq.
        pose proof (Z.mod_pos_bound (shr_m r) 2 ltac:(lia)).
        pose proof (Z.mod_pos_bound (shr_m r / 2) (2 ^ Z.of_nat n) Hp). lia.
      * apply negb_true_iff, Z.eqb_neq.
        pose proof (Z.mod_pos_bound (shr_m r) 2 ltac:(lia)).
        pose proof (Z.mod_pos_bound (shr_m r / 2) (2 ^ Z.of_nat n) Hp). lia.
Qed.

(** [shr] divides the mantissa by a power of two and keeps track of
    whether the division was exact. *)
Lemma shr_spec r e n :
  0 <= shr_m r ->
  let k := Z.max 0 n in
  0 <= shr_m (fst (shr r e n)) /\
  shr_m (fst (shr r e n)) = shr_m r / 2 ^ k /\
  inexact (fst (shr r e n)) = inexact r || negb (shr_m r mod 2 ^ k =? 0) /\
  snd (shr r e n) = e + k.
Proof.
  intros Hr k. unfold shr.
  destruct n as [|p|p]; simpl fst; simpl snd; subst k.
  - change (Z.max 0 0) with 0. change (2 ^ 0) with 1.
    rewrite Z.div_1_r, Z.mod_1_r. simpl. rewrite orb_false_r. repeat split; lia.
  - rewrite iter_pos_nat.
    destruct (shr_iter_spec (Pos.to_nat p) r Hr) as (H0 & Hm & Hi).
    rewrite positive_nat_Z in Hm, Hi.
    replace (Z.max 0 (Z.pos p)) with (Z.pos p) by lia.
    repeat split; assumption.
  - replace (Z.max 0 (Z.neg p)) with 0 by lia. change (2 ^ 0) with 1.
    rewrite Z.div_1_r, Z.mod_1_r. simpl. rewrite orb_false_r. repeat split; lia.
Qed.


(** *** Comparing scaled integers *)

Lemma scaled_le_at lo m1 e1 m2 e2 :
  lo <= e1 -> lo <= e2 ->
  scaled_le m1 e1 m2 e2 <-> m1 * 2 ^ (e1 - lo) <= m2 * 2 ^ (e2 - lo).
Proof.
  intros H1 H2. unfold scaled_le.
  set (mn := Z.min e1 e2).
  assert (Hp : 0 < 2 ^ (mn - lo)) by (apply Z.pow_pos_nonneg; lia).
  replace (e1 - lo) with ((e1 - mn) + (mn - lo)) by lia.
  replace (e2 - lo) with ((e2 - mn) + (mn - lo)) by lia.
  rewrite !Z.pow_add_r by lia. rewrite !Z.mul_assoc.
  split; intros H.
  - apply Z.mul_le_mono_nonneg_r; lia.
  - apply Z.mul_le_mono_pos_r in H; lia.
Qed.

(** *** The rounding step of the arithmetic operations *)

Section Rounding.
Variables prec emax : Z.
Hypothesis prec_pos : 0 < prec.

Local Abbreviation fexp := (fexp prec emax).
Local Abbreviation emin := (emin prec emax).
Local Abbreviation round_exp := (round_exp prec emax).
Local Abbreviation round_mant := (round_mant prec emax).

Lemma fexp_ge_emin e : emin <= fexp e.
Proof. unfold SpecFloat.fexp. lia. Qed.

Lemma loc_exact_iff r : loc_of_shr_record r = loc_Exact <-> inexact r = false.
Proof. destruct r as [m [] []]; unfold inexact; simpl; split; congruence. Qed.

Lemma inexact_of_loc m l :
  inexact (shr_record_of_loc m l) = false <-> l = loc_Exact.
Proof. destruct l as [|[]]; unfold inexact; simpl; split; congruence. Qed.

Lemma shr_m_of_loc m l : shr_m (shr_record_of_loc m l) = m.
Proof. destruct l as [|[]]; reflexivity. Qed.

Lemma round_nearest_even_spec m l :
  m <= round_nearest_even m l <= m + 1 /\
  (l = loc_Exact -> round_nearest_even m l = m).
Proof.
  destruct l as [|[]]; simpl; try destruct (Z.even m);
    (split; [lia|congruence]).
Qed.

Lemma round_exp_ge mx ex : ex <= round_exp mx ex.
Proof. unfold Round.round_exp. lia. Qed.

Lemma round_mant_range mx ex :
  0 <= mx -> 0 <= round_mant mx ex < 2 ^ prec.
Proof.
  intros Hmx. unfold Round.round_mant.
  set (k := round_exp mx ex - ex).
  assert (Hk : 0 <= k) by (unfold k, Round.round_exp; lia).
  assert (Hp : 0 < 2 ^ k) by (apply Z.pow_pos_nonneg; lia).
  split; [apply Z.div_pos; lia|].
  apply Z.div_lt_upper_bound; [exact Hp|].
  destruct (Z.eq_dec mx 0) as [->|Hne].
  { assert (0 < 2 ^ prec) by (apply Z.pow_pos_nonneg; lia). nia. }
  pose proof (Zdigits2_bounds mx ltac:(lia)) as [_ Hhi].
  rewrite <- Z.pow_add_r by lia.
  eapply Z.lt_le_trans; [exact Hhi|].
  apply Z.pow_le_mono_r; [lia|].
  unfold k, Round.round_exp, SpecFloat.fexp. lia.
Qed.

Lemma Zdigits2_pow2 k : 0 <= k -> Zdigits2 (2 ^ k) = k + 1.
Proof.
  intros Hk.
  assert (0 < 2 ^ k) by (apply Z.pow_pos_nonneg; lia).
  apply Z.le_antisymm.
  - apply Zdigits2_le; [|lia]. split; [lia|]. apply Z.pow_lt_mono_r; lia.
  - pose proof (Zdigits2_gt (2 ^ k) k ltac:(lia) Hk). lia.
Qed.

(** What [binary_round_aux] returns: the mantissa is cut at the exponent
    [round_exp], moved up by at most one unit (and not at all when nothing
    was cut off), and renormalised when this reaches [2 ^ prec]. *)
Lemma binary_round_aux_spec sx mx ex lx :
  0 <= mx ->
  exists m1,
    round_mant mx ex <= m1 <= round_mant mx ex + 1 /\
    m1 <= 2 ^ prec /\
    (lx = loc_Exact -> mx mod 2 ^ (round_exp mx ex - ex) = 0 ->
       m1 = round_mant mx ex) /\
    binary_round_aux prec emax sx mx ex lx =
      if m1 <? 2 ^ prec
      then pack prec emax sx m1 (round_exp mx ex)
      else pack prec emax sx (2 ^ (prec - 1)) (round_exp mx ex + 1).
Proof.
  intros Hmx.
  pose proof (round_mant_range mx ex Hmx) as Hm'.
  pose proof (round_exp_ge mx ex) as He1.
  assert (Hemin : emin <= round_exp mx ex).
  { unfold Round.round_exp. pose proof (fexp_ge_emin (Zdigits2 mx + ex)). lia. }
  unfold binary_round_aux, shr_fexp.
  set (n := fexp (Zdigits2 mx + ex) - ex).
  assert (Hk : Z.max 0 n = round_exp mx ex - ex) by (unfold n, Round.round_exp; lia).
  pose proof (shr_spec (shr_record_of_loc mx lx) ex n) as Hshr.
  rewrite shr_m_of_loc in Hshr. specialize (Hshr Hmx). cbv zeta in Hshr.
  rewrite Hk in Hshr.
  destruct (shr (shr_record_of_loc mx lx) ex n) as [mrs' e'].
  simpl fst in Hshr; simpl snd in Hshr.
  destruct Hshr as (_ & Hm & Hi & ->).
  fold (round_mant mx ex) in Hm.
  replace (ex + (round_exp mx ex - ex)) with (round_exp mx ex) by lia.
  set (m1 := round_nearest_even (shr_m mrs') (loc_of_shr_record mrs')).
  destruct (round_nearest_even_spec (shr_m mrs') (loc_of_shr_record mrs'))
    as [Hm1 Hexact].
  fold m1 in Hm1, Hexact. rewrite Hm in Hm1, Hexact.
  exists m1. split; [exact Hm1|]. split; [lia|]. split.
  { intros Hlx Hmod. apply Hexact. apply loc_exact_iff. rewrite Hi.
    rewrite (proj2 (inexact_of_loc mx lx) Hlx), Hmod. reflexivity. }
  set (n2 := fexp (Zdigits2 m1 + round_exp mx ex) - round_exp mx ex).
  pose proof (shr_spec (shr_record_of_loc m1 loc_Exact) (round_exp mx ex) n2) as Hshr2.
  rewrite shr_m_of_loc in Hshr2. specialize (Hshr2 ltac:(lia)). cbv zeta in Hshr2.
  destruct (shr (shr_record_of_loc m1 loc_Exact) (round_exp mx ex) n2) as [mrs'' e''].
  simpl fst in Hshr2; simpl snd in Hshr2.
  destruct Hshr2 as (_ & Hm2 & _ & ->).
  rewrite Hm2.
  destruct (Z.ltb_spec m1 (2 ^ prec)) as [Hlt|Hge].
  - assert (Hd : Zdigits2 m1 <= prec) by (apply Zdigits2_le; lia).
    replace (Z.max 0 n2) with 0
      by (unfold n2, SpecFloat.fexp; fold emin; lia).
    change (2 ^ 0) with 1. rewrite Z.div_1_r, Z.add_0_r. reflexivity.
  - assert (Heq : m1 = 2 ^ prec) by lia.
    replace (Z.max 0 n2) with 1
      by (unfold n2; rewrite Heq, Zdigits2_pow2 by lia;
          unfold SpecFloat.fexp; fold emin; lia).
    rewrite Heq.
    change (2 ^ 1) with 2.
    replace (2 ^ prec / 2) with (2 ^ (prec - 1)).
    + reflexivity.
    + replace prec with (Z.succ (prec - 1)) at 2 by lia.
      rewrite Z.pow_succ_r by lia.
      rewrite Z.mul_comm, Z.div_mul by lia. reflexivity.
Qed.


Lemma pack_mag_le sx m e K g lo :
  0 <= m -> e <= emax - prec -> lo <= e -> lo <= g ->
  m * 2 ^ (e - lo) <= K * 2 ^ (g - lo) ->
  mag_le sx (pack prec emax sx m e) K g.
Proof.
  intros Hm He Hlo1 Hlo2 Hle. unfold pack.
  destruct m as [|p|p]; [| |lia].
  - split; [reflexivity|].
    assert (0 < 2 ^ (g - lo)) by (apply Z.pow_pos_nonneg; lia). nia.
  - replace (e <=? emax - prec) with true by (symmetry; lia).
    split; [reflexivity|]. now apply (scaled_le_at lo).
Qed.

Lemma pack_mag_ge sx m e K g lo :
  0 < m -> e <= emax - prec -> lo <= e -> lo <= g ->
  K * 2 ^ (g - lo) <= m * 2 ^ (e - lo) ->
  mag_ge sx (pack prec emax sx m e) K g.
Proof.
  intros Hm He Hlo1 Hlo2 Hle. unfold pack.
  destruct m as [|p|p]; [lia| |lia].
  replace (e <=? emax - prec) with true by (symmetry; lia).
  split; [reflexivity|]. now apply (scaled_le_at lo).
Qed.

Lemma pow2_split a b c : c <= b -> b <= a -> 2 ^ (a - c) = 2 ^ (a - b) * 2 ^ (b - c).
Proof.
  intros H1 H2. rewrite <- Z.pow_add_r by lia. f_equal. lia.
Qed.

(** Rounding does not cross a bound that lies on the grid of the result:
    from above ... *)
Lemma round_aux_below sx mx ex lx K g :
  0 <= mx -> round_exp mx ex <= g -> g + 1 <= emax - prec ->
  mx <= K * 2 ^ (g - ex) ->
  (lx <> loc_Exact -> mx < K * 2 ^ (g - ex)) ->
  mag_le sx (binary_round_aux prec emax sx mx ex lx) K g.
Proof.
  intros Hmx Hg Hmax Hle Hlt.
  destruct (binary_round_aux_spec sx mx ex lx Hmx) as (m1 & Hm1 & Hm1p & Hexact & ->).
  pose proof (round_exp_ge mx ex) as He1.
  pose proof (round_mant_range mx ex Hmx) as Hm'.
  set (e1 := round_exp mx ex) in *.
  assert (HP : 0 < 2 ^ (e1 - ex)) by (apply Z.pow_pos_nonneg; lia).
  assert (HQ : 0 < 2 ^ (g - e1)) by (apply Z.pow_pos_nonneg; lia).
  rewrite (pow2_split g e1 ex) in Hle, Hlt by lia.
  rewrite Z.mul_assoc in Hle, Hlt.
  assert (Hbound : m1 <= K * 2 ^ (g - e1)).
  { unfold Round.round_mant in *. fold e1 in Hm1, Hexact, Hm'.
    destruct (Z.eq_dec (mx mod 2 ^ (e1 - ex)) 0) as [Hmod|Hmod].
    - destruct lx as [|c].
      + rewrite Hexact by tauto.
        apply Z.div_le_upper_bound; [exact HP|]. lia.
      + assert (mx / 2 ^ (e1 - ex) < K * 2 ^ (g - e1)).
        { apply Z.div_lt_upper_bound; [exact HP|].
          specialize (Hlt ltac:(discriminate)). lia. }
        lia.
    - assert (mx / 2 ^ (e1 - ex) < K * 2 ^ (g - e1)).
      { apply Z.div_lt_upper_bound; [exact HP|].
        assert (mx <> K * 2 ^ (g - e1) * 2 ^ (e1 - ex)).
        { intros E. apply Hmod. rewrite E. apply Z.mod_mul. lia. }
        lia. }
      lia. }
  destruct (Z.ltb_spec m1 (2 ^ prec)) as [Hsmall|Hbig].
  - apply (pack_mag_le sx m1 e1 K g e1); try lia.
    rewrite Z.sub_diag. change (2 ^ 0) with 1. lia.
  - assert (Hp1 : 0 < 2 ^ (prec - 1)) by (apply Z.pow_pos_nonneg; lia).
    apply (pack_mag_le sx (2 ^ (prec - 1)) (e1 + 1) K g e1); try lia.
    replace (e1 + 1 - e1) with 1 by lia.
    rewrite <- Z.pow_add_r by lia.
    replace (prec - 1 + 1) with prec by lia. lia.
Qed.

(** ... and from below. *)
Lemma round_aux_above sx mx ex lx K g :
  0 <= mx -> 0 < K -> round_exp mx ex <= g ->
  round_exp mx ex + 1 <= emax - prec ->
  K * 2 ^ (g - ex) <= mx ->
  mag_ge sx (binary_round_aux prec emax sx mx ex lx) K g.
Proof.
  intros Hmx HK Hg Hmax Hle.
  destruct (binary_round_aux_spec sx mx ex lx Hmx) as (m1 & Hm1 & Hm1p & Hexact & ->).
  pose proof (round_exp_ge mx ex) as He1.
  set (e1 := round_exp mx ex) in *.
  assert (HP : 0 < 2 ^ (e1 - ex)) by (apply Z.pow_pos_nonneg; lia).
  assert (HQ : 0 < 2 ^ (g - e1)) by (apply Z.pow_pos_nonneg; lia).
  rewrite (pow2_split g e1 ex) in Hle by lia.
  rewrite Z.mul_assoc in Hle.
  assert (Hbound : K * 2 ^ (g - e1) <= m1).
  { unfold Round.round_mant in Hm1. fold e1 in Hm1.
    assert (K * 2 ^ (g - e1) <= mx / 2 ^ (e1 - ex))
      by (apply Z.div_le_lower_bound; [exact HP|lia]).
    lia. }
  assert (0 < m1) by nia.
  destruct (Z.ltb_spec m1 (2 ^ prec)) as [Hsmall|Hbig].
  - apply (pack_mag_ge sx m1 e1 K g e1); try lia.
    rewrite Z.sub_diag. change (2 ^ 0) with 1. lia.
  - assert (Hp1 : 0 < 2 ^ (prec - 1)) by (apply Z.pow_pos_nonneg; lia).
    apply (pack_mag_ge sx (2 ^ (prec - 1)) (e1 + 1) K g e1); try lia.
    replace (e1 + 1 - e1) with 1 by lia.
    rewrite <- Z.pow_add_r by lia.
    replace (prec - 1 + 1) with prec by lia. lia.
Qed.

(** Nothing is lost when the digits cut off are all zero. *)
Lemma round_aux_exact sx mx ex :
  0 <= mx -> mx mod 2 ^ (round_exp mx ex - ex) = 0 ->
  binary_round_aux prec emax sx mx ex loc_Exact =
    pack prec emax sx (round_mant mx ex) (round_exp mx ex).
Proof.
  intros Hmx Hmod.
  destruct (binary_round_aux_spec sx mx ex loc_Exact Hmx) as (m1 & _ & _ & Hexact & ->).
  rewrite (Hexact eq_refl Hmod).
  pose proof (round_mant_range mx ex Hmx).
  now replace (round_mant mx ex <? 2 ^ prec) with true by (symmetry; lia).
Qed.


(** *** Rounding a mantissa and an exponent *)

Lemma shl_align_spec mx ex ex' :
  snd (shl_align mx ex ex') = Z.min ex ex' /\
  Zpos (fst (shl_align mx ex ex')) = Zpos mx * 2 ^ (ex - Z.min ex ex').
Proof.
  unfold shl_align. destruct (ex' - ex) as [|d|d] eqn:E; simpl fst; simpl snd.
  - replace (Z.min ex ex') with ex by lia.
    rewrite Z.sub_diag. change (2 ^ 0) with 1. lia.
  - replace (Z.min ex ex') with ex by lia.
    rewrite Z.sub_diag. change (2 ^ 0) with 1. lia.
  - replace (Z.min ex ex') with ex' by lia. split; [reflexivity|].
    change (Pos.iter xO mx d) with (shift_pos d mx).
    rewrite shift_pos_correct, Z.pow_pos_fold.
    replace (ex - ex') with (Z.pos d) by lia. lia.
Qed.

(** [binary_round] first aligns, then rounds. *)
Lemma binary_round_unfold sx mx ex :
  let f := fexp (Zdigits2 (Zpos mx) + ex) in
  binary_round prec emax sx mx ex =
    binary_round_aux prec emax sx
      (Zpos mx * 2 ^ (ex - Z.min ex f)) (Z.min ex f) loc_Exact.
Proof.
  intros f. unfold binary_round.
  change (Z.pos (digits2_pos mx)) with (Zdigits2 (Zpos mx)). fold f.
  destruct (shl_align_spec mx ex f) as [He Hm].
  destruct (shl_align mx ex f) as [mz ez]. simpl in He, Hm.
  now rewrite He, Hm.
Qed.

(** A number that fits the format is not changed. *)
Lemma binary_round_exact sx mx ex :
  let f := fexp (Zdigits2 (Zpos mx) + ex) in
  f <= ex -> f <= emax - prec ->
  binary_round prec emax sx mx ex =
    S754_finite sx (Z.to_pos (Zpos mx * 2 ^ (ex - f))) f.
Proof.
  intros f Hf Hmax. rewrite binary_round_unfold. fold f.
  replace (Z.min ex f) with f by lia.
  assert (Hp : 0 < 2 ^ (ex - f)) by (apply Z.pow_pos_nonneg; lia).
  set (mz := Z.pos mx * 2 ^ (ex - f)).
  assert (Hmz : 0 < mz) by (unfold mz; lia).
  assert (He1 : round_exp mz f = f).
  { unfold Round.round_exp, mz. rewrite Zdigits2_mul_pow2 by lia.
    replace (Zdigits2 (Z.pos mx) + (ex - f) + f) with (Zdigits2 (Zpos mx) + ex) by lia.
    fold f. lia. }
  rewrite round_aux_exact; rewrite ?He1, ?Z.sub_diag; try lia.
  - unfold Round.round_mant. rewrite He1, Z.sub_diag. change (2 ^ 0) with 1.
    rewrite Z.div_1_r. unfold pack. destruct mz as [|p|p]; try lia.
    now replace (f <=? emax - prec) with true by (symmetry; lia).
  - change (2 ^ 0) with 1. apply Z.mod_1_r.
Qed.

(** The value rounded by [binary_round] lies on a coarser grid than the
    exponent given: no alignment takes place. *)
Lemma binary_round_coarse sx mx ex :
  ex <= fexp (Zdigits2 (Zpos mx) + ex) ->
  binary_round prec emax sx mx ex =
    binary_round_aux prec emax sx (Zpos mx) ex loc_Exact.
Proof.
  intros Hf. rewrite binary_round_unfold.
  replace (Z.min ex (fexp (Zdigits2 (Z.pos mx) + ex))) with ex by lia.
  rewrite Z.sub_diag. change (2 ^ 0) with 1. now rewrite Z.mul_1_r.
Qed.

(** *** Products and quotients *)

Lemma SFmul_finite sx mx ex sy my ey :
  SFmul prec emax (S754_finite sx mx ex) (S754_finite sy my ey) =
    binary_round_aux prec emax (xorb sx sy) (Zpos mx * Zpos my) (ex + ey) loc_Exact.
Proof. reflexivity. Qed.

Lemma new_location_exact n k : new_location n k = loc_Exact <-> k = 0.
Proof.
  unfold new_location, new_location_even, new_location_odd.
  destruct (Z.even n); destruct (Z.eqb_spec k 0); split; congruence.
Qed.

(** The quotient handed to the rounding step by [SFdiv]. *)
Lemma SFdiv_core_spec (m1 m2 : positive) e1 e2 :
  let e' := Z.min (fexp (Zdigits2 (Zpos m1) + e1 - (Zdigits2 (Zpos m2) + e2)))
                  (e1 - e2) in
  let s := e1 - e2 - e' in
  SFdiv_core_binary prec emax (Zpos m1) e1 (Zpos m2) e2 =
    (Zpos m1 * 2 ^ s / Zpos m2, e',
     new_location (Zpos m2) ((Zpos m1 * 2 ^ s) mod Zpos m2)).
Proof.
  intros e' s. unfold SFdiv_core_binary. fold e'. fold s.
  assert (Hs : 0 <= s) by (unfold s, e'; lia).
  assert (Hm : match s with
               | Z.pos _ => Z.shiftl (Z.pos m1) s
               | 0 => Z.pos m1
               | Z.neg _ => 0
               end = Zpos m1 * 2 ^ s).
  { destruct s as [|p|p]; [|apply Z.shiftl_mul_pow2|]; lia. }
  rewrite Hm. unfold Z.div, Z.modulo.
  now destruct (Z.div_eucl (Z.pos m1 * 2 ^ s) (Z.pos m2)) as [q r].
Qed.

Lemma SFdiv_finite sx mx ex sy my ey :
  let e' := Z.min (fexp (Zdigits2 (Zpos mx) + ex - (Zdigits2 (Zpos my) + ey)))
                  (ex - ey) in
  let s := ex - ey - e' in
  SFdiv prec emax (S754_finite sx mx ex) (S754_finite sy my ey) =
    binary_round_aux prec emax (xorb sx sy) (Zpos mx * 2 ^ s / Zpos my) e'
      (new_location (Zpos my) ((Zpos mx * 2 ^ s) mod Zpos my)).
Proof.
  intros e' s. unfold SFdiv.
  pose proof (SFdiv_core_spec mx my ex ey) as Hcore. cbv zeta in Hcore.
  fold e' in Hcore. fold s in Hcore. now rewrite Hcore.
Qed.

(** A quotient does not cross a bound on the grid of the result. *)
Lemma SFdiv_below sx mx ex sy my ey K g :
  let e' := Z.min (fexp (Zdigits2 (Zpos mx) + ex - (Zdigits2 (Zpos my) + ey)))
                  (ex - ey) in
  let s := ex - ey - e' in
  round_exp (Zpos mx * 2 ^ s / Zpos my) e' <= g -> g + 1 <= emax - prec ->
  Zpos mx * 2 ^ s <= K * 2 ^ (g - e') * Zpos my ->
  mag_le (xorb sx sy) (SFdiv prec emax (S754_finite sx mx ex) (S754_finite sy my ey)) K g.
Proof.
  intros e' s Hg Hmax Hle. rewrite SFdiv_finite. fold e'. fold s.
  assert (Hs : 0 <= s) by (unfold s, e'; lia).
  assert (Hp : 0 < 2 ^ s) by (apply Z.pow_pos_nonneg; lia).
  set (a := Zpos mx * 2 ^ s) in *.
  pose proof (Z.div_mod a (Zpos my) ltac:(lia)) as Hdm.
  pose proof (Z.mod_pos_bound a (Zpos my) ltac:(lia)) as Hr.
  apply round_aux_below; try assumption.
  - apply Z.div_pos; lia.
  - apply Z.div_le_upper_bound; lia.
  - intros Hl. rewrite new_location_exact in Hl.
    apply Z.nle_gt. intros Hge. nia.
Qed.

Lemma SFdiv_above sx mx ex sy my ey K g :
  let e' := Z.min (fexp (Zdigits2 (Zpos mx) + ex - (Zdigits2 (Zpos my) + ey)))
                  (ex - ey) in
  let s := ex - ey - e' in
  0 < K ->
  round_exp (Zpos mx * 2 ^ s / Zpos my) e' <= g ->
  round_exp (Zpos mx * 2 ^ s / Zpos my) e' + 1 <= emax - prec ->
  K * 2 ^ (g - e') * Zpos my <= Zpos mx * 2 ^ s ->
  mag_ge (xorb sx sy) (SFdiv prec emax (S754_finite sx mx ex) (S754_finite sy my ey)) K g.
Proof.
  intros e' s HK Hg Hmax Hle. rewrite SFdiv_finite. fold e'. fold s.
  assert (Hs : 0 <= s) by (unfold s, e'; lia).
  assert (Hp : 0 < 2 ^ s) by (apply Z.pow_pos_nonneg; lia).
  apply round_aux_above; try assumption.
  - apply Z.div_pos; lia.
  - apply Z.div_le_lower_bound; lia.
Qed.

(** The exponent of a rounded number is the one settled on, or the next. *)
Lemma round_aux_exponent sx mx ex lx s m e :
  0 <= mx ->
  binary_round_aux prec emax sx mx ex lx = S754_finite s m e ->
  round_exp mx ex <= e <= round_exp mx ex + 1.
Proof.
  intros Hmx.
  destruct (binary_round_aux_spec sx mx ex lx Hmx) as (m1 & _ & _ & _ & ->).
  destruct (m1 <? 2 ^ prec); unfold pack.
  - destruct m1; try discriminate.
    destruct (_ <=? _); [|discriminate]. intros [= _ _ <-]. lia.
  - destruct (2 ^ (prec - 1)); try discriminate.
    destruct (_ <=? _); [|discriminate]. intros [= _ _ <-]. lia.
Qed.

End Rounding.
End RoundFacts.

(** ** The linear paths of the resampler *)
Module ResamplerFacts.
Import Int Fp Resampler Rules IntFacts.

Section WithPlatform.
Context `{Platform}.

Lemma to_size_t_range x : 0 <= to_size_t x < 2 ^ 64.
Proof.
  unfold to_size_t. destruct (trunc x) as [z|]; [|apply usize_range].
  destruct (Z.leb_spec 0 z); destruct (Z.ltb_spec z (2 ^ 64)); simpl;
    try apply usize_range. lia.
Qed.

(** In range, the cast is the integer part. *)
Lemma to_size_t_trunc x z :
  trunc x = Some z -> 0 <= z < 2 ^ 64 -> to_size_t x = z.
Proof.
  intros Hx Hz. unfold to_size_t. rewrite Hx.
  destruct (Z.leb_spec 0 z); destruct (Z.ltb_spec z (2 ^ 64)); simpl; lia.
Qed.

Lemma index_range ratio i : 0 <= index ratio i < 2 ^ 64.
Proof. apply to_size_t_range. Qed.

(** The clamp of the upsampling loop, once the frame count is such that
    the unsigned subtractions do not wrap. *)
Lemma upsample_source_clamp r num_frames i :
  2 <= num_frames < 2 ^ 64 ->
  upsample_source r num_frames i =
    if num_frames - 1 <=? index (ratio_ r) i
    then (num_frames - 2, d_one)
    else (index (ratio_ r) i, weight (ratio_ r) i).
Proof.
  intros Hn. unfold upsample_source.
  rewrite !usub_small by lia. reflexivity.
Qed.

Lemma upsample_source_bounds r num_frames i :
  2 <= num_frames < 2 ^ 64 ->
  0 <= fst (upsample_source r num_frames i) /\
  fst (upsample_source r num_frames i) + 1 <= num_frames - 1.
Proof.
  intros Hn. rewrite upsample_source_clamp by exact Hn.
  pose proof (index_range (ratio_ r) i).
  destruct (Z.leb_spec (num_frames - 1) (index (ratio_ r) i)); simpl; lia.
Qed.

(** With a single frame the clamp wraps to the top of [size_t]. *)
Lemma upsample_source_one_frame r i :
  fst (upsample_source r 1 i) = 2 ^ 64 - 1.
Proof.
  unfold upsample_source.
  replace (usub 1 1) with 0 by reflexivity.
  pose proof (to_size_t_range (d_div (d_of_Z i) (ratio_ r))).
  destruct (Z.leb_spec 0 (to_size_t (d_div (d_of_Z i) (ratio_ r)))); [reflexivity|lia].
Qed.

(** Frame [k], channel [ch] of a block of [num_frames] frames lies in the
    block, and the [size_t] arithmetic computing its position is exact. *)
Lemma sample_index (input : list float) c num_frames k ch :
  0 < c -> num_frames = Z.of_nat (length input) / c ->
  Z.of_nat (length input) < 2 ^ 64 ->
  0 <= k < num_frames -> 0 <= ch < c ->
  uadd (umul k (usize c)) (usize ch) = k * c + ch /\
  0 <= k * c + ch < Z.of_nat (length input).
Proof.
  intros Hc Hnf Hlen Hk Hch.
  assert (Hdiv : num_frames * c <= Z.of_nat (length input)).
  { subst num_frames. rewrite Z.mul_comm. apply Z.mul_div_le. exact Hc. }
  pose proof (interleaved_bound c num_frames k ch Hch Hk) as Hb.
  assert (Hcs : c < 2 ^ 64) by nia.
  rewrite (usize_small c), (usize_small ch) by lia.
  rewrite umul_small by nia. rewrite uadd_small by lia. lia.
Qed.

Lemma load_sample (input : list float) c num_frames k ch :
  0 < c -> num_frames = Z.of_nat (length input) / c ->
  Z.of_nat (length input) < 2 ^ 64 ->
  0 <= k < num_frames -> 0 <= ch < c ->
  exists x,
    load input (uadd (umul k (usize c)) (usize ch)) = Some x /\
    input !! Z.to_nat (k * c + ch) = Some x.
Proof.
  intros Hc Hnf Hlen Hk Hch.
  destruct (sample_index input c num_frames k ch Hc Hnf Hlen Hk Hch) as [-> Hin].
  destruct (load_in_range input _ Hin) as [x Hx].
  exists x. split; [exact Hx|]. now apply load_Some in Hx.
Qed.

Lemma store_sample (output : list float) c n i ch x :
  0 < c -> n * c < 2 ^ 64 -> Z.of_nat (length output) = n * c ->
  0 <= i < n -> 0 <= ch < c ->
  store output (uadd (umul i (usize c)) (usize ch)) x =
    Some (<[Z.to_nat (i * c + ch) := x]> output).
Proof.
  intros Hc Hn Hlen Hi Hch.
  pose proof (interleaved_bound c n i ch Hch Hi) as Hb.
  assert (Hcs : c < 2 ^ 64) by nia.
  rewrite (usize_small c), (usize_small ch) by lia.
  rewrite umul_small by nia. rewrite uadd_small by lia.
  apply store_in_range. lia.
Qed.

(** One round of the upsampling loop assigns the slot of frame [i],
    channel [ch] the value of the rule. *)
Lemma upsample_body_assigns r (input : list float) num_frames n ch i output :
  let c := channels (config_ r) in
  0 < c -> num_frames = Z.of_nat (length input) / c ->
  Z.of_nat (length input) < 2 ^ 64 -> 2 <= num_frames ->
  n * c < 2 ^ 64 -> Z.of_nat (length output) = n * c ->
  0 <= ch < c -> 0 <= i < n ->
  exists x,
    upsample_rule (ratio_ r) input c num_frames ch i = Some x /\
    upsample_body r input num_frames ch i output =
      Some (<[Z.to_nat (i * c + ch) := x]> output).
Proof.
  intros c Hc Hnf Hlen H2 Hn Hout Hch Hi.
  assert (Hnf64 : num_frames < 2 ^ 64).
  { subst num_frames. apply Z.le_lt_trans with (Z.of_nat (length input)); [|exact Hlen].
    apply Z.div_le_upper_bound; [exact Hc|]. nia. }
  unfold upsample_body, upsample_rule. fold c.
  pose proof (upsample_source_bounds r num_frames i (conj H2 Hnf64)) as Hb.
  rewrite upsample_source_clamp in * by lia.
  destruct (if num_frames - 1 <=? index (ratio_ r) i
            then (num_frames - 2, d_one)
            else (index (ratio_ r) i, weight (ratio_ r) i)) as [idx frac].
  simpl in Hb.
  destruct (load_sample input c num_frames idx ch Hc Hnf Hlen) as (a & Ha & Ha');
    [lia|exact Hch|].
  destruct (load_sample input c num_frames (idx + 1) ch Hc Hnf Hlen) as (b & Hb1 & Hb');
    [lia|exact Hch|].
  rewrite (uadd_small idx 1) by lia.
  rewrite Ha, Hb1, Ha', Hb'. simpl.
  exists (interpolate a b frac). split; [reflexivity|].
  now apply store_sample with (n := n).
Qed.


(** The frame count of a block that holds at least one frame fits
    [size_t], and so does the channel count. *)
Lemma frames_fit (input : list float) c :
  0 < c -> Z.of_nat (length input) < 2 ^ 64 ->
  1 <= Z.of_nat (length input) / c ->
  usize c = c /\ c <> 0.
Proof.
  intros Hc Hlen H1.
  assert (c <= Z.of_nat (length input)).
  { pose proof (Z.mul_div_le (Z.of_nat (length input)) c Hc). nia. }
  split; [apply usize_small|]; lia.
Qed.

(** The upsampling path on a block of at least two frames: the call is
    defined, the output has [output_frames] frames, and every slot holds
    the value of the rule. *)
Lemma linearUpsample_run r (input : list float) :
  let c := channels (config_ r) in
  let num_frames := Z.of_nat (length input) / c in
  let output_frames := output_frames_of r num_frames in
  0 < c -> Z.of_nat (length input) < 2 ^ 64 -> 2 <= num_frames ->
  output_frames * c < 2 ^ 64 ->
  exists output,
    linearUpsample r input (Z.of_nat (length input)) = Some output /\
    Z.of_nat (length output) = output_frames * c /\
    forall ch i, 0 <= ch < c -> 0 <= i < output_frames ->
      is_Some (output !! Z.to_nat (i * c + ch)) /\
      output !! Z.to_nat (i * c + ch) =
        upsample_rule (ratio_ r) input c num_frames ch i.
Proof.
  intros c num_frames output_frames Hc Hlen H2 Hn.
  destruct (frames_fit input c Hc Hlen) as [Hu Hc0]; [fold num_frames; lia|].
  pose proof (to_size_t_range (d_ceil (d_mul (d_of_Z num_frames) (ratio_ r)))) as Hof.
  fold (output_frames_of r num_frames) in Hof. fold output_frames in Hof.
  unfold linearUpsample. fold c. rewrite Hu. fold num_frames. fold output_frames.
  rewrite umul_small by lia.
  replace (c =? 0) with false by (symmetry; lia).
  destruct (fill_all c output_frames
              (fun ch i => default f_zero (upsample_rule (ratio_ r) input c num_frames ch i))
              (upsample_body r input num_frames) Hc (proj1 Hof))
    with (out0 := replicate (Z.to_nat (output_frames * c)) f_zero)
    as (output & Hrun & Hlenout & Hall).
  - intros ch i out Hch Hi Hout.
    destruct (upsample_body_assigns r input num_frames output_frames ch i out)
      as (x & Hx & Hbody); try assumption; try reflexivity.
    fold c in Hx, Hbody. rewrite Hx. exact Hbody.
  - rewrite length_replicate. nia.
  - exists output. split; [exact Hrun|]. split; [exact Hlenout|].
    intros ch i Hch Hi. rewrite (Hall ch i Hch Hi).
    destruct (upsample_body_assigns r input num_frames output_frames ch i output)
      as (x & Hx & _); try assumption; try reflexivity.
    fold c in Hx. rewrite Hx. split; [eexists|]; reflexivity.
Qed.


End WithPlatform.
End ResamplerFacts.

(** ** The chunk accumulator *)
Module CaptureFacts.
Import Int Fp Format Capture IntFacts.

Section WithPlatform.
Context `{Platform}.

Lemma length_int16_bytes v : length (int16_bytes v) = 2%nat.
Proof. reflexivity. Qed.

Lemma length_pcm16 (data : list float) : length (pcm16 data) = (2 * length data)%nat.
Proof.
  unfold pcm16. induction data as [|x data IH]; [reflexivity|].
  rewrite fmap_cons. change (length (int16_bytes (floatToInt16 x)
    ++ mjoin ((fun x => int16_bytes (floatToInt16 x)) <$> data)) = (2 * length (x :: data))%nat).
  rewrite length_app, IH. simpl. lia.
Qed.

Lemma pcm16_snoc (data : list float) x :
  pcm16 (data ++ [x]) = pcm16 data ++ int16_bytes (floatToInt16 x).
Proof.
  unfold pcm16. rewrite fmap_app, join_app. f_equal.
Qed.

Lemma resize_grow (v : list byte) (k : nat) :
  resize (Z.of_nat (length v + k)) v = v ++ replicate k 0.
Proof.
  unfold resize. rewrite Nat2Z.id. rewrite take_ge by lia.
  f_equal. f_equal. lia.
Qed.

(** What the conversion loop has written when it stands at sample [i]. *)
Lemma convert_step (data : list float) (old : list byte) (samples i : Z) buf :
  0 <= i < samples -> samples <= Z.of_nat (length data) ->
  buf = old ++ pcm16 (take (Z.to_nat i) data)
            ++ replicate (Z.to_nat (2 * (samples - i))) 0 ->
  exists buf',
    convert_body data (Z.of_nat (length old)) i buf = Some buf' /\
    buf' = old ++ pcm16 (take (Z.to_nat (i + 1)) data)
               ++ replicate (Z.to_nat (2 * (samples - (i + 1)))) 0.
Proof.
  intros Hi Hlen ->. unfold convert_body.
  destruct (load_in_range data i) as [x Hx]; [lia|].
  rewrite Hx. simpl. apply load_Some in Hx as [_ Hx].
  set (done := pcm16 (take (Z.to_nat i) data)).
  assert (Hdone : length done = (2 * Z.to_nat i)%nat).
  { unfold done. rewrite length_pcm16, length_take. lia. }
  replace (Z.to_nat (2 * (samples - i)))
    with (S (S (Z.to_nat (2 * (samples - (i + 1)))))) by lia.
  set (rest := replicate (Z.to_nat (2 * (samples - (i + 1)))) 0).
  simpl replicate. fold rest.
  set (lo := floatToInt16 x `mod` 256).
  set (hi := (floatToInt16 x / 256) `mod` 256).
  rewrite store_in_range by (rewrite !length_app; simpl length; lia).
  simpl.
  rewrite store_in_range
    by (rewrite length_insert, !length_app; simpl length; lia).
  eexists. split; [reflexivity|].
  rewrite !app_assoc.
  rewrite insert_app_r_alt by (rewrite length_app; lia).
  replace (Z.to_nat (Z.of_nat (length old) + 2 * i) - length (old ++ done))%nat
    with 0%nat by (rewrite length_app; lia).
  simpl.
  rewrite insert_app_r_alt by (rewrite length_app; lia).
  replace (Z.to_nat (Z.of_nat (length old) + 2 * i + 1) - length (old ++ done))%nat
    with 1%nat by (rewrite length_app; lia).
  simpl.
  replace (Z.to_nat (i + 1)) with (S (Z.to_nat i)) by lia.
  rewrite (take_S_r data (Z.to_nat i) x Hx), pcm16_snoc.
  fold done. rewrite <- !app_assoc. reflexivity.
Qed.

(** The conversion loop appends the PCM16 bytes of the block. *)
Lemma convert_loop (data : list float) (old : list byte) (samples : Z) :
  0 <= samples <= Z.of_nat (length data) ->
  for_range 0 samples (convert_body data (Z.of_nat (length old)))
    (resize (Z.of_nat (length old) + 2 * samples) old)
  = Some (old ++ pcm16 (take (Z.to_nat samples) data)).
Proof.
  intros Hs.
  destruct (for_range_invariant
              (fun i buf => buf = old ++ pcm16 (take (Z.to_nat i) data)
                                ++ replicate (Z.to_nat (2 * (samples - i))) 0)
              (convert_body data (Z.of_nat (length old))) 0 samples
              (resize (Z.of_nat (length old) + 2 * samples) old))
    as (buf & Hrun & Hbuf).
  - lia.
  - replace (Z.of_nat (length old) + 2 * samples)
      with (Z.of_nat (length old + Z.to_nat (2 * samples))) by lia.
    rewrite resize_grow. simpl. now rewrite Z.sub_0_r.
  - intros i buf Hi Hinv. apply (convert_step data old samples i buf); [lia..|exact Hinv].
  - rewrite Hrun, Hbuf. rewrite Z.sub_diag. simpl. now rewrite app_nil_r.
Qed.

Lemma length_join_chunks (chunks : list (list byte)) (n : nat) :
  Forall (fun chunk => length chunk = n) chunks ->
  length (mjoin chunks) = (n * length chunks)%nat.
Proof.
  induction 1 as [|chunk chunks Hc _ IH]; simpl; [lia|].
  rewrite length_app, IH, Hc. lia.
Qed.

(** The delivery loop: with a positive chunk size, fuel beyond the number
    of complete chunks is enough; the chunks are the buffer cut from the
    front, every one of the full size, and what stays is shorter. *)
Lemma deliver_spec (cs : Z) :
  0 < cs < 2 ^ 64 ->
  forall fuel (buf : list byte),
    Z.of_nat (length buf) / cs < Z.of_nat fuel ->
    exists rest chunks,
      deliver fuel cs buf = Some (rest, chunks) /\
      mjoin chunks ++ rest = buf /\
      Forall (fun chunk => Z.of_nat (length chunk) = cs) chunks /\
      Z.of_nat (length rest) < cs.
Proof.
  intros Hcs. induction fuel as [|fuel IH]; intros buf Hfuel.
  - pose proof (Z.div_pos (Z.of_nat (length buf)) cs). lia.
  - simpl deliver. rewrite usize_small by lia.
    destruct (Z.leb_spec cs (Z.of_nat (length buf))) as [Hge|Hlt].
    + destruct (IH (drop (Z.to_nat cs) buf)) as (rest & chunks & -> & Hjoin & Hall & Hrest).
      { rewrite length_drop.
        replace (Z.of_nat (length buf - Z.to_nat cs))
          with (Z.of_nat (length buf) + (-1) * cs) by lia.
        rewrite Z.div_add by lia. lia. }
      exists rest, (take (Z.to_nat cs) buf :: chunks). split; [reflexivity|].
      split; [|split; [|exact Hrest]].
      * simpl. rewrite <- app_assoc, Hjoin. apply take_drop.
      * constructor; [|exact Hall]. rewrite length_take. lia.
    + exists buf, []. repeat split; [constructor|exact Hlt].
Qed.

(** How many chunks a buffer yields and how much stays. *)
Lemma chunk_count (cs : Z) (buf rest : list byte) (chunks : list (list byte)) :
  0 < cs ->
  mjoin chunks ++ rest = buf ->
  Forall (fun chunk => Z.of_nat (length chunk) = cs) chunks ->
  Z.of_nat (length rest) < cs ->
  Z.of_nat (length chunks) = Z.of_nat (length buf) / cs /\
  Z.of_nat (length rest) = Z.of_nat (length buf) mod cs.
Proof.
  intros Hcs <- Hall Hrest.
  assert (Hlen : length (mjoin chunks) = (Z.to_nat cs * length chunks)%nat).
  { apply length_join_chunks. eapply Forall_impl; [exact Hall|].
    simpl. intros chunk Hc. lia. }
  rewrite length_app, Hlen.
  replace (Z.of_nat (Z.to_nat cs * length chunks + length rest))
    with (Z.of_nat (length rest) + Z.of_nat (length chunks) * cs) by lia.
  rewrite Z.div_add, Z.mod_add by lia.
  rewrite Z.div_small, Z.mod_small by lia. lia.
Qed.

(** One delivery with a registered consumer and a positive chunk size. *)
Lemma onAudioData_delivers fuel s (data : list float) frames ch :
  user_callback s = true ->
  0 < chunk_size s <= INT_MAX ->
  0 <= frames -> 0 <= ch <= INT_MAX -> frames * ch <= Z.of_nat (length data) ->
  Z.of_nat (length (buffer s)) + 2 * (frames * ch) < 2 ^ 64 ->
  (Z.of_nat (length (buffer s)) + 2 * (frames * ch)) / chunk_size s < Z.of_nat fuel ->
  exists rest chunks,
    onAudioData fuel s data frames ch = Some (with_buffer s rest, chunks) /\
    mjoin chunks ++ rest = buffer s ++ pcm16 (take (Z.to_nat (frames * ch)) data) /\
    Forall (fun chunk => Z.of_nat (length chunk) = chunk_size s) chunks /\
    Z.of_nat (length rest) < chunk_size s.
Proof.
  intros Hcb Hcs Hfr Hch Hdata Hfit Hfuel.
  assert (Hsamples : 0 <= frames * ch) by nia.
  assert (Hch64 : ch < 2 ^ 64) by (unfold INT_MAX in Hch; lia).
  unfold onAudioData. rewrite Hcb. simpl negb. cbv iota.
  rewrite (usize_small ch) by lia.
  rewrite umul_small by lia. rewrite umul_small by lia.
  rewrite uadd_small by lia.
  replace (frames * ch * 2) with (2 * (frames * ch)) by lia.
  rewrite convert_loop by lia. simpl.
  set (filled := buffer s ++ pcm16 (take (Z.to_nat (frames * ch)) data)).
  assert (Hlen : Z.of_nat (length filled)
                 = Z.of_nat (length (buffer s)) + 2 * (frames * ch)).
  { unfold filled. rewrite length_app, length_pcm16, length_take. lia. }
  destruct (deliver_spec (chunk_size s)) with (fuel := fuel) (buf := filled)
    as (rest & chunks & Hrun & Hjoin & Hall & Hrest).
  - unfold INT_MAX in Hcs. lia.
  - now rewrite Hlen.
  - rewrite Hrun. simpl. exists rest, chunks. repeat split; assumption.
Qed.

Lemma pcm16_app (a b : list float) : pcm16 (a ++ b) = pcm16 a ++ pcm16 b.
Proof. unfold pcm16. now rewrite fmap_app, join_app. Qed.

(** The first scenario of the specification, for any two blocks of 2400
    and 800 mono samples (4800 and 1600 bytes). *)
Lemma scenario_two_chunks fuel s0 (data1 data2 : list float) :
  user_callback s0 = true -> chunk_size s0 = 3200 -> buffer s0 = [] ->
  length data1 = 2400%nat -> length data2 = 800%nat -> (2 <= fuel)%nat ->
  exists s1 s2 chunk1 chunk2,
    onAudioData fuel s0 data1 2400 1 = Some (s1, [chunk1]) /\
    onAudioData fuel s1 data2 800 1 = Some (s2, [chunk2]) /\
    length chunk1 = 3200%nat /\ length chunk2 = 3200%nat /\
    buffer s2 = [] /\
    chunk1 ++ chunk2 = pcm16 (data1 ++ data2).
Proof.
  intros Hcb Hcs Hbuf Hd1 Hd2 Hfuel.
  destruct (onAudioData_delivers fuel s0 data1 2400 1)
    as (rest1 & chunks1 & Hrun1 & Hjoin1 & Hall1 & Hrest1);
    rewrite ?Hcs, ?Hbuf, ?Hd1; unfold INT_MAX; simpl; try lia; try assumption.
  { replace ((Z.of_nat 0 + 2 * (2400 * 1)) / 3200) with 1 by reflexivity. lia. }
  rewrite Hcs, Hbuf in *. simpl in Hjoin1.
  change (Z.to_nat (2400 * 1)) with 2400%nat in Hjoin1.
  rewrite take_ge in Hjoin1 by lia.
  destruct (chunk_count 3200 _ rest1 chunks1 ltac:(lia) Hjoin1 Hall1 Hrest1)
    as [Hn1 Hr1].
  rewrite length_pcm16, Hd1 in Hn1, Hr1.
  change (Z.of_nat (2 * 2400) / 3200) with 1 in Hn1.
  change (Z.of_nat (2 * 2400) mod 3200) with 1600 in Hr1.
  destruct chunks1 as [|chunk1 [|? ?]]; simpl in Hn1; try lia.
  set (s1 := with_buffer s0 rest1) in *.
  destruct (onAudioData_delivers fuel s1 data2 800 1)
    as (rest2 & chunks2 & Hrun2 & Hjoin2 & Hall2 & Hrest2);
    unfold s1; simpl; rewrite ?Hcs, ?Hd2; unfold INT_MAX; try lia; try assumption.
  { rewrite Hr1. change ((1600 + 2 * (800 * 1)) / 3200) with 1. lia. }
  simpl in Hjoin2, Hall2, Hrest2. rewrite Hcs in Hall2, Hrest2.
  change (Z.to_nat (800 * 1)) with 800%nat in Hjoin2.
  rewrite take_ge in Hjoin2 by lia.
  destruct (chunk_count 3200 _ rest2 chunks2 ltac:(lia) Hjoin2 Hall2 Hrest2)
    as [Hn2 Hr2].
  rewrite length_app, length_pcm16, Hd2 in Hn2, Hr2.
  replace (Z.of_nat (length rest1 + 2 * 800)) with 3200 in Hn2, Hr2 by lia.
  change (3200 / 3200) with 1 in Hn2. change (3200 mod 3200) with 0 in Hr2.
  destruct chunks2 as [|chunk2 [|? ?]]; simpl in Hn2; try lia.
  destruct rest2; simpl in Hr2; [|lia].
  exists s1, (with_buffer s1 []), chunk1, chunk2.
  split; [exact Hrun1|]. split; [exact Hrun2|].
  apply Forall_cons in Hall1 as [Hc1 _]. apply Forall_cons in Hall2 as [Hc2 _].
  split; [lia|]. split; [lia|]. split; [reflexivity|].
  simpl in Hjoin1, Hjoin2. rewrite !app_nil_r in *.
  rewrite pcm16_app, <- Hjoin1, <- app_assoc. f_equal. exact Hjoin2.
Qed.

(** The second scenario: one block of 50 mono samples (100 bytes). *)
Lemma scenario_no_chunk fuel s0 (data : list float) :
  user_callback s0 = true -> chunk_size s0 = 3200 -> buffer s0 = [] ->
  length data = 50%nat -> (1 <= fuel)%nat ->
  exists s1,
    onAudioData fuel s0 data 50 1 = Some (s1, []) /\
    buffer s1 = pcm16 data /\ length (buffer s1) = 100%nat.
Proof.
  intros Hcb Hcs Hbuf Hd Hfuel.
  destruct (onAudioData_delivers fuel s0 data 50 1)
    as (rest & chunks & Hrun & Hjoin & Hall & Hrest);
    rewrite ?Hcs, ?Hbuf, ?Hd; unfold INT_MAX; simpl; try lia; try assumption.
  { replace ((Z.of_nat 0 + 2 * (50 * 1)) / 3200) with 0 by reflexivity. lia. }
  rewrite Hcs, Hbuf in *. simpl in Hjoin.
  change (Z.to_nat (50 * 1)) with 50%nat in Hjoin.
  rewrite take_ge in Hjoin by lia.
  destruct (chunk_count 3200 _ rest chunks ltac:(lia) Hjoin Hall Hrest) as [Hn Hr].
  rewrite length_pcm16, Hd in Hn, Hr.
  change (Z.of_nat (2 * 50) / 3200) with 0 in Hn.
  destruct chunks; simpl in Hn; [|lia].
  simpl in Hjoin. subst rest.
  exists (with_buffer s0 (pcm16 data)). split; [exact Hrun|].
  split; [reflexivity|]. simpl. rewrite length_pcm16, Hd. reflexivity.
Qed.





(** [Start] does not look at what is buffered. *)
Lemma Start_forgets_buffer g open_ok start_ok s b sr ch cs :
  Start g open_ok start_ok (with_buffer s b) sr ch cs =
  Start g open_ok start_ok s sr ch cs.
Proof. reflexivity. Qed.

Lemma Stop_with_buffer stop_ok s b :
  Stop stop_ok (with_buffer s b) = with_buffer (Stop stop_ok s) b.
Proof. reflexivity. Qed.



(** With chunks of no bytes the delivery loop never ends. *)
Lemma deliver_zero fuel (buf : list byte) : deliver fuel 0 buf = None.
Proof.
  induction fuel as [|fuel IH]; [reflexivity|]. simpl.
  change (usize 0) with 0.
  destruct (Z.leb_spec 0 (Z.of_nat (length buf))); [|lia].
  change (Z.to_nat 0) with 0%nat. rewrite drop_0, IH. reflexivity.
Qed.

Lemma onAudioData_zero_chunk fuel s (data : list float) frames ch :
  user_callback s = true -> chunk_size s = 0 ->
  onAudioData fuel s data frames ch = None.
Proof.
  intros Hcb Hcs. unfold onAudioData. rewrite Hcb, Hcs. simpl negb. cbv iota.
  destruct (for_range _ _ _ _) as [filled|]; [|reflexivity].
  simpl. now rewrite deliver_zero.
Qed.

End WithPlatform.
End CaptureFacts.

(** ** The two formats *)
Module FpFacts.
Import Int Fp Round RoundFacts IntFacts.

(** Integers that fit the mantissa convert exactly. *)
Lemma of_Z_exact prec emax (sx : bool) (p : positive) :
  0 < prec -> 2 <= emax -> prec <= emax -> Zpos p < 2 ^ prec ->
  binary_round prec emax sx p 0 =
    S754_finite sx (Z.to_pos (Zpos p * 2 ^ (prec - Zdigits2 (Zpos p))))
      (Zdigits2 (Zpos p) - prec).
Proof.
  intros Hprec Hemax Hpe Hp.
  assert (Hd : 0 < Zdigits2 (Zpos p) <= prec).
  { split; [apply Zdigits2_pos; lia|apply Zdigits2_le; lia]. }
  assert (Hf : fexp prec emax (Zdigits2 (Zpos p) + 0) = Zdigits2 (Zpos p) - prec).
  { unfold fexp, emin. lia. }
  rewrite binary_round_exact by (try exact Hprec; rewrite Hf; lia).
  rewrite Hf.
  now replace (0 - (Zdigits2 (Z.pos p) - prec)) with (prec - Zdigits2 (Z.pos p)) by lia.
Qed.

Lemma d_of_Z_exact z :
  0 < z < 2 ^ 53 ->
  d_of_Z z = S754_finite false (Z.to_pos (z * 2 ^ (53 - Zdigits2 z))) (Zdigits2 z - 53).
Proof.
  intros Hz. destruct z as [|p|p]; try lia.
  unfold d_of_Z, binary_normalize. apply of_Z_exact; lia.
Qed.

Lemma f_of_Z_exact z :
  0 < z < 2 ^ 24 ->
  f_of_Z z = S754_finite false (Z.to_pos (z * 2 ^ (24 - Zdigits2 z))) (Zdigits2 z - 24).
Proof.
  intros Hz. destruct z as [|p|p]; try lia.
  unfold f_of_Z, binary_normalize. apply of_Z_exact; lia.
Qed.

Lemma f_of_Z_exact_neg z :
  0 < z < 2 ^ 24 ->
  f_of_Z (- z) = S754_finite true (Z.to_pos (z * 2 ^ (24 - Zdigits2 z))) (Zdigits2 z - 24).
Proof.
  intros Hz. destruct z as [|p|p]; try lia.
  unfold f_of_Z, binary_normalize. simpl Z.opp. apply of_Z_exact; lia.
Qed.

(** The integer part of a number between two integers. *)
Lemma trunc_between (m : positive) e (lo hi : Z) :
  scaled_le lo 0 (Zpos m) e -> scaled_le (Zpos m) e hi 0 ->
  lo <= Z.shiftl (Zpos m) e <= hi.
Proof.
  intros Hlo Hhi.
  destruct (Z.le_gt_cases 0 e) as [He|He].
  - apply (scaled_le_at 0) in Hlo; [|lia..]. apply (scaled_le_at 0) in Hhi; [|lia..].
    rewrite Z.sub_diag, Z.sub_0_r in Hlo, Hhi. change (2 ^ 0) with 1 in Hlo, Hhi.
    rewrite Z.shiftl_mul_pow2 by lia. lia.
  - apply (scaled_le_at e) in Hlo; [|lia..]. apply (scaled_le_at e) in Hhi; [|lia..].
    rewrite Z.sub_diag in Hlo, Hhi. change (2 ^ 0) with 1 in Hlo, Hhi.
    rewrite <- Z.shiftr_opp_r, Z.shiftr_div_pow2 by lia.
    replace (0 - e) with (- e) in Hlo, Hhi by lia.
    assert (0 < 2 ^ (- e)) by (apply Z.pow_pos_nonneg; lia).
    split.
    + apply Z.div_le_lower_bound; lia.
    + apply Z.div_le_upper_bound; lia.
Qed.

(** The least integer above a positive number between two integers. *)
Lemma ceilZ_between (m : positive) e (lo hi : Z) :
  scaled_le lo 0 (Zpos m) e -> scaled_le (Zpos m) e hi 0 ->
  lo <= ceilZ false m e <= hi /\ 0 < ceilZ false m e.
Proof.
  intros Hlo Hhi. unfold ceilZ. simpl cond_Zopp.
  destruct (Z.le_gt_cases 0 e) as [He|He].
  - apply (scaled_le_at 0) in Hlo; [|lia..]. apply (scaled_le_at 0) in Hhi; [|lia..].
    rewrite Z.sub_diag, Z.sub_0_r in Hlo, Hhi. change (2 ^ 0) with 1 in Hlo, Hhi.
    rewrite Z.shiftl_mul_pow2 by lia.
    assert (0 < 2 ^ e) by (apply Z.pow_pos_nonneg; lia). nia.
  - apply (scaled_le_at e) in Hlo; [|lia..]. apply (scaled_le_at e) in Hhi; [|lia..].
    rewrite Z.sub_diag in Hlo, Hhi. change (2 ^ 0) with 1 in Hlo, Hhi.
    replace (0 - e) with (- e) in Hlo, Hhi by lia.
    rewrite <- Z.shiftr_opp_r, Z.shiftr_div_pow2 by lia.
    assert (HD : 0 < 2 ^ (- e)) by (apply Z.pow_pos_nonneg; lia).
    set (D := 2 ^ (- e)) in *.
    assert (Hq : - Z.pos m / D * D <= - Z.pos m < (- Z.pos m / D + 1) * D).
    { pose proof (Z.mul_div_le (- Z.pos m) D HD).
      pose proof (Z.mul_succ_div_gt (- Z.pos m) D HD). lia. }
    nia.
Qed.

(** The integer part of a number strictly below an integer. *)
Lemma trunc_below (m : positive) e (K g T : Z) :
  scaled_le (Zpos m) e K g -> g <= 0 -> K < T * 2 ^ (- g) ->
  Z.shiftl (Zpos m) e <= T - 1.
Proof.
  intros Hle Hg Hlt.
  assert (HG : 0 < 2 ^ (- g)) by (apply Z.pow_pos_nonneg; lia).
  destruct (Z.le_gt_cases 0 e) as [He|He].
  - apply (scaled_le_at g) in Hle; [|lia..].
    rewrite Z.sub_diag in Hle. change (2 ^ 0) with 1 in Hle.
    rewrite Z.shiftl_mul_pow2 by lia.
    replace (e - g) with (e + - g) in Hle by lia.
    rewrite Z.pow_add_r in Hle by lia.
    assert (0 < 2 ^ e) by (apply Z.pow_pos_nonneg; lia). nia.
  - rewrite <- Z.shiftr_opp_r, Z.shiftr_div_pow2 by lia.
    assert (HE : 0 < 2 ^ (- e)) by (apply Z.pow_pos_nonneg; lia).
    assert (Z.pos m / 2 ^ (- e) < T); [|lia].
    apply Z.div_lt_upper_bound; [exact HE|].
    set (lo := Z.min e g).
    unfold scaled_le in Hle. fold lo in Hle.
    assert (HL : 0 < 2 ^ (e - lo)) by (apply Z.pow_pos_nonneg; unfold lo; lia).
    assert (H1 : 2 ^ (- lo) = 2 ^ (- e) * 2 ^ (e - lo)).
    { rewrite <- Z.pow_add_r by (unfold lo; lia). f_equal. lia. }
    assert (H2 : 2 ^ (- lo) = 2 ^ (- g) * 2 ^ (g - lo)).
    { rewrite <- Z.pow_add_r by (unfold lo; lia). f_equal. lia. }
    assert (HGl : 0 < 2 ^ (g - lo)) by (apply Z.pow_pos_nonneg; unfold lo; lia).
    assert (Z.pos m * 2 ^ (e - lo) < T * 2 ^ (- lo)) by (rewrite H2; nia).
    rewrite H1 in H. nia.
Qed.

(** *** Single precision: the PCM16 conversions *)

Lemma f_one_eq : f_one = S754_finite false 8388608 (-23).
Proof. reflexivity. Qed.

Lemma f_32767_eq : f_of_Z 32767 = S754_finite false 16776704 (-9).
Proof. reflexivity. Qed.

Lemma f_32768_eq : f_of_Z 32768 = S754_finite false 8388608 (-8).
Proof. reflexivity. Qed.

(** A valid single has at most 24 digits. *)
Lemma f_valid_digits s m e :
  f_valid (S754_finite s m e) = true ->
  Zpos m < 2 ^ 24 /\ -149 <= e <= 104 /\
  fexp 24 128 (Zdigits2 (Zpos m) + e) = e.
Proof.
  unfold f_valid, valid_binary, bounded, canonical_mantissa.
  intros Hv. apply andb_prop in Hv as [Hc Hb].
  apply Z.eqb_eq in Hc. apply Z.leb_le in Hb.
  change (Z.pos (digits2_pos m)) with (Zdigits2 (Zpos m)) in Hc.
  pose proof (Zdigits2_bounds (Zpos m) ltac:(lia)) as [_ Hhi].
  assert (Hd : Zdigits2 (Zpos m) <= 24) by (unfold fexp, emin in Hc; lia).
  assert (2 ^ Zdigits2 (Zpos m) <= 2 ^ 24) by (apply Z.pow_le_mono_r; lia).
  split; [lia|]. split; [|exact Hc]. unfold fexp, emin in Hc. lia.
Qed.

(** What the comparison of two mantissas says when [<] does not hold. *)
Lemma not_lt_mantissa p q :
  match Pos.compare_cont Eq p q with Lt => true | _ => false end = false ->
  Zpos q <= Zpos p.
Proof.
  rewrite Pos.compare_cont_spec.
  destruct (Pos.compare_spec p q); simpl; intros; try discriminate; lia.
Qed.

Lemma not_gt_mantissa p q :
  match CompOpp (Pos.compare_cont Eq p q) with Lt => true | _ => false end = false ->
  Zpos p <= Zpos q.
Proof.
  rewrite Pos.compare_cont_spec.
  destruct (Pos.compare_spec p q); simpl; intros; try discriminate; lia.
Qed.

(** A valid single that the clamp leaves alone has magnitude at most one. *)
Lemma unit_range s m e :
  f_valid (S754_finite s m e) = true ->
  f_ltb f_one (S754_finite s m e) = false ->
  f_ltb (S754_finite s m e) (SFopp f_one) = false ->
  e < 0 /\ Zpos m <= 2 ^ (- e).
Proof.
  intros Hv Hhi Hlo.
  destruct (f_valid_digits s m e Hv) as (Hm & He & _).
  rewrite f_one_eq in Hhi, Hlo. unfold f_ltb, SFltb, SFcompare, SFopp in Hhi, Hlo.
  simpl negb in Hlo.
  assert (Hcases : e < -23 \/ (e = -23 /\ Zpos m <= 8388608)).
  { destruct s.
    - destruct (Z.compare_spec e (-23)) as [E|E|E]; [|lia|discriminate].
      right. split; [exact E|].
      exact (not_gt_mantissa _ _ Hlo).
    - destruct (Z.compare_spec (-23) e) as [E|E|E]; [|discriminate|lia].
      right. split; [lia|].
      exact (not_lt_mantissa _ _ Hhi). }
  split; [lia|].
  destruct Hcases as [E|[-> Hm2]]; [|exact Hm2].
  assert (2 ^ 24 <= 2 ^ (- e)) by (apply Z.pow_le_mono_r; lia). lia.
Qed.

(** Scaling a magnitude of at most one by 32767 stays within 32767. *)
Lemma scaled_unit_range s m e :
  e < 0 -> Zpos m <= 2 ^ (- e) ->
  mag_le s (f_mul (S754_finite s m e) (f_of_Z 32767)) 32767 0.
Proof.
  intros He Hm. rewrite f_32767_eq. unfold f_mul. rewrite SFmul_finite.
  replace (xorb s false) with s by (now destruct s).
  assert (HE : 0 < 2 ^ (- e)) by (apply Z.pow_pos_nonneg; lia).
  assert (Hpow : 2 ^ (0 - (e + -9)) = 512 * 2 ^ (- e)).
  { replace (0 - (e + -9)) with (9 + - e) by lia. now rewrite Z.pow_add_r by lia. }
  apply round_aux_below; try lia.
  - assert (Hd : Zdigits2 (Z.pos m * 16776704) <= 24 - e).
    { apply Zdigits2_le; [|lia]. split; [lia|].
      replace (24 - e) with (24 + - e) by lia. rewrite Z.pow_add_r by lia.
      change (2 ^ 24) with 16777216. nia. }
    unfold round_exp, fexp, emin. lia.
  - intros Hl. now contradiction Hl.
Qed.

(** Dividing a normal single by 32768 lowers the exponent by 15. *)
Lemma f_div_32768 s (M : positive) E :
  Zdigits2 (Zpos M) = 24 -> -133 <= E <= 100 ->
  f_div (S754_finite s M E) (f_of_Z 32768) = S754_finite s M (E - 15).
Proof.
  intros Hd HE. rewrite f_32768_eq. unfold f_div. rewrite SFdiv_finite.
  rewrite Hd. change (Zdigits2 8388608) with 24.
  assert (He' : Z.min (fexp 24 128 (24 + E - (24 + -8))) (E - -8) = E - 16)
    by (unfold fexp, emin; lia).
  rewrite He'. replace (E - -8 - (E - 16)) with 24 by lia.
  replace (xorb s false) with s by (now destruct s).
  assert (Hq : Zpos M * 2 ^ 24 = (Zpos M * 2) * 8388608) by (change (2 ^ 24) with 16777216; lia).
  rewrite Hq, Z.div_mul, Z.mod_mul by lia.
  change (new_location 8388608 0) with loc_Exact.
  assert (Hdig : Zdigits2 (Zpos M * 2) = 25).
  { change 2 with (2 ^ 1) at 1. rewrite Zdigits2_mul_pow2 by lia. lia. }
  assert (Hexp : round_exp 24 128 (Zpos M * 2) (E - 16) = E - 15).
  { unfold round_exp, fexp, emin. rewrite Hdig. lia. }
  rewrite round_aux_exact; try lia.
  - unfold round_mant. rewrite Hexp.
    replace (E - 15 - (E - 16)) with 1 by lia. change (2 ^ 1) with 2.
    rewrite Z.div_mul by lia. unfold pack.
    now replace (E - 15 <=? 128 - 24) with true by (symmetry; lia).
  - rewrite Hexp. replace (E - 15 - (E - 16)) with 1 by lia.
    change (2 ^ 1) with 2. apply Z.mod_mul. lia.
Qed.

(** The clamp leaves magnitudes of at most one alone. *)
Lemma clamp_within s (m : positive) e :
  e < -23 \/ (e = -23 /\ Zpos m <= 8388608) ->
  Rules.clamp (S754_finite s m e) = S754_finite s m e.
Proof.
  intros Hr. unfold Rules.clamp. rewrite f_one_eq.
  unfold f_ltb, SFltb, SFcompare, SFopp. simpl negb.
  destruct s.
  - destruct (Z.compare_spec e (-23)) as [E|E|E]; try reflexivity; [|lia].
    rewrite Pos.compare_cont_spec.
    destruct (Pos.compare_spec m 8388608); try reflexivity. lia.
  - destruct (Z.compare_spec (-23) e) as [E|E|E]; try reflexivity; [|lia].
    rewrite Pos.compare_cont_spec.
    destruct (Pos.compare_spec 8388608 m); try reflexivity. lia.
Qed.

(** Scaling [a / 32768] by 32767 gives a number whose integer part is
    [a - 1], for every magnitude [a] of an [int16_t]. *)
Lemma scaled_back s a :
  1 <= a <= 32768 ->
  let d := Zdigits2 a in
  let M := Z.to_pos (a * 2 ^ (24 - d)) in
  trunc (f_mul (S754_finite s M (d - 24 - 15)) (f_of_Z 32767)) =
    Some (cond_Zopp s (a - 1)).
Proof.
  intros Ha d M.
  assert (Hd : 1 <= d <= 16).
  { unfold d. split; [pose proof (Zdigits2_pos a); lia|].
    apply Zdigits2_le; [|lia]. change (2 ^ 16) with 65536. lia. }
  assert (HP : 0 < 2 ^ (24 - d)) by (apply Z.pow_pos_nonneg; lia).
  assert (HM : Zpos M = a * 2 ^ (24 - d)) by (unfold M; rewrite Z2Pos.id; nia).
  pose proof (Zdigits2_bounds a ltac:(lia)) as [Hlo Hhi]. fold d in Hlo, Hhi.
  assert (HMlo : 2 ^ 23 <= Zpos M < 2 ^ 24).
  { assert (H23 : 2 ^ 23 = 2 ^ (d - 1) * 2 ^ (24 - d))
      by (rewrite <- Z.pow_add_r by lia; f_equal; lia).
    assert (H24 : 2 ^ 24 = 2 ^ d * 2 ^ (24 - d))
      by (rewrite <- Z.pow_add_r by lia; f_equal; lia).
    rewrite HM, H23, H24. nia. }
  change (2 ^ 23) with 8388608 in HMlo. change (2 ^ 24) with 16777216 in HMlo.
  rewrite f_32767_eq. unfold f_mul. rewrite SFmul_finite.
  replace (xorb s false) with s by (now destruct s).
  set (mx := Zpos M * 16776704). set (ex := d - 24 - 15 + -9).
  assert (Hdig : Zdigits2 mx <= 48).
  { apply Zdigits2_le; [|lia]. change (2 ^ 48) with 281474976710656. unfold mx. nia. }
  assert (Hup : mag_le s (binary_round_aux 24 128 s mx ex loc_Exact) (Zpos M - 1) (d - 24)).
  { apply round_aux_below; try lia.
    - unfold round_exp, fexp, emin, ex. lia.
    - replace (d - 24 - ex) with 24 by (unfold ex; lia).
      change (2 ^ 24) with 16777216. unfold mx. lia.
    - intros Hl. now contradiction Hl. }
  assert (Hpow : 2 ^ (0 - ex) = 2 ^ (24 - d) * 16777216).
  { unfold ex. replace (0 - (d - 24 - 15 + -9)) with ((24 - d) + 24) by lia.
    now rewrite Z.pow_add_r by lia. }
  assert (Hdown : 2 <= a ->
            mag_ge s (binary_round_aux 24 128 s mx ex loc_Exact) (a - 1) 0).
  { intros Ha2. apply round_aux_above; try lia.
    - unfold round_exp, fexp, emin, ex. lia.
    - unfold round_exp, fexp, emin, ex. lia.
    - rewrite Hpow. unfold mx. rewrite HM. nia. }
  destruct (binary_round_aux 24 128 s mx ex loc_Exact) as [s'|s'| |s' m e];
    simpl in Hup; try contradiction.
  - destruct Hup as [-> _].
    assert (a = 1); [|subst a; now destruct s].
    destruct (Z.le_gt_cases 2 a) as [Ha2|]; [|lia].
    specialize (Hdown Ha2). simpl in Hdown. lia.
  - destruct Hup as [-> Hup]. simpl. f_equal. f_equal.
    assert (Hhi' : Z.shiftl (Zpos m) e <= a - 1).
    { apply (trunc_below m e (Zpos M - 1) (d - 24) a Hup); [lia|].
      replace (- (d - 24)) with (24 - d) by lia. lia. }
    assert (Hlo' : a - 1 <= Z.shiftl (Zpos m) e); [|lia].
    destruct (Z.le_gt_cases 2 a) as [Ha2|Ha1].
    + destruct (Hdown Ha2) as [_ Hge].
      assert (Hany : scaled_le (Zpos m) e (Zpos m * 2 ^ Z.max 0 e + 1) 0).
      { destruct (Z.le_gt_cases 0 e).
        - apply (scaled_le_at 0); try lia.
          rewrite Z.sub_diag, Z.sub_0_r, Z.max_r by lia. change (2 ^ 0) with 1. lia.
        - apply (scaled_le_at e); try lia.
          rewrite Z.sub_diag, Z.max_l by lia. change (2 ^ 0) with 1.
          assert (0 < 2 ^ (0 - e)) by (apply Z.pow_pos_nonneg; lia). nia. }
      apply (trunc_between m e (a - 1) _ Hge Hany).
    + assert (0 <= Z.shiftl (Zpos m) e) by (apply Z.shiftl_nonneg; lia). lia.
Qed.

(** *** Widening and narrowing *)

Lemma d_one_eq : d_one = S754_finite false 4503599627370496 (-52).
Proof. reflexivity. Qed.

(** A valid single, as a double: the mantissa is padded to 53 digits. *)
Lemma d_of_f_exact s m e :
  f_valid (S754_finite s m e) = true ->
  let d := Zdigits2 (Zpos m) in
  d_of_f (S754_finite s m e) =
    S754_finite s (Z.to_pos (Zpos m * 2 ^ (53 - d))) (d + e - 53).
Proof.
  intros Hv d. destruct (f_valid_digits s m e Hv) as (Hm & He & Hc).
  assert (Hd : 1 <= d <= 24).
  { unfold d. split; [pose proof (Zdigits2_pos (Zpos m)); lia|].
    apply Zdigits2_le; lia. }
  unfold d_of_f.
  assert (Hf : fexp 53 1024 (Zdigits2 (Zpos m) + e) = d + e - 53)
    by (fold d; unfold fexp, emin; lia).
  rewrite binary_round_exact by (rewrite ?Hf; lia).
  rewrite Hf. now replace (e - (d + e - 53)) with (53 - d) by lia.
Qed.

(** Multiplying a double with a full mantissa by one changes nothing. *)
Lemma d_mul_one s (M : positive) E :
  Zdigits2 (Zpos M) = 53 -> -1074 <= E <= 971 ->
  d_mul (S754_finite s M E) d_one = S754_finite s M E.
Proof.
  intros Hd HE. rewrite d_one_eq. unfold d_mul. rewrite SFmul_finite.
  replace (xorb s false) with s by (now destruct s).
  change 4503599627370496 with (2 ^ 52).
  assert (Hexp : round_exp 53 1024 (Z.pos M * 2 ^ 52) (E + -52) = E).
  { unfold round_exp. rewrite Zdigits2_mul_pow2, Hd by lia.
    unfold fexp, emin. lia. }
  rewrite round_aux_exact; try lia.
  - unfold round_mant. rewrite Hexp.
    replace (E - (E + -52)) with 52 by lia.
    rewrite Z.div_mul by lia. unfold pack.
    now replace (E <=? 1024 - 53) with true by (symmetry; lia).
  - rewrite Hexp. replace (E - (E + -52)) with 52 by lia. apply Z.mod_mul. lia.
Qed.

(** Widening and narrowing again gives back a valid single. *)
Lemma f_of_d_of_f s m e :
  f_valid (S754_finite s m e) = true ->
  f_of_d (d_of_f (S754_finite s m e)) = S754_finite s m e.
Proof.
  intros Hv. rewrite d_of_f_exact by exact Hv. cbv zeta.
  destruct (f_valid_digits s m e Hv) as (Hm & He & Hc).
  set (d := Zdigits2 (Zpos m)) in *.
  assert (Hd : 1 <= d <= 24).
  { unfold d. split; [pose proof (Zdigits2_pos (Zpos m)); lia|].
    apply Zdigits2_le; lia. }
  assert (HP : 0 < 2 ^ (53 - d)) by (apply Z.pow_pos_nonneg; lia).
  set (M := Z.to_pos (Zpos m * 2 ^ (53 - d))).
  assert (HM : Zpos M = Zpos m * 2 ^ (53 - d)) by (unfold M; rewrite Z2Pos.id; nia).
  assert (HdM : Zdigits2 (Zpos M) = 53).
  { rewrite HM, Zdigits2_mul_pow2 by lia. fold d. lia. }
  assert (Hfe : fexp 24 128 (Zdigits2 (Zpos M) + (d + e - 53)) = e).
  { rewrite HdM. replace (53 + (d + e - 53)) with (d + e) by lia. exact Hc. }
  unfold f_of_d. rewrite binary_round_coarse by (rewrite Hfe; lia).
  assert (Hexp : round_exp 24 128 (Zpos M) (d + e - 53) = e).
  { unfold round_exp. rewrite Hfe. lia. }
  rewrite round_aux_exact; try lia.
  - unfold round_mant. rewrite Hexp, HM.
    replace (e - (d + e - 53)) with (53 - d) by lia.
    rewrite Z.div_mul by lia. unfold pack.
    now replace (e <=? 128 - 24) with true by (symmetry; lia).
  - rewrite Hexp, HM. replace (e - (d + e - 53)) with (53 - d) by lia.
    apply Z.mod_mul. lia.
Qed.

Lemma SFeqb_refl_finite s m e : SFeqb (S754_finite s m e) (S754_finite s m e) = true.
Proof.
  unfold SFeqb, SFcompare. rewrite Z.compare_refl.
  change (Pos.compare_cont Eq m m) with (m ?= m)%positive.
  rewrite Pos.compare_refl. now destruct s.
Qed.

End FpFacts.

(** ** Sample formats *)
Module FormatFacts.
Import Int Fp Format Rules Round RoundFacts FpFacts.

Section WithPlatform.
Context `{Platform}.

Lemma f_to_int16_in_range x z :
  trunc x = Some z -> - 2 ^ 15 <= z < 2 ^ 15 -> f_to_int16 x = z.
Proof.
  intros Hx Hz. unfold f_to_int16. rewrite Hx.
  destruct (Z.leb_spec (- 2 ^ 15) z); destruct (Z.ltb_spec z (2 ^ 15)); simpl; lia.
Qed.

(** The integer part of a number of magnitude at most [K]. *)
Lemma trunc_of_mag s y K :
  mag_le s y K 0 -> 0 <= K ->
  exists z, trunc y = Some z /\ - K <= z <= K.
Proof.
  intros Hy HK. destruct y as [s'|s'| |s' m e]; simpl in Hy; try contradiction.
  - exists 0. split; [reflexivity|lia].
  - destruct Hy as [-> Hle].
    assert (Hlo : scaled_le 0 0 (Zpos m) e).
    { unfold scaled_le. rewrite Z.mul_0_l.
      apply Z.mul_nonneg_nonneg; [lia|]. apply Z.pow_nonneg. lia. }
    pose proof (trunc_between m e 0 K Hlo Hle).
    eexists. split; [reflexivity|]. destruct s; simpl; lia.
Qed.

(** The two tests of the capture loop amount to a clamp. *)
Lemma floatToInt16_clamped x :
  floatToInt16 x = f_to_int16 (f_mul (clamp x) (f_of_Z 32767)).
Proof.
  unfold floatToInt16, clamp. destruct (f_ltb f_one x); reflexivity.
Qed.

(** What the clamp returns for anything but a NaN. *)
Lemma clamp_unit x :
  is_nan x = false -> f_valid x = true ->
  match clamp x with
  | S754_zero _ => True
  | S754_finite _ m e => e < 0 /\ Zpos m <= 2 ^ (- e)
  | _ => False
  end.
Proof.
  intros Hnan Hv. unfold clamp.
  assert (Hone : -23 < 0 /\ 8388608 <= 2 ^ (- -23)) by (split; [reflexivity|discriminate]).
  destruct x as [s|s| |s m e]; try discriminate.
  - now destruct s.
  - destruct s; exact Hone.
  - destruct (f_ltb f_one (S754_finite s m e)) eqn:Hhi; [exact Hone|].
    destruct (f_ltb (S754_finite s m e) (SFopp f_one)) eqn:Hlo; [exact Hone|].
    now apply (unit_range s m e).
Qed.

Lemma floatToInt16_range x :
  is_nan x = false -> f_valid x = true ->
  exists z,
    trunc (f_mul (clamp x) (f_of_Z 32767)) = Some z /\
    floatToInt16 x = z /\
    -32767 <= z <= 32767.
Proof.
  intros Hnan Hv. pose proof (clamp_unit x Hnan Hv) as Hc.
  rewrite floatToInt16_clamped.
  destruct (clamp x) as [s|s| |s m e]; try contradiction.
  - exists 0. rewrite f_32767_eq. split; [reflexivity|]. split; [|lia].
    apply f_to_int16_in_range; [reflexivity|lia].
  - destruct Hc as [He Hm].
    destruct (trunc_of_mag s _ 32767 (scaled_unit_range s m e He Hm)) as (z & Hz & Hr);
      [lia|].
    exists z. split; [exact Hz|]. split; [|exact Hr].
    apply f_to_int16_in_range; [exact Hz|lia].
Qed.

(** What playback followed by capture makes of a magnitude [a]. *)
Lemma roundtrip_magnitude s a :
  1 <= a <= 32768 -> (s = false -> a <= 32767) ->
  let d := Zdigits2 a in
  let M := Z.to_pos (a * 2 ^ (24 - d)) in
  floatToInt16 (f_div (S754_finite s M (d - 24)) (f_of_Z 32768)) =
    cond_Zopp s (a - 1).
Proof.
  intros Ha Hs d M.
  assert (Hd : 1 <= d <= 16).
  { unfold d. split; [pose proof (Zdigits2_pos a); lia|].
    apply Zdigits2_le; [|lia]. change (2 ^ 16) with 65536. lia. }
  assert (HP : 0 < 2 ^ (24 - d)) by (apply Z.pow_pos_nonneg; lia).
  assert (HM : Zpos M = a * 2 ^ (24 - d)) by (unfold M; rewrite Z2Pos.id; nia).
  assert (HdM : Zdigits2 (Zpos M) = 24).
  { rewrite HM, Zdigits2_mul_pow2 by lia. fold d. lia. }
  rewrite f_div_32768 by (try exact HdM; lia).
  rewrite floatToInt16_clamped, clamp_within.
  - apply f_to_int16_in_range.
    + apply (scaled_back s a Ha).
    + destruct s; simpl; lia.
  - destruct (Z.eq_dec d 16) as [Hd16|Hd16]; [right|left; lia].
    split; [lia|].
    pose proof (Zdigits2_bounds a ltac:(lia)) as [Hlo _]. fold d in Hlo.
    rewrite Hd16 in Hlo, HM. change (2 ^ (16 - 1)) with 32768 in Hlo.
    change (2 ^ (24 - 16)) with 256 in HM. lia.
Qed.

(** Playback conversion followed by capture conversion, for every value of
    an [int16_t]: one step towards zero. *)
Lemma roundtrip_exact v :
  -32768 <= v <= 32767 ->
  floatToInt16 (int16ToFloat v) =
    if 0 <? v then v - 1 else if v <? 0 then v + 1 else 0.
Proof.
  intros Hv. unfold int16ToFloat.
  destruct (Z.ltb_spec 0 v) as [Hpos|Hle].
  - rewrite f_of_Z_exact by lia.
    rewrite (roundtrip_magnitude false v) by lia. reflexivity.
  - destruct (Z.ltb_spec v 0) as [Hneg|Hge].
    + replace v with (- - v) at 1 by lia.
      rewrite f_of_Z_exact_neg by lia.
      rewrite (roundtrip_magnitude true (- v)) by (try discriminate; lia).
      simpl. lia.
    + replace v with 0 by lia. reflexivity.
Qed.

(** The bytes stored for an [int16_t] are its little-endian encoding. *)
Lemma int16_bytes_le16 v : int16_bytes v = le16 v.
Proof.
  unfold int16_bytes, le16.
  change 255 with (Z.ones 8). rewrite !Z.land_ones by lia.
  rewrite Z.shiftr_div_pow2 by lia. reflexivity.
Qed.

(** The bytes the capture callback appends for a block without NaNs are
    its PCM16 bytes. *)
Lemma pcm16_follows_rule (data : list float) :
  Forall (fun x => is_nan x = false /\ f_valid x = true) data ->
  pcm16_bytes data = Some (Capture.pcm16 data).
Proof.
  induction 1 as [|x rest [Hnan Hv] _ IH]; [reflexivity|].
  destruct (floatToInt16_range x Hnan Hv) as (z & Hz & Hcode & _).
  change (Capture.pcm16 (x :: rest))
    with (int16_bytes (floatToInt16 x) ++ Capture.pcm16 rest).
  rewrite Hcode, int16_bytes_le16.
  cbn [pcm16_bytes]. unfold quantise. rewrite Hz, IH. reflexivity.
Qed.

End WithPlatform.
End FormatFacts.

(** ** Interpolation at the boundary *)
Module InterpolationFacts.
Import Int Fp Resampler Rules Round RoundFacts FpFacts.

(** With weight one the blend is the second sample: exactly, unless that
    sample is a zero, whose sign may change. *)
Lemma blend_at_one a b :
  is_finite a = true -> f_valid a = true ->
  is_finite b = true -> f_valid b = true ->
  SFeqb (blend a b d_one) b = true /\
  (forall s m e, b = S754_finite s m e -> blend a b d_one = b).
Proof.
  intros Hfa Hva Hfb Hvb. unfold blend.
  change (d_sub d_one d_one) with (S754_zero false).
  assert (Ha : exists sa, d_mul (d_of_f a) (S754_zero false) = S754_zero sa).
  { destruct a as [s| | |s m e]; try discriminate.
    - now exists (xorb s false).
    - rewrite d_of_f_exact by exact Hva. now exists (xorb s false). }
  destruct Ha as [sa ->].
  destruct b as [s| | |s m e]; try discriminate.
  - split; [|discriminate]. rewrite d_one_eq. now destruct sa, s.
  - pose proof (d_of_f_exact s m e Hvb) as HX. cbv zeta in HX.
    destruct (f_valid_digits s m e Hvb) as (Hm & He & _).
    assert (Hd : 1 <= Zdigits2 (Zpos m) <= 24).
    { split; [pose proof (Zdigits2_pos (Zpos m)); lia|apply Zdigits2_le; lia]. }
    assert (HP : 0 < 2 ^ (53 - Zdigits2 (Zpos m))) by (apply Z.pow_pos_nonneg; lia).
    assert (Hexact : f_of_d (d_add (S754_zero sa)
                               (d_mul (d_of_f (S754_finite s m e)) d_one))
                     = S754_finite s m e).
    { rewrite HX, d_mul_one.
      - change (d_add (S754_zero sa) (S754_finite s ?M ?E)) with (S754_finite s M E).
        rewrite <- HX. now apply f_of_d_of_f.
      - rewrite Z2Pos.id by nia. rewrite Zdigits2_mul_pow2 by lia. lia.
      - lia. }
    rewrite Hexact. split; [apply SFeqb_refl_finite|reflexivity].
Qed.

End InterpolationFacts.

(** ** Sizes: the frame count and the estimate *)
Module SizeFacts.
Import Int Fp Resampler Round RoundFacts FpFacts IntFacts.

(** The ratio of two positive [int] rates is a finite double, at most the
    output rate, and at least one when the output rate is not the smaller. *)
Lemma ratio_bounds input_rate output_rate :
  0 < input_rate <= INT_MAX -> 0 < output_rate <= INT_MAX ->
  let ratio := d_div (d_of_Z output_rate) (d_of_Z input_rate) in
  mag_le false ratio output_rate 0 /\
  (input_rate <= output_rate -> mag_ge false ratio 1 0) /\
  (forall s m e, ratio = S754_finite s m e -> e <= 0).
Proof.
  unfold INT_MAX. intros Hin Hout. cbv zeta.
  assert (Hd : forall z, 0 < z <= 2 ^ 31 - 1 -> 1 <= Zdigits2 z <= 31).
  { intros z Hz. split; [pose proof (Zdigits2_pos z); lia|].
    apply Zdigits2_le; lia. }
  pose proof (Hd _ Hin) as Hd2. pose proof (Hd _ Hout) as Hd1.
  rewrite (d_of_Z_exact output_rate), (d_of_Z_exact input_rate) by lia.
  set (d1 := Zdigits2 output_rate) in *. set (d2 := Zdigits2 input_rate) in *.
  assert (HP1 : 0 < 2 ^ (53 - d1)) by (apply Z.pow_pos_nonneg; lia).
  assert (HP2 : 0 < 2 ^ (53 - d2)) by (apply Z.pow_pos_nonneg; lia).
  set (M1 := Z.to_pos (output_rate * 2 ^ (53 - d1))).
  set (M2 := Z.to_pos (input_rate * 2 ^ (53 - d2))).
  assert (HM1 : Zpos M1 = output_rate * 2 ^ (53 - d1)) by (unfold M1; rewrite Z2Pos.id; nia).
  assert (HM2 : Zpos M2 = input_rate * 2 ^ (53 - d2)) by (unfold M2; rewrite Z2Pos.id; nia).
  assert (HdM1 : Zdigits2 (Zpos M1) = 53)
    by (rewrite HM1, Zdigits2_mul_pow2 by lia; fold d1; lia).
  assert (HdM2 : Zdigits2 (Zpos M2) = 53)
    by (rewrite HM2, Zdigits2_mul_pow2 by lia; fold d2; lia).
  assert (He' : Z.min (fexp 53 1024 (Zdigits2 (Zpos M1) + (d1 - 53)
                                      - (Zdigits2 (Zpos M2) + (d2 - 53))))
                      (d1 - 53 - (d2 - 53)) = d1 - d2 - 53)
    by (rewrite HdM1, HdM2; unfold fexp, emin; lia).
  assert (Hs : d1 - 53 - (d2 - 53) - (d1 - d2 - 53) = 53) by lia.
  set (q := Zpos M1 * 2 ^ 53 / Zpos M2).
  assert (HM2lo : 2 ^ 52 <= Zpos M2).
  { pose proof (Zdigits2_bounds (Zpos M2) ltac:(lia)) as [Hlo _].
    now rewrite HdM2 in Hlo. }
  assert (HM1hi : Zpos M1 < 2 ^ 53).
  { pose proof (Zdigits2_bounds (Zpos M1) ltac:(lia)) as [_ Hhi].
    now rewrite HdM1 in Hhi. }
  assert (Hq : 0 <= q < 2 ^ 54).
  { unfold q. split; [apply Z.div_pos; lia|].
    apply Z.div_lt_upper_bound; [lia|].
    assert (2 ^ 54 = 2 ^ 53 * 2 /\ 2 ^ 53 = 2 ^ 52 * 2) as [E54 E53] by (split; reflexivity).
    rewrite E54. nia. }
  assert (Hdq : Zdigits2 q <= 54) by (apply Zdigits2_le; lia).
  assert (Hgrid : round_exp 53 1024 q (d1 - d2 - 53) <= -22)
    by (unfold round_exp, fexp, emin; lia).
  assert (Hpow : 2 ^ (0 - (d1 - d2 - 53)) * 2 ^ (53 - d2) = 2 ^ 53 * 2 ^ (53 - d1)).
  { rewrite <- !Z.pow_add_r by lia. f_equal. lia. }
  assert (HQ : 0 < 2 ^ (0 - (d1 - d2 - 53))) by (apply Z.pow_pos_nonneg; lia).
  split; [|split].
  - change false with (xorb false false) at 1.
    apply SFdiv_below; rewrite ?He', ?Hs; fold q; try lia.
    rewrite HM1, HM2. 
    replace (output_rate * 2 ^ (0 - (d1 - d2 - 53)) * (input_rate * 2 ^ (53 - d2)))
      with (output_rate * input_rate * (2 ^ (0 - (d1 - d2 - 53)) * 2 ^ (53 - d2))) by ring.
    rewrite Hpow. nia.
  - intros Hle. change false with (xorb false false) at 1.
    apply SFdiv_above; rewrite ?He', ?Hs; fold q; try lia.
    rewrite HM1, HM2.
    replace (1 * 2 ^ (0 - (d1 - d2 - 53)) * (input_rate * 2 ^ (53 - d2)))
      with (input_rate * (2 ^ (0 - (d1 - d2 - 53)) * 2 ^ (53 - d2))) by ring.
    rewrite Hpow. nia.
  - intros s m e Hr. unfold d_div in Hr. rewrite SFdiv_finite in Hr by lia.
    rewrite He', Hs in Hr. fold q in Hr.
    apply round_aux_exponent in Hr; lia.
Qed.

Lemma trunc_d_of_Z c : 0 <= c < 2 ^ 53 -> trunc (d_of_Z c) = Some c.
Proof.
  intros Hc. destruct (Z.eq_dec c 0) as [->|Hne]; [reflexivity|].
  rewrite d_of_Z_exact by lia. simpl. f_equal.
  assert (Hd : 1 <= Zdigits2 c <= 53).
  { split; [pose proof (Zdigits2_pos c); lia|apply Zdigits2_le; lia]. }
  assert (HP : 0 < 2 ^ (53 - Zdigits2 c)) by (apply Z.pow_pos_nonneg; lia).
  rewrite Z2Pos.id by nia.
  rewrite <- Z.shiftr_opp_r, Z.shiftr_div_pow2 by lia.
  replace (- (Zdigits2 c - 53)) with (53 - Zdigits2 c) by lia.
  apply Z.div_mul. lia.
Qed.

(** Rounding the frame count up for every channel costs at most one
    sample per channel against rounding the sample count down. *)
Lemma ceil_floor_channels F N c m D :
  0 < D -> 0 < c -> 0 <= m -> 0 <= F -> F * c <= N ->
  (F * m + D - 1) / D * c <= N * m / D + c.
Proof.
  intros HD Hc Hm HF HN.
  pose proof (Z.mul_div_le (F * m + D - 1) D HD) as Hka.
  pose proof (Z.mul_succ_div_gt (N * m) D HD) as Hl.
  set (Ka := (F * m + D - 1) / D) in *. set (L := N * m / D) in *.
  assert (Ka * c * D < (L + 1 + c) * D); [|nia].
  assert (Ka * c * D <= (F * m + D - 1) * c) by nia.
  assert (F * c * m <= N * m) by nia.
  nia.
Qed.

Lemma ceil_div_bound x D K :
  0 < D -> x <= K * D -> x <= (x + D - 1) / D * D /\ (x + D - 1) / D <= K.
Proof.
  intros HD Hx.
  pose proof (Z.mul_succ_div_gt (x + D - 1) D HD) as Hgt.
  split; [lia|].
  apply Z.lt_succ_r. apply Z.div_lt_upper_bound; [exact HD|]. lia.
Qed.

Section WithPlatform.
Context `{Platform}.

Lemma to_size_t_zero s : to_size_t (S754_zero s) = 0.
Proof. reflexivity. Qed.

(** The frame count computed from a non-negative double below [2 ^ 53]
    respects every integer bound on that double. *)
Lemma to_size_t_ceil y K :
  mag_le false y K 0 -> K < 2 ^ 53 ->
  0 <= to_size_t (d_ceil y) <= K /\
  (forall L, mag_ge false y L 0 -> L <= to_size_t (d_ceil y)).
Proof.
  intros Hy HK. destruct y as [s|s| |s m e]; simpl in Hy; try contradiction.
  - destruct Hy as [-> HK0]. simpl d_ceil. rewrite to_size_t_zero.
    split; [lia|]. intros L [_ HL]. exact HL.
  - destruct Hy as [-> Hle].
    assert (Hlo : scaled_le 0 0 (Zpos m) e).
    { unfold scaled_le. rewrite Z.mul_0_l.
      apply Z.mul_nonneg_nonneg; [lia|]. apply Z.pow_nonneg. lia. }
    destruct (ceilZ_between m e 0 K Hlo Hle) as [Hc Hpos].
    unfold d_ceil. fold (d_of_Z (ceilZ false m e)).
    rewrite (ResamplerFacts.to_size_t_trunc _ (ceilZ false m e))
      by (try apply trunc_d_of_Z; lia).
    split; [lia|]. intros L [_ HL].
    now destruct (ceilZ_between m e L K HL Hle).
Qed.

(** The frame count for [X] input frames at a ratio [m / 2 ^ (- e)]. *)
Lemma frames_bounds (m : positive) e X Ku :
  e <= 0 -> 0 <= X < 2 ^ 53 ->
  X * Zpos m <= Ku * 2 ^ (- e) -> Ku < 2 ^ 53 ->
  let n := to_size_t (d_ceil (d_mul (d_of_Z X) (S754_finite false m e))) in
  0 <= n <= Ku /\
  (forall L, L * 2 ^ (- e) <= X * Zpos m -> L <= n).
Proof.
  intros He HX Hup HKu n. subst n.
  assert (HD : 0 < 2 ^ (- e)) by (apply Z.pow_pos_nonneg; lia).
  destruct (Z.eq_dec X 0) as [->|Hne].
  { change (d_mul (d_of_Z 0) (S754_finite false m e)) with (S754_zero false).
    simpl d_ceil. rewrite to_size_t_zero. split; [nia|]. intros L HL. nia. }
  rewrite d_of_Z_exact by lia.
  set (dX := Zdigits2 X).
  assert (Hd : 1 <= dX <= 53).
  { unfold dX. split; [pose proof (Zdigits2_pos X); lia|apply Zdigits2_le; lia]. }
  assert (HP : 0 < 2 ^ (53 - dX)) by (apply Z.pow_pos_nonneg; lia).
  set (MX := Z.to_pos (X * 2 ^ (53 - dX))).
  assert (HMX : Zpos MX = X * 2 ^ (53 - dX)) by (unfold MX; rewrite Z2Pos.id; nia).
  unfold d_mul. rewrite SFmul_finite. simpl xorb.
  set (mx := Zpos MX * Zpos m). set (ex := dX - 53 + e).
  assert (Hpow : 2 ^ (0 - ex) = 2 ^ (53 - dX) * 2 ^ (- e)).
  { unfold ex. rewrite <- Z.pow_add_r by lia. f_equal. lia. }
  assert (Hmx : mx = X * Zpos m * 2 ^ (53 - dX)) by (unfold mx; rewrite HMX; ring).
  assert (Hlt : mx < 2 ^ 53 * 2 ^ (0 - ex)) by (rewrite Hpow, Hmx; nia).
  assert (Hdig : Zdigits2 mx <= 53 - ex).
  { apply Zdigits2_le; [|unfold ex; lia]. split; [unfold mx; lia|].
    replace (53 - ex) with (53 + (0 - ex)) by lia.
    rewrite Z.pow_add_r by (unfold ex; lia). exact Hlt. }
  assert (Hgrid : round_exp 53 1024 mx ex <= 0)
    by (unfold round_exp, fexp, emin, ex in *; lia).
  assert (Hbelow : mag_le false (binary_round_aux 53 1024 false mx ex loc_Exact) Ku 0).
  { apply round_aux_below; try lia.
    - rewrite Hpow, Hmx. nia.
    - intros Hl. now contradiction Hl. }
  destruct (to_size_t_ceil _ Ku Hbelow HKu) as [Hn Hlow].
  split; [exact Hn|]. intros L HL.
  destruct (Z.le_gt_cases L 0) as [HL0|HL0]; [lia|].
  apply Hlow. apply round_aux_above; try lia.
  rewrite Hpow, Hmx. nia.
Qed.

(** Every successful round of the loops keeps the length of the output. *)
Lemma loop_preserves {St : Type} (P : St -> Prop) (body : Z -> St -> option St) :
  (forall i s s', P s -> body i s = Some s' -> P s') ->
  forall n i s s', P s -> loop n i body s = Some s' -> P s'.
Proof.
  intros Hbody. induction n as [|n IH]; intros i s s' Hs Hrun; simpl in Hrun.
  - assert (s = s') by congruence. now subst.
  - destruct (body i s) as [s1|] eqn:Hstep; [|discriminate].
    eapply IH; [|exact Hrun]. eapply Hbody; eassumption.
Qed.

Lemma store_length {A : Type} (v v' : list A) k x :
  store v k x = Some v' -> length v' = length v.
Proof.
  unfold store. destruct (_ && _); [|intros; discriminate].
  intros [= <-]. apply length_insert.
Qed.

Lemma upsample_body_length r input num_frames ch i (out out' : list float) :
  upsample_body r input num_frames ch i out = Some out' ->
  length out' = length out.
Proof.
  unfold upsample_body. destruct (upsample_source r num_frames i) as [idx frac].
  destruct (load input (uadd (umul idx _) _)) as [a|]; simpl; [|intros; discriminate].
  destruct (load input _) as [b|]; simpl; [|intros; discriminate].
  apply store_length.
Qed.

Lemma downsample_body_length r input num_frames ch i (out out' : list float) :
  downsample_body r input num_frames ch i out = Some out' ->
  length out' = length out.
Proof.
  unfold downsample_body. destruct (_ <=? _).
  - destruct (load input _) as [a|]; simpl; [|intros; discriminate]. apply store_length.
  - destruct (load input (uadd (umul (to_size_t _) _) _)) as [a|]; simpl;
      [|intros; discriminate].
    destruct (load input _) as [b|]; simpl; [|intros; discriminate].
    apply store_length.
Qed.

(** The two linear paths return [output_frames] frames whenever they
    return. *)
Lemma linear_length (body : Z -> Z -> list float -> option (list float)) c n
    (init out : list float) :
  (forall ch i o o', body ch i o = Some o' -> length o' = length o) ->
  for_range 0 c (fun ch => for_range 0 n (body ch)) init = Some out ->
  length out = length init.
Proof.
  intros Hbody Hrun. unfold for_range in Hrun.
  eapply (loop_preserves (fun o => length o = length init)); [|reflexivity|exact Hrun].
  intros ch o o' Ho Hinner.
  eapply (loop_preserves (fun o => length o = length init)); [|exact Ho|exact Hinner].
  intros i o1 o2 Ho1 Hstep. rewrite <- Ho1. eapply Hbody; exact Hstep.
Qed.

Lemma linearUpsample_length r input n out :
  linearUpsample r input n = Some out ->
  Z.of_nat (length out) =
    umul (output_frames_of r (n / usize (channels (config_ r))))
         (usize (channels (config_ r))).
Proof.
  unfold linearUpsample. destruct (_ =? 0); [intros; discriminate|]. intros Hrun.
  apply linear_length in Hrun; [|intros; eapply upsample_body_length; eassumption].
  rewrite Hrun, length_replicate. rewrite Z2Nat.id; [reflexivity|].
  apply usize_range.
Qed.

Lemma linearDownsample_length r input n out :
  linearDownsample r input n = Some out ->
  Z.of_nat (length out) =
    umul (output_frames_of r (n / usize (channels (config_ r))))
         (usize (channels (config_ r))).
Proof.
  unfold linearDownsample. destruct (_ =? 0); [intros; discriminate|]. intros Hrun.
  apply linear_length in Hrun; [|intros; eapply downsample_body_length; eassumption].
  rewrite Hrun, length_replicate. rewrite Z2Nat.id; [reflexivity|].
  apply usize_range.
Qed.

(** [initialize] touches neither the rates, nor the channel count, nor
    the ratio. *)
Lemma initialize_keeps r :
  let r' := snd (initialize r) in
  input_sample_rate (config_ r') = input_sample_rate (config_ r) /\
  output_sample_rate (config_ r') = output_sample_rate (config_ r) /\
  channels (config_ r') = channels (config_ r) /\
  ratio_ r' = ratio_ r.
Proof.
  unfold initialize.
  destruct (initialized_ r); [now repeat split|].
  destruct (_ || _); [now repeat split|].
  destruct (_ <=? 0); [now repeat split|].
  destruct (methodRequiresLibsamplerate _); now repeat split.
Qed.

(** How many samples [process] returns, when it returns. *)
Lemma process_length r (input out : list float) :
  fst (process r input) = Some out ->
  let c := usize (channels (config_ r)) in
  let N := Z.of_nat (length input) in
  out = [] \/
  (input_sample_rate (config_ r) = output_sample_rate (config_ r) /\ out = input) \/
  Z.of_nat (length out) = umul (output_frames_of r (N / c)) c.
Proof.
  intros Hrun c N. unfold process, process_ptr in Hrun.
  pose proof (initialize_keeps r) as (Hin & Hout & Hch & Hratio). cbv zeta in Hin.
  destruct (initialize r) as [ok r']. simpl snd in *. fold N in Hrun.
  assert (Hframes : forall X, output_frames_of r' X = output_frames_of r X)
    by (intros X; unfold output_frames_of; now rewrite Hratio).
  destruct ok; simpl negb in Hrun; cbv iota in Hrun;
    [|left; simpl in Hrun; congruence].
  destruct (N =? 0); [left; simpl in Hrun; congruence|].
  rewrite Hin, Hout in Hrun.
  destruct (Z.eqb_spec (input_sample_rate (config_ r)) (output_sample_rate (config_ r)))
    as [Heq|Hne].
  - right. left. split; [exact Heq|]. simpl in Hrun. unfold copy_samples in Hrun.
    rewrite Z.leb_refl in Hrun. unfold N in Hrun.
    rewrite Nat2Z.id, take_ge in Hrun by lia. congruence.
  - right. right. unfold c. rewrite <- Hch, <- Hframes.
    destruct (method (config_ r')); simpl in Hrun;
      try (now apply linearUpsample_length in Hrun);
      try (now apply linearDownsample_length in Hrun);
      destruct (isUpsampling r'); simpl in Hrun;
      try (now apply linearUpsample_length in Hrun);
      now apply linearDownsample_length in Hrun.
Qed.

(** The estimate is the frame count of the whole block as mono, plus the
    margin; no [size_t] arithmetic wraps. *)
Lemma estimate_value N input_rate output_rate :
  0 < input_rate <= INT_MAX -> 0 < output_rate <= INT_MAX ->
  0 <= N -> N * output_rate < 2 ^ 53 ->
  let ratio := d_div (d_of_Z output_rate) (d_of_Z input_rate) in
  let n := to_size_t (d_ceil (d_mul (d_of_Z N) ratio)) in
  estimateOutputSize N input_rate output_rate = n + 256 /\
  0 <= n <= N * output_rate.
Proof.
  intros Hin Hout HN Hfit ratio n.
  assert (Hn : 0 <= n <= N * output_rate); [|split; [|exact Hn]].
  - subst n.
    destruct (ratio_bounds input_rate output_rate Hin Hout) as (Hle & _ & Hexp).
    fold ratio in Hle, Hexp.
    destruct ratio as [s|s| |s m e]; simpl in Hle; try contradiction.
    + destruct Hle as [-> _].
      assert (d_mul (d_of_Z N) (S754_zero false) = S754_zero false) as ->.
      { destruct (Z.eq_dec N 0) as [->|]; [reflexivity|].
        rewrite d_of_Z_exact by nia. reflexivity. }
      simpl d_ceil. rewrite to_size_t_zero. nia.
    + destruct Hle as [-> Hsc]. specialize (Hexp _ _ _ eq_refl).
      apply (scaled_le_at e) in Hsc; [|lia..].
      rewrite Z.sub_diag in Hsc. change (2 ^ 0) with 1 in Hsc.
      replace (0 - e) with (- e) in Hsc by lia.
      apply frames_bounds; try nia.
  - unfold estimateOutputSize. fold ratio. fold n.
    apply uadd_small. lia.
Qed.

(** For up to 256 channels, what [process] returns fits the estimate. *)
Lemma process_within_estimate r (input out : list float) :
  let cfg := config_ r in
  ratio_ r = d_div (d_of_Z (output_sample_rate cfg)) (d_of_Z (input_sample_rate cfg)) ->
  0 < input_sample_rate cfg <= INT_MAX ->
  0 < output_sample_rate cfg <= INT_MAX ->
  1 <= channels cfg <= 256 ->
  Z.of_nat (length input) * output_sample_rate cfg < 2 ^ 53 ->
  fst (process r input) = Some out ->
  Z.of_nat (length out) <=
    estimateOutputSize (Z.of_nat (length input))
      (input_sample_rate cfg) (output_sample_rate cfg).
Proof.
  intros cfg Hratio Hin Hout Hch Hfit Hrun.
  set (N := Z.of_nat (length input)) in *.
  set (Rin := input_sample_rate cfg) in *. set (Rout := output_sample_rate cfg) in *.
  assert (HN : 0 <= N) by (unfold N; lia).
  destruct (estimate_value N Rin Rout Hin Hout HN Hfit) as [-> Hnb].
  destruct (ratio_bounds Rin Rout Hin Hout) as (Hle & Hge & Hexp).
  apply process_length in Hrun. cbv zeta in Hrun. fold cfg N in Hrun.
  rewrite (usize_small (channels cfg)) in Hrun by lia.
  unfold output_frames_of in Hrun. rewrite Hratio in Hrun. fold Rin Rout in Hrun.
  set (ratio := d_div (d_of_Z Rout) (d_of_Z Rin)) in *.
  set (c := channels cfg) in *.
  destruct Hrun as [->|[[Heq ->]|Hlen]]; [simpl; lia| |].
  - (* the rates are equal: a copy *)
    fold N. specialize (Hge ltac:(fold Rin Rout in Heq; lia)).
    destruct ratio as [s|s| |s m e]; simpl in Hle, Hge; try contradiction; [lia|].
    destruct Hle as [-> Hsc]. destruct Hge as [_ Hone].
    specialize (Hexp _ _ _ eq_refl).
    apply (scaled_le_at e) in Hsc; [|lia..]. apply (scaled_le_at e) in Hone; [|lia..].
    rewrite Z.sub_diag in Hsc, Hone. change (2 ^ 0) with 1 in Hsc, Hone.
    replace (0 - e) with (- e) in Hsc, Hone by lia.
    assert (HD : 0 < 2 ^ (- e)) by (apply Z.pow_pos_nonneg; lia).
    destruct (frames_bounds m e N (N * Rout)) as [_ Hlow]; try nia.
    specialize (Hlow N ltac:(nia)). lia.
  - (* a linear path *)
    rewrite Hlen. clear Hlen.
    assert (HF : 0 <= N / c <= N).
    { split; [apply Z.div_pos; lia|]. apply Z.div_le_upper_bound; nia. }
    assert (HFc : N / c * c <= N) by (rewrite Z.mul_comm; apply Z.mul_div_le; lia).
    destruct ratio as [s|s| |s m e]; simpl in Hle; try contradiction.
    + destruct Hle as [-> _].
      assert (d_mul (d_of_Z (N / c)) (S754_zero false) = S754_zero false) as ->.
      { destruct (Z.eq_dec (N / c) 0) as [->|]; [reflexivity|].
        rewrite d_of_Z_exact by nia. reflexivity. }
      simpl d_ceil. rewrite to_size_t_zero. unfold umul. rewrite usize_small; lia.
    + destruct Hle as [-> Hsc]. specialize (Hexp _ _ _ eq_refl).
      apply (scaled_le_at e) in Hsc; [|lia..].
      rewrite Z.sub_diag in Hsc. change (2 ^ 0) with 1 in Hsc.
      replace (0 - e) with (- e) in Hsc by lia.
      assert (HD : 0 < 2 ^ (- e)) by (apply Z.pow_pos_nonneg; lia).
      set (D := 2 ^ (- e)) in *. set (F := N / c) in *.
      destruct (ceil_div_bound (F * Zpos m) D (N * Rout) HD ltac:(nia)) as [Hka1 Hka2].
      set (Ka := (F * Zpos m + D - 1) / D) in *.
      assert (HF53 : 0 <= F < 2 ^ 53) by nia.
      destruct (frames_bounds m e F Ka) as [Hna _]; try lia.
      destruct (frames_bounds m e N (N * Rout)) as [_ Hlow]; try nia.
      specialize (Hlow (N * Zpos m / D) ltac:(rewrite Z.mul_comm; apply Z.mul_div_le; lia)).
      pose proof (ceil_floor_channels F N c (Zpos m) D HD ltac:(lia) ltac:(lia)
                    ltac:(lia) HFc) as Harith.
      fold Ka in Harith.
      rewrite umul_small by nia. nia.
Qed.

End WithPlatform.
End SizeFacts.

(** ** The contract of the library

    The statements a client of the resampler, of the capture front end and
    of the sample conversions can rely on, and the two places where the
    code falls short of them. *)
Module Contract.
Import Int Fp Resampler Format Capture Rules Round.
Import IntFacts ResamplerFacts CaptureFacts FpFacts FormatFacts.
Import InterpolationFacts SizeFacts.

Section WithPlatform.
Context `{Platform}.

(** C1, as the code has it.  On a block of at least two frames the
    upsampling path returns [ceil(num_frames * ratio)] frames (the product
    and the ceiling in [double]), and in every channel output frame [i] is
    the blend [input[idx] * (1 - frac) + input[idx + 1] * frac] with
    [idx = floor (i / ratio)] and [frac = i / ratio - idx], except that from
    [idx >= num_frames - 1] on it is the blend of the last two frames with
    weight [1.0].  That blend compares equal to the last input sample of
    the channel when both samples are finite, and is that very sample
    unless it is a zero. *)
Theorem upsample_follows_rule r (input : list float) :
  let c := Resampler.channels (config_ r) in
  let num_frames := Z.of_nat (length input) / c in
  let output_frames := output_frames_of r num_frames in
  0 < c -> Z.of_nat (length input) < 2 ^ 64 -> 2 <= num_frames ->
  output_frames * c < 2 ^ 64 ->
  exists output,
    linearUpsample r input (Z.of_nat (length input)) = Some output /\
    Z.of_nat (length output) = output_frames * c /\
    forall ch i, 0 <= ch < c -> 0 <= i < output_frames ->
      exists x,
        output !! Z.to_nat (i * c + ch) = Some x /\
        upsample_rule (ratio_ r) input c num_frames ch i = Some x /\
        (index (ratio_ r) i < num_frames - 1 ->
         exists a b,
           input !! Z.to_nat (index (ratio_ r) i * c + ch) = Some a /\
           input !! Z.to_nat ((index (ratio_ r) i + 1) * c + ch) = Some b /\
           x = blend a b (weight (ratio_ r) i)) /\
        (num_frames - 1 <= index (ratio_ r) i ->
         exists a last,
           input !! Z.to_nat ((num_frames - 2) * c + ch) = Some a /\
           input !! Z.to_nat ((num_frames - 1) * c + ch) = Some last /\
           x = blend a last d_one /\
           (is_finite a = true -> f_valid a = true ->
            is_finite last = true -> f_valid last = true ->
            SFeqb x last = true /\
            (forall s m e, last = S754_finite s m e -> x = last))).
Proof.
  intros c num_frames output_frames Hc Hlen Hframes Hfit.
  destruct (linearUpsample_run r input Hc Hlen Hframes Hfit)
    as (output & Hrun & Hsize & Hall).
  exists output. split; [exact Hrun|]. split; [exact Hsize|].
  intros ch i Hch Hi.
  destruct (Hall ch i Hch Hi) as [[x Hx] Hrule].
  fold c in Hx, Hrule. fold num_frames in Hrule. rewrite Hx in Hrule.
  exists x. split; [exact Hx|]. split; [symmetry; exact Hrule|].
  revert Hrule. unfold upsample_rule.
  destruct (Z.leb_spec (num_frames - 1) (index (ratio_ r) i)) as [Hedge|Hin];
    intros Hrule.
  - split; [lia|]. intros _.
    replace (num_frames - 2 + 1) with (num_frames - 1) in Hrule by lia.
    destruct (input !! Z.to_nat ((num_frames - 2) * c + ch)) as [a|];
      [|discriminate].
    destruct (input !! Z.to_nat ((num_frames - 1) * c + ch)) as [last|];
      [|discriminate].
    simpl in Hrule. injection Hrule as Hval.
    exists a, last. split; [reflexivity|]. split; [reflexivity|].
    split; [exact Hval|].
    intros Hfa Hva Hfl Hvl. rewrite Hval.
    apply blend_at_one; assumption.
  - split; [|lia]. intros _.
    destruct (input !! Z.to_nat (index (ratio_ r) i * c + ch)) as [a|];
      [|discriminate].
    destruct (input !! Z.to_nat ((index (ratio_ r) i + 1) * c + ch)) as [b|];
      [|discriminate].
    simpl in Hrule. injection Hrule as Hval.
    exists a, b. split; [reflexivity|]. split; [reflexivity|]. exact Hval.
Qed.


(** C3, as the code has it.  For positive [int] rates and a sample count
    whose product with the output rate stays below [2 ^ 53], the estimate is
    the ceiling, taken in [double] arithmetic, of the sample count times the
    ratio, plus 256; and with 1 to 256 channels whatever [process] returns
    is no longer than the estimate. *)
Theorem estimate_covers_process r (input out : list float) :
  let cfg := config_ r in
  let N := Z.of_nat (length input) in
  ratio_ r = d_div (d_of_Z (output_sample_rate cfg))
                   (d_of_Z (input_sample_rate cfg)) ->
  0 < input_sample_rate cfg <= INT_MAX ->
  0 < output_sample_rate cfg <= INT_MAX ->
  1 <= Resampler.channels cfg <= 256 ->
  N * output_sample_rate cfg < 2 ^ 53 ->
  estimateOutputSize N (input_sample_rate cfg) (output_sample_rate cfg) =
    to_size_t (d_ceil (d_mul (d_of_Z N) (ratio_ r))) + 256 /\
  (fst (process r input) = Some out ->
   Z.of_nat (length out) <=
     estimateOutputSize N (input_sample_rate cfg) (output_sample_rate cfg)).
Proof.
  intros cfg N Hratio Hin Hout Hch Hfit. split.
  - rewrite Hratio.
    apply (estimate_value N _ _ Hin Hout); [unfold N; lia|exact Hfit].
  - intros Hrun.
    apply (process_within_estimate r input out Hratio Hin Hout Hch Hfit Hrun).
Qed.

(** C5, as the code has it.  A sample that is not a NaN is clamped to
    [-1.0, 1.0] and scaled by 32767; the conversion then drops the fraction
    (towards zero, no rounding), and the result lies in [-32767, 32767]. *)
Theorem floatToInt16_truncates x :
  is_nan x = false -> f_valid x = true ->
  exists z,
    trunc (f_mul (clamp x) (f_of_Z 32767)) = Some z /\
    floatToInt16 x = z /\
    -32767 <= z <= 32767.
Proof. apply floatToInt16_range. Qed.

(** C6.  Every [int16] value [v] comes back from [v / 32768.0f] and the
    capture-side conversion as [v], [v + 1] or [v - 1]: one step nearer to
    zero when [v] is not zero. *)
Theorem int16_roundtrip v :
  -32768 <= v <= 32767 ->
  let w := floatToInt16 (int16ToFloat v) in
  (w = v \/ w = v + 1 \/ w = v - 1) /\
  w = (if 0 <? v then v - 1 else if v <? 0 then v + 1 else 0).
Proof.
  intros Hv w. unfold w. rewrite (roundtrip_exact v Hv).
  split; [|reflexivity].
  destruct (Z.ltb_spec 0 v); [lia|]. destruct (Z.ltb_spec v 0); lia.
Qed.

(** C9, as the code has it.  [process] and [processStreaming] answer an
    empty input with an empty output; [resampler_process] answers a sample
    count of zero (or less) with [-1], its error value, and touches neither
    the output buffer nor the resampler. *)
Theorem zero_length_input r :
  fst (process r []) = Some [] /\
  (forall end_of_input, fst (processStreaming r [] end_of_input) = Some []) /\
  (forall handle input input_samples output output_capacity,
     input_samples <= 0 ->
     resampler_process handle input input_samples output output_capacity =
       Some (mkCResult (-1) output handle)).
Proof.
  assert (Hempty : forall r0, fst (process r0 []) = Some []).
  { intros r0. unfold process, process_ptr. simpl length.
    destruct (initialize r0) as [ok r1]. destruct ok; reflexivity. }
  split; [apply Hempty|]. split.
  - intros e. unfold processStreaming.
    destruct (initialize r) as [ok r1]. destruct ok; [|reflexivity].
    simpl negb. cbv iota. destruct e; [|reflexivity].
    rewrite andb_false_r. apply Hempty.
  - intros handle input n output cap Hn. unfold resampler_process.
    destruct handle, input, output; try reflexivity.
    destruct (Z.leb_spec n 0); [reflexivity|lia].
Qed.

(** C10.  On a block of at least two frames, both frames read for any
    output frame by the loop of [linearUpsample], [src_idx] and
    [src_idx + 1] after the clamp, lie in [0, num_frames - 1], and both reads
    stay inside the input.  With a single frame the [size_t] clamp
    [num_frames - 2] wraps to [2 ^ 64 - 1]; the vector variant returns its
    zero-filled output before any read when there are fewer than two
    frames. *)
Theorem upsample_reads_in_bounds r (input : list float) ch i :
  let c := Resampler.channels (config_ r) in
  let num_frames := Z.of_nat (length input) / c in
  let src_idx := fst (upsample_source r num_frames i) in
  0 < c <= INT_MAX -> Z.of_nat (length input) < 2 ^ 64 -> 0 <= ch < c ->
  (2 <= num_frames ->
   0 <= src_idx /\ src_idx + 1 <= num_frames - 1 /\
   is_Some (load input (uadd (umul src_idx (usize c)) (usize ch))) /\
   is_Some (load input (uadd (umul (uadd src_idx 1) (usize c)) (usize ch)))) /\
  fst (upsample_source r 1 i) = 2 ^ 64 - 1 /\
  (num_frames < 2 ->
   linearUpsample_RVV_early r (Z.of_nat (length input)) =
     Some (replicate (Z.to_nat (umul (output_frames_of r num_frames) c)) f_zero)).
Proof.
  intros c num_frames src_idx [Hc Hmax] Hlen Hch.
  assert (Hcc : usize c = c) by (apply usize_small; unfold INT_MAX in Hmax; lia).
  split; [|split].
  - intros Hframes.
    assert (Hnf : 2 <= num_frames < 2 ^ 64).
    { split; [exact Hframes|].
      apply Z.le_lt_trans with (Z.of_nat (length input)); [|exact Hlen].
      apply Z.div_le_upper_bound; nia. }
    destruct (upsample_source_bounds r num_frames i Hnf) as [Hlo Hhi].
    fold src_idx in Hlo, Hhi.
    split; [exact Hlo|]. split; [exact Hhi|].
    destruct (load_sample input c num_frames src_idx ch Hc eq_refl Hlen
                ltac:(lia) Hch) as (x & Hx & _).
    destruct (load_sample input c num_frames (src_idx + 1) ch Hc eq_refl Hlen
                ltac:(lia) Hch) as (y & Hy & _).
    rewrite Hx. rewrite (uadd_small src_idx 1) by lia. rewrite Hy.
    split; eexists; reflexivity.
  - apply upsample_source_one_frame.
  - intros Hone. unfold linearUpsample_RVV_early. fold c. rewrite Hcc.
    fold num_frames.
    destruct (Z.eqb_spec c 0); [lia|].
    destruct (Z.ltb_spec num_frames 2); [|lia].
    rewrite orb_true_r. reflexivity.
Qed.

(** C4, as the code has it.  Without a registered consumer a call of
    [onAudioData] does nothing: the samples are dropped.  With a consumer
    registered it converts the samples to PCM16, appends them to the buffer
    and hands the consumer the buffered bytes in chunks of exactly
    [chunk_size] bytes, first in first out: the chunks followed by what
    stays buffered are the old buffer followed by the new bytes, and less
    than a chunk stays.  The new bytes are the 16-bit little-endian values
    of the samples, clamped, scaled by 32767 and cut to integers (two bytes
    a sample).  With chunks of 3200 bytes and one channel, 4800 bytes and
    then 1600 bytes give two chunks of 3200 bytes and an empty buffer; 100
    bytes give no chunk and stay buffered. *)
Theorem chunk_accumulator fuel s (data : list float) frames ch :
  0 < chunk_size s <= INT_MAX ->
  0 <= frames -> 0 <= ch <= INT_MAX -> frames * ch <= Z.of_nat (length data) ->
  Z.of_nat (length (buffer s)) + 2 * (frames * ch) < 2 ^ 64 ->
  (Z.of_nat (length (buffer s)) + 2 * (frames * ch)) / chunk_size s
    < Z.of_nat fuel ->
  (user_callback s = false ->
   onAudioData fuel s data frames ch = Some (s, [])) /\
  (user_callback s = true ->
   exists rest chunks,
     let bytes := buffer s ++ pcm16 (take (Z.to_nat (frames * ch)) data) in
     onAudioData fuel s data frames ch = Some (with_buffer s rest, chunks) /\
     mjoin chunks ++ rest = bytes /\
     Forall (fun chunk => Z.of_nat (length chunk) = chunk_size s) chunks /\
     Z.of_nat (length rest) < chunk_size s /\
     Z.of_nat (length chunks) = Z.of_nat (length bytes) / chunk_size s /\
     Z.of_nat (length rest) = Z.of_nat (length bytes) mod chunk_size s) /\
  (forall samples : list float,
     length (pcm16 samples) = (2 * length samples)%nat /\
     (Forall (fun x => is_nan x = false /\ f_valid x = true) samples ->
      pcm16_bytes samples = Some (pcm16 samples))) /\
  (forall fuel2 s0 (data1 data2 : list float),
     user_callback s0 = true -> chunk_size s0 = 3200 -> buffer s0 = [] ->
     length data1 = 2400%nat -> length data2 = 800%nat -> (2 <= fuel2)%nat ->
     exists s1 s2 chunk1 chunk2,
       onAudioData fuel2 s0 data1 2400 1 = Some (s1, [chunk1]) /\
       onAudioData fuel2 s1 data2 800 1 = Some (s2, [chunk2]) /\
       length chunk1 = 3200%nat /\ length chunk2 = 3200%nat /\
       buffer s2 = [] /\
       chunk1 ++ chunk2 = pcm16 (data1 ++ data2)) /\
  (forall fuel1 s0 (data0 : list float),
     user_callback s0 = true -> chunk_size s0 = 3200 -> buffer s0 = [] ->
     length data0 = 50%nat -> (1 <= fuel1)%nat ->
     exists s1,
       onAudioData fuel1 s0 data0 50 1 = Some (s1, []) /\
       buffer s1 = pcm16 data0 /\ length (buffer s1) = 100%nat).
Proof.
  intros Hcs Hfr Hch Hdata Hfit Hfuel. split; [|split; [|split; [|split]]].
  - intros Hcb. unfold onAudioData. rewrite Hcb. reflexivity.
  - intros Hcb.
    destruct (onAudioData_delivers fuel s data frames ch Hcb Hcs Hfr Hch Hdata
                Hfit Hfuel) as (rest & chunks & Hrun & Hjoin & Hall & Hrest).
    exists rest, chunks. cbv zeta.
    destruct (chunk_count (chunk_size s) _ rest chunks ltac:(lia) Hjoin Hall
                Hrest) as [Hcount Hmod].
    repeat split; assumption || lia.
  - intros samples. split; [apply length_pcm16|apply pcm16_follows_rule].
  - intros. now apply scenario_two_chunks.
  - intros. now apply scenario_no_chunk.
Qed.

End WithPlatform.

(** *** Runs on the RISC-V target *)

#[local] Existing Instance riscv_fcvt.
Import Samples.

Ltac by_run :=
  first [ reflexivity
        | apply Z.leb_le; reflexivity
        | apply Z.ltb_lt; reflexivity
        | split; by_run ].

(** Doubling a ramp of four frames: frame 1 lies halfway between input
    frames 0 and 1, frame 7 is past the end and is the last input frame. *)
Lemma upsample_follows_rule_run :
  exists output,
    linearUpsample doubling (ramp 4) 4 = Some output /\
    Z.of_nat (length output) = 8 /\
    output !! 1%nat = Some (binary_normalize 24 128 1 (-8) false) /\
    output !! 7%nat = ramp 4 !! 3%nat.
Proof.
  pose proof (upsample_follows_rule doubling (ramp 4)) as Hw. cbv zeta in Hw.
  destruct Hw as (output & Hrun & Hlen & Hall); [by_run..|].
  exists output. split; [exact Hrun|]. split; [exact Hlen|].
  destruct (Hall 0 1) as (x & Hx & Hrule & _); [by_run..|].
  destruct (Hall 0 7) as (y & Hy & Hlast & _); [by_run..|].
  rewrite <- Hrule in Hx. rewrite <- Hlast in Hy.
  split; [exact Hx|exact Hy].
Defined.

(** An infinite sample in the frame before the last: from the boundary on
    the blend is [inf * 0.0 + 1.0 * 1.0], a NaN, where the last input sample
    is [1.0]. *)
Lemma upsampled_infinite_neighbour :
  linearUpsample doubling [S754_infinity false; f_one] 2 =
    Some [S754_infinity false; S754_infinity false; S754_nan; S754_nan] /\
  output_frames_of doubling 2 = 4 /\
  2 - 1 <= index (ratio_ doubling) 2 /\
  last [S754_infinity false; f_one] = Some f_one /\
  SFeqb S754_nan f_one = false.
Proof. repeat split; reflexivity. Qed.



Lemma estimate_covers_process_run :
  exists out,
    fst (process doubling (ramp 4)) = Some out /\
    Z.of_nat (length out) <= estimateOutputSize 4 8000 16000.
Proof.
  destruct (fst (process doubling (ramp 4))) as [out|] eqn:Hrun.
  - exists out. split; [reflexivity|].
    pose proof (estimate_covers_process doubling (ramp 4) out) as Hw.
    cbv zeta in Hw.
    destruct Hw as [_ Hw]; [by_run..|]. exact (Hw Hrun).
  - lazy in Hrun. discriminate Hrun.
Defined.

(** One frame on 309 channels, 48 kHz to 8 kHz: 309 samples come out where
    the estimate is 308.  And the estimate for 441 samples, 44.1 kHz to
    48 kHz, is 737, one more than the ceiling of the exact quotient plus
    256. *)
Lemma estimate_exceeded :
  exists out,
    fst (process many_channels (replicate 309 f_zero)) = Some out /\
    Z.of_nat (length out) = 309 /\
    estimateOutputSize 309 48000 8000 = 308 /\
    estimateOutputSize 441 44100 48000 = 737 /\
    (441 * 48000 + 44100 - 1) / 44100 + 256 = 736.
Proof.
  eexists. split; [lazy; reflexivity|]. repeat split; reflexivity.
Qed.

Lemma floatToInt16_truncates_run :
  exists z,
    trunc (f_mul (clamp quarter) (f_of_Z 32767)) = Some z /\
    floatToInt16 quarter = z /\
    -32767 <= z <= 32767.
Proof. exact (floatToInt16_truncates quarter eq_refl eq_refl). Defined.

(** A quarter of full scale: [0.25 * 32767 = 8191.75] becomes 8191, where
    rounding gives 8192. *)
Lemma floatToInt16_does_not_round :
  floatToInt16 quarter = 8191 /\ floatToInt16_rounding quarter = Some 8192.
Proof. split; reflexivity. Qed.

Lemma int16_roundtrip_run : floatToInt16 (int16ToFloat 1000) = 999.
Proof. exact (proj2 (int16_roundtrip 1000 ltac:(by_run))). Defined.

(** Doubling the rate of a block of [2 ^ 30] samples gives [2 ^ 31]
    samples, a count that is negative as an [int]: no capacity is below
    it, so the copy is made whatever the capacity. *)
Lemma doubling_overflow (inp out : list float) (output_capacity : Z) :
  let handle := snd (initialize doubling) in
  Z.of_nat (length inp) = 2 ^ 30 ->
  - 2 ^ 31 <= output_capacity ->
  exists result,
    process_ptr handle inp (usize (2 ^ 30)) = (Some result, handle) /\
    Z.of_nat (length result) = 2 ^ 31 /\
    to_int (Z.of_nat (length result)) = - 2 ^ 31 /\
    (Z.of_nat (length out) < 2 ^ 31 ->
     resampler_process (Some handle) (Some inp) (2 ^ 30) (Some out)
       output_capacity = None) /\
    (2 ^ 31 <= Z.of_nat (length out) ->
     resampler_process (Some handle) (Some inp) (2 ^ 30) (Some out)
       output_capacity =
       Some (mkCResult (- 2 ^ 31) (Some (result ++ drop (length result) out))
               (Some handle))).
Proof.
  intros handle Hlen Hcap.
  assert (Hframes : output_frames_of handle (2 ^ 30) = 2 ^ 31) by reflexivity.
  destruct (linearUpsample_run handle inp) as (result & Hrun & Hsize & _).
  - reflexivity.
  - rewrite Hlen. reflexivity.
  - rewrite Hlen. apply Z.leb_le. reflexivity.
  - rewrite Hlen. change (2 ^ 30 / Resampler.channels (config_ handle)) with (2 ^ 30).
    rewrite Hframes. reflexivity.
  - rewrite Hlen in Hrun, Hsize.
    change (2 ^ 30 / Resampler.channels (config_ handle)) with (2 ^ 30) in Hsize.
    rewrite Hframes in Hsize.
    change (2 ^ 31 * Resampler.channels (config_ handle)) with (2 ^ 31) in Hsize.
    assert (Hproc : process_ptr handle inp (usize (2 ^ 30)) = (Some result, handle)).
    { rewrite <- Hrun. reflexivity. }
    exists result. split; [exact Hproc|]. split; [exact Hsize|].
    split; [rewrite Hsize; reflexivity|].
    unfold resampler_process.
    change (2 ^ 30 <=? 0) with false. cbv iota.
    rewrite Hproc. cbv beta iota zeta. rewrite Hsize.
    change (to_int (2 ^ 31)) with (- 2 ^ 31).
    destruct (Z.ltb_spec output_capacity (- 2 ^ 31)); [lia|].
    split; intros Hout.
    + destruct (Z.leb_spec (2 ^ 31) (Z.of_nat (length out))); [lia|reflexivity].
    + destruct (Z.leb_spec (2 ^ 31) (Z.of_nat (length out))); [reflexivity|lia].
Qed.

(** C8.  A converter from 8 kHz to 16 kHz, a block of [2 ^ 30] samples, a
    buffer of 16 samples and a capacity of 16: the result has [2 ^ 31]
    samples, far more than the capacity, but its count as an [int] is
    [- 2 ^ 31], the test against the capacity lets it through, and the copy
    runs past the end of the buffer (the call is undefined) where [-1] and
    an untouched buffer are due. *)
Theorem capacity_check_overflows :
  let input := replicate (Z.to_nat (2 ^ 30)) f_zero in
  let output := replicate 16 f_zero in
  exists handle result,
    resampler_create 8000 16000 1 RESAMPLE_METHOD_LINEAR = Some handle /\
    process_ptr handle input (usize (2 ^ 30)) = (Some result, handle) /\
    Z.of_nat (length result) = 2 ^ 31 /\
    16 < Z.of_nat (length result) /\
    to_int (Z.of_nat (length result)) = - 2 ^ 31 /\
    resampler_process (Some handle) (Some input) (2 ^ 30) (Some output) 16
      = None.
Proof.
  intros input output.
  assert (Hlen : Z.of_nat (length input) = 2 ^ 30).
  { unfold input. rewrite length_replicate. apply Z2Nat.id.
    apply Z.leb_le. reflexivity. }
  assert (Hout : Z.of_nat (length output) < 2 ^ 31)
    by (apply Z.ltb_lt; reflexivity).
  destruct (doubling_overflow input output 16 Hlen)
    as (result & Hrun & Hsize & Hint & Hnone & _).
  - apply Z.leb_le. reflexivity.
  - exists (snd (initialize doubling)), result.
    split; [reflexivity|]. split; [exact Hrun|]. split; [exact Hsize|].
    split; [rewrite Hsize; apply Z.ltb_lt; reflexivity|].
    split; [exact Hint|]. exact (Hnone Hout).
Qed.

(** No samples: [process] returns none, [resampler_process] returns -1. *)
Lemma zero_length_is_an_error :
  fst (process doubling []) = Some [] /\
  resampler_process (Some doubling) (Some []) 0 (Some []) 0 =
    Some (mkCResult (-1) (Some []) (Some doubling)) /\
  returned (mkCResult (-1) (Some []) (Some doubling)) < 0.
Proof. repeat split; reflexivity. Qed.

Lemma upsample_reads_in_bounds_run :
  0 <= fst (upsample_source doubling 4 7) /\
  fst (upsample_source doubling 4 7) + 1 <= 3.
Proof.
  pose proof (upsample_reads_in_bounds doubling (ramp 4) 0 7) as Hw.
  cbv zeta in Hw.
  destruct Hw as [Hw _]; [by_run..|].
  destruct Hw as (Hlo & Hhi & _); [by_run|].
  split; [exact Hlo|exact Hhi].
Defined.

Lemma chunk_accumulator_run :
  exists s1,
    onAudioData 1 listening (ramp 50) 50 1 = Some (s1, []) /\
    pcm16_bytes (ramp 50) = Some (buffer s1) /\ length (buffer s1) = 100%nat.
Proof.
  pose proof (chunk_accumulator 1 listening (ramp 50) 50 1) as Hw.
  cbv zeta in Hw.
  destruct Hw as (_ & _ & Hrule & _ & Hw); [by_run..|].
  destruct (Hw 1%nat listening (ramp 50)) as (s1 & Hrun & Hbuf & Hlen);
    [by_run..|].
  exists s1. split; [exact Hrun|]. split; [|exact Hlen].
  rewrite Hbuf. apply (Hrule (ramp 50)).
  repeat (constructor; [split; reflexivity|]). constructor.
Defined.

(** A capture object started without a consumer: the block delivered is
    dropped, nothing is buffered. *)
Lemma delivery_without_consumer :
  let s := snd (Start default_AudioConfig true true
                  (create default_AudioConfig (-1)) 16000 1 3200) in
  user_callback s = false /\ chunk_size s = 3200 /\
  length (pcm16 (ramp 50)) = 100%nat /\
  exists s1,
    onAudioData 1 s (ramp 50) 50 1 = Some (s1, []) /\ buffer s1 = [].
Proof.
  repeat split; try reflexivity. eexists. split; reflexivity.
Qed.

(** C7.  [Init(const AudioConfig&)] installs a configuration without
    looking at it, where the five-argument [Init] keeps the old chunk size
    when the new one is not positive.  With [chunk_size = -1] installed
    that way, [Start()] adopts it, and a block of 50 samples leaves 100
    bytes buffered, which is not less than the chunk size; nothing is
    delivered.  With [chunk_size = 0] the delivery loop of [onAudioData]
    never ends, whatever the fuel. *)
Theorem unvalidated_chunk_size :
  let st0 := (default_AudioConfig, create default_AudioConfig (-1)) in
  let installed cs := mkAudioConfig 16000 1 cs (-1) (-1) in
  let calls cs :=
    [EvInitConfig (installed cs); EvSetCallback true;
     EvStart true true (-1) (-1) (-1)] in
  (exists s,
     run st0 (calls (-1) ++ [EvAudio 1 (ramp 50) 50 1]) =
       Some (installed (-1), s, []) /\
     chunk_size s = -1 /\
     buffer s = pcm16 (ramp 50) /\
     Z.of_nat (length (buffer s)) = 100 /\
     ~ Z.of_nat (length (buffer s)) < chunk_size s) /\
  (exists s,
     run st0 (calls 0) = Some (installed 0, s, []) /\
     chunk_size s = 0 /\
     forall fuel, onAudioData fuel s (ramp 50) 50 1 = None) /\
  cfg_chunk_size (Init default_AudioConfig 16000 1 (-1) (-1) (-1)) = 3200 /\
  cfg_chunk_size (Init default_AudioConfig 16000 1 0 (-1) (-1)) = 3200.
Proof.
  cbv zeta. split; [|split; [|split; reflexivity]].
  - eexists. split; [lazy; reflexivity|].
    split; [reflexivity|]. split; [reflexivity|]. split; [reflexivity|].
    intros Hlt. apply Z.ltb_lt in Hlt. discriminate Hlt.
  - eexists. split; [reflexivity|]. split; [reflexivity|].
    intros fuel. apply onAudioData_zero_chunk; reflexivity.
Qed.

End Contract.

(** ** Further properties of the resampler *)
Module ResamplerBehaviour.
Import Int Fp Resampler Rules Round.
Import IntFacts ResamplerFacts FpFacts SizeFacts.

(** Whether [initialize] accepts a configuration. *)
Lemma initialize_false r :
  fst (initialize r) = false ->
  initialize r = (false, r) /\ initialized_ r = false /\
  (input_sample_rate (config_ r) <= 0 \/ output_sample_rate (config_ r) <= 0 \/
   channels (config_ r) <= 0).
Proof.
  unfold initialize. destruct (initialized_ r); [discriminate|].
  destruct (Z.leb_spec (input_sample_rate (config_ r)) 0);
    [intros _; repeat split; lia|].
  destruct (Z.leb_spec (output_sample_rate (config_ r)) 0);
    [intros _; repeat split; lia|].
  destruct (Z.leb_spec (channels (config_ r)) 0);
    [intros _; repeat split; lia|].
  discriminate.
Qed.

Lemma initialize_true r :
  fst (initialize r) = true ->
  initialized_ (snd (initialize r)) = true /\
  (initialized_ r = true -> snd (initialize r) = r).
Proof.
  unfold initialize. destruct (initialized_ r) eqn:Hi; [intros _; now split|].
  destruct (_ || _); [discriminate|]. destruct (_ <=? _); [discriminate|].
  intros _. split; [reflexivity|discriminate].
Qed.

Lemma initialize_again r :
  initialize (snd (initialize r)) = (fst (initialize r), snd (initialize r)).
Proof.
  destruct (fst (initialize r)) eqn:Hok.
  - destruct (initialize_true r Hok) as [Hi _].
    unfold initialize at 1. now rewrite Hi.
  - destruct (initialize_false r Hok) as (Heq & _). rewrite Heq. exact Heq.
Qed.

(** X1.  An uninitialised resampler is accepted by [initialize] exactly when
    both rates and the channel count are positive.  A refused one is left
    as it was; an accepted one keeps its rates, channels and ratio, and its
    method becomes one of the two linear ones (unchanged if it already
    was). *)
Theorem initialize_validates r :
  initialized_ r = false ->
  let cfg := config_ r in
  let r' := snd (initialize r) in
  (fst (initialize r) = true <->
   0 < input_sample_rate cfg /\ 0 < output_sample_rate cfg /\ 0 < channels cfg) /\
  (fst (initialize r) = false -> r' = r) /\
  (fst (initialize r) = true ->
   initialized_ r' = true /\
   input_sample_rate (config_ r') = input_sample_rate cfg /\
   output_sample_rate (config_ r') = output_sample_rate cfg /\
   channels (config_ r') = channels cfg /\
   ratio_ r' = ratio_ r /\
   methodRequiresLibsamplerate (method (config_ r')) = false /\
   (methodRequiresLibsamplerate (method cfg) = false ->
    method (config_ r') = method cfg)).
Proof.
  intros Hi cfg r'. subst cfg r'. unfold initialize. rewrite Hi.
  destruct (Z.leb_spec (input_sample_rate (config_ r)) 0);
    [simpl; repeat split; intros; try discriminate; lia|].
  destruct (Z.leb_spec (output_sample_rate (config_ r)) 0);
    [simpl; repeat split; intros; try discriminate; lia|].
  destruct (Z.leb_spec (channels (config_ r)) 0);
    [simpl; repeat split; intros; try discriminate; lia|].
  simpl. split; [split; [lia|reflexivity]|]. split; [discriminate|].
  intros _.
  destruct (methodRequiresLibsamplerate (method (config_ r))) eqn:Hm; simpl.
  - repeat split; try discriminate. now destruct (isUpsampling r).
  - repeat split. exact Hm.
Qed.

(** X2.  A resampler whose configuration is refused converts nothing: every
    call of [process] and of [processStreaming] returns an empty vector and
    leaves the object as it was. *)
Theorem invalid_configuration_converts_nothing `{Platform} r :
  fst (initialize r) = false ->
  (forall input num_samples, process_ptr r input num_samples = (Some [], r)) /\
  (forall input, process r input = (Some [], r)) /\
  (forall input end_of_input,
     processStreaming r input end_of_input = (Some [], r)).
Proof.
  intros Hbad. destruct (initialize_false r Hbad) as (Heq & _).
  assert (Hptr : forall input n, process_ptr r input n = (Some [], r)).
  { intros input n. unfold process_ptr. now rewrite Heq. }
  split; [exact Hptr|]. split; [intros; apply Hptr|].
  intros input e. unfold processStreaming. now rewrite Heq.
Qed.

(** The object after [process] is the object after [initialize]. *)
Lemma process_ptr_state `{Platform} r input n :
  snd (process_ptr r input n) = snd (initialize r).
Proof.
  unfold process_ptr. destruct (initialize r) as [ok r']. simpl.
  destruct ok; [|reflexivity]. simpl.
  destruct (n =? 0); [reflexivity|].
  destruct (_ =? _); [reflexivity|].
  destruct (method (config_ r')); try reflexivity;
    destruct (isUpsampling r'); reflexivity.
Qed.

Lemma process_ptr_initialized `{Platform} r input n :
  process_ptr (snd (initialize r)) input n = process_ptr r input n.
Proof.
  unfold process_ptr. rewrite initialize_again.
  destruct (initialize r) as [ok r']. reflexivity.
Qed.

(** X3.  With equal input and output rates an accepted resampler returns
    its input as it is, whatever the method and the channel count. *)
Theorem equal_rates_copy `{Platform} r (input : list float) :
  fst (initialize r) = true ->
  input_sample_rate (config_ r) = output_sample_rate (config_ r) ->
  fst (process r input) = Some input.
Proof.
  intros Hok Hrates. unfold process, process_ptr.
  pose proof (initialize_keeps r) as (Hin & Hout & _). cbv zeta in Hin, Hout.
  destruct (initialize r) as [ok r']. simpl in *. subst ok. simpl.
  destruct (Z.eqb_spec (Z.of_nat (length input)) 0) as [H0|H0].
  - destruct input; [reflexivity|discriminate].
  - rewrite Hin, Hout, Hrates, Z.eqb_refl. simpl. unfold copy_samples.
    rewrite Z.leb_refl, Nat2Z.id. now rewrite firstn_all.
Qed.

(** X4.  In this build the streaming entry point is the single-shot one:
    [processStreaming] returns what [process] returns and leaves the same
    object, for every input and either value of [end_of_input]. *)
Theorem streaming_is_single_shot `{Platform} r (input : list float)
    (end_of_input : bool) :
  processStreaming r input end_of_input = process r input.
Proof.
  unfold processStreaming.
  destruct (initialize r) as [ok r'] eqn:Hinit.
  assert (Hr' : r' = snd (initialize r)) by now rewrite Hinit.
  destruct ok; simpl.
  - assert (Hsame : process r' input = process r input).
    { unfold process. rewrite Hr'. apply process_ptr_initialized. }
    destruct (bool_decide (input = [])) eqn:Hempty; simpl; [|exact Hsame].
    destruct end_of_input; simpl; [exact Hsame|].
    apply bool_decide_eq_true in Hempty. subst input.
    unfold process, process_ptr. rewrite Hinit. reflexivity.
  - unfold process, process_ptr. rewrite Hinit. reflexivity.
Qed.

(** X5.  The linear resampler keeps nothing from one block to the next:
    after [process] the object is the initialised one, and a block is
    converted to the same samples whatever was converted before it. *)
Theorem blocks_are_independent `{Platform} r (first second : list float) :
  snd (process r first) = snd (initialize r) /\
  process (snd (process r first)) second = process (snd (initialize r)) second /\
  fst (process (snd (process r first)) second) = fst (process r second).
Proof.
  unfold process. rewrite process_ptr_state, process_ptr_initialized.
  repeat split.
Qed.

(** The ratio of two positive [int] rates against an integer [K]: the
    rounded quotient is on the same side of [K] as the exact one. *)
Lemma ratio_between input_rate output_rate K :
  0 < input_rate <= INT_MAX -> 0 < output_rate <= INT_MAX -> 0 < K ->
  let ratio := d_div (d_of_Z output_rate) (d_of_Z input_rate) in
  (output_rate <= K * input_rate -> mag_le false ratio K 0) /\
  (K * input_rate <= output_rate -> mag_ge false ratio K 0).
Proof.
  unfold INT_MAX. intros Hin Hout HK. cbv zeta.
  assert (Hd : forall z, 0 < z <= 2 ^ 31 - 1 -> 1 <= Zdigits2 z <= 31).
  { intros z Hz. split; [pose proof (RoundFacts.Zdigits2_pos z); lia|].
    apply RoundFacts.Zdigits2_le; lia. }
  pose proof (Hd _ Hin) as Hd2. pose proof (Hd _ Hout) as Hd1.
  rewrite (d_of_Z_exact output_rate), (d_of_Z_exact input_rate) by lia.
  set (d1 := Zdigits2 output_rate) in *. set (d2 := Zdigits2 input_rate) in *.
  assert (HP1 : 0 < 2 ^ (53 - d1)) by (apply Z.pow_pos_nonneg; lia).
  assert (HP2 : 0 < 2 ^ (53 - d2)) by (apply Z.pow_pos_nonneg; lia).
  set (M1 := Z.to_pos (output_rate * 2 ^ (53 - d1))).
  set (M2 := Z.to_pos (input_rate * 2 ^ (53 - d2))).
  assert (HM1 : Zpos M1 = output_rate * 2 ^ (53 - d1))
    by (unfold M1; rewrite Z2Pos.id; nia).
  assert (HM2 : Zpos M2 = input_rate * 2 ^ (53 - d2))
    by (unfold M2; rewrite Z2Pos.id; nia).
  assert (HdM1 : Zdigits2 (Zpos M1) = 53)
    by (rewrite HM1, RoundFacts.Zdigits2_mul_pow2 by lia; fold d1; lia).
  assert (HdM2 : Zdigits2 (Zpos M2) = 53)
    by (rewrite HM2, RoundFacts.Zdigits2_mul_pow2 by lia; fold d2; lia).
  assert (He' : Z.min (fexp 53 1024 (Zdigits2 (Zpos M1) + (d1 - 53)
                                      - (Zdigits2 (Zpos M2) + (d2 - 53))))
                      (d1 - 53 - (d2 - 53)) = d1 - d2 - 53)
    by (rewrite HdM1, HdM2; unfold fexp, emin; lia).
  assert (Hs : d1 - 53 - (d2 - 53) - (d1 - d2 - 53) = 53) by lia.
  set (q := Zpos M1 * 2 ^ 53 / Zpos M2).
  assert (HM2lo : 2 ^ 52 <= Zpos M2).
  { pose proof (RoundFacts.Zdigits2_bounds (Zpos M2) ltac:(lia)) as [Hlo _].
    now rewrite HdM2 in Hlo. }
  assert (HM1hi : Zpos M1 < 2 ^ 53).
  { pose proof (RoundFacts.Zdigits2_bounds (Zpos M1) ltac:(lia)) as [_ Hhi].
    now rewrite HdM1 in Hhi. }
  assert (Hq : 0 <= q < 2 ^ 54).
  { unfold q. split; [apply Z.div_pos; lia|].
    apply Z.div_lt_upper_bound; [lia|].
    assert (2 ^ 54 = 2 ^ 53 * 2 /\ 2 ^ 53 = 2 ^ 52 * 2) as [E54 E53]
      by (split; reflexivity).
    rewrite E54. nia. }
  assert (Hdq : Zdigits2 q <= 54) by (apply RoundFacts.Zdigits2_le; lia).
  assert (Hgrid : round_exp 53 1024 q (d1 - d2 - 53) <= -22)
    by (unfold round_exp, fexp, emin; lia).
  assert (Hpow : 2 ^ (0 - (d1 - d2 - 53)) * 2 ^ (53 - d2) = 2 ^ 53 * 2 ^ (53 - d1)).
  { rewrite <- !Z.pow_add_r by lia. f_equal. lia. }
  assert (HQ : 0 < 2 ^ (0 - (d1 - d2 - 53))) by (apply Z.pow_pos_nonneg; lia).
  assert (Hside : K * 2 ^ (0 - (d1 - d2 - 53)) * (input_rate * 2 ^ (53 - d2)) =
                  K * input_rate * (2 ^ 53 * 2 ^ (53 - d1))).
  { rewrite <- Hpow. ring. }
  split; intros Hle; change false with (xorb false false) at 1.
  - apply RoundFacts.SFdiv_below; rewrite ?He', ?Hs; fold q; try lia.
    rewrite HM1, HM2, Hside. nia.
  - apply RoundFacts.SFdiv_above; rewrite ?He', ?Hs; fold q; try lia.
    rewrite HM1, HM2, Hside. nia.
Qed.

Section Frames.
Context `{Platform}.

(** The frame count against integer multiples of the input frames. *)
Lemma frames_sandwich input_rate output_rate n :
  0 < input_rate <= INT_MAX -> 0 < output_rate <= INT_MAX ->
  0 <= n -> n * output_rate < 2 ^ 53 ->
  let ratio := d_div (d_of_Z output_rate) (d_of_Z input_rate) in
  let f := to_size_t (d_ceil (d_mul (d_of_Z n) ratio)) in
  0 <= f <= n * output_rate /\
  (forall K, 0 < K -> output_rate <= K * input_rate -> n * K < 2 ^ 53 ->
     f <= n * K) /\
  (forall K, 0 < K -> K * input_rate <= output_rate -> n * K <= f).
Proof.
  intros Hin Hout Hn Hfit ratio f.
  destruct (ratio_bounds input_rate output_rate Hin Hout) as (Hle & _ & Hexp).
  pose proof (ratio_between input_rate output_rate) as Hbetween.
  cbv zeta in Hbetween. fold ratio in Hle, Hexp, Hbetween. subst f.
  destruct ratio as [s|s| |s m e]; simpl in Hle; try contradiction.
  - destruct Hle as [-> _].
    assert (d_mul (d_of_Z n) (S754_zero false) = S754_zero false) as ->.
    { destruct (Z.eq_dec n 0) as [->|]; [reflexivity|].
      rewrite d_of_Z_exact by nia. reflexivity. }
    simpl d_ceil. rewrite to_size_t_zero.
    split; [nia|]. split; [intros; nia|].
    intros K HK Hlow.
    destruct (Hbetween K Hin Hout HK) as [_ Hge].
    specialize (Hge Hlow). simpl in Hge. lia.
  - destruct Hle as [-> Hsc]. specialize (Hexp _ _ _ eq_refl).
    apply (RoundFacts.scaled_le_at e) in Hsc; [|lia..].
    rewrite Z.sub_diag in Hsc. change (2 ^ 0) with 1 in Hsc.
    replace (0 - e) with (- e) in Hsc by lia.
    assert (HD : 0 < 2 ^ (- e)) by (apply Z.pow_pos_nonneg; lia).
    assert (Hn53 : 0 <= n < 2 ^ 53) by nia.
    destruct (frames_bounds m e n (n * output_rate) Hexp Hn53 ltac:(nia) Hfit)
      as [Hf Hlow].
    split; [exact Hf|]. split.
    + intros K HK Hhigh HnK.
      destruct (Hbetween K Hin Hout HK) as [Hle' _].
      specialize (Hle' Hhigh). destruct Hle' as [_ Hsc'].
      apply (RoundFacts.scaled_le_at e) in Hsc'; [|lia..].
      rewrite Z.sub_diag in Hsc'. change (2 ^ 0) with 1 in Hsc'.
      replace (0 - e) with (- e) in Hsc' by lia.
      now destruct (frames_bounds m e n (n * K) Hexp Hn53 ltac:(nia) HnK).
    + intros K HK Hlow'.
      destruct (Hbetween K Hin Hout HK) as [_ Hge].
      specialize (Hge Hlow'). destruct Hge as [_ Hsc'].
      apply (RoundFacts.scaled_le_at e) in Hsc'; [|lia..].
      rewrite Z.sub_diag in Hsc'. change (2 ^ 0) with 1 in Hsc'.
      replace (0 - e) with (- e) in Hsc' by lia.
      apply Hlow. nia.
Qed.

(** What an accepted resampler returns for a block that is not empty. *)
Lemma process_accepted r (input out : list float) :
  fst (initialize r) = true -> input <> [] ->
  fst (process r input) = Some out ->
  let c := usize (channels (config_ r)) in
  let N := Z.of_nat (length input) in
  (input_sample_rate (config_ r) = output_sample_rate (config_ r) /\ out = input) \/
  (input_sample_rate (config_ r) <> output_sample_rate (config_ r) /\
   Z.of_nat (length out) = umul (output_frames_of r (N / c)) c).
Proof.
  intros Hok Hne Hrun c N. unfold process, process_ptr in Hrun.
  pose proof (initialize_keeps r) as (Hin & Hout & Hch & Hratio). cbv zeta in Hin.
  destruct (initialize r) as [ok r']. simpl snd in *. simpl in Hok. subst ok.
  fold N in Hrun.
  assert (Hframes : forall X, output_frames_of r' X = output_frames_of r X)
    by (intros X; unfold output_frames_of; now rewrite Hratio).
  simpl negb in Hrun. cbv iota in Hrun.
  destruct (Z.eqb_spec N 0) as [H0|H0];
    [destruct input; [congruence|discriminate H0]|].
  rewrite Hin, Hout in Hrun.
  destruct (Z.eqb_spec (input_sample_rate (config_ r)) (output_sample_rate (config_ r)))
    as [Heq|Hdiff].
  - left. split; [exact Heq|]. simpl in Hrun. unfold copy_samples in Hrun.
    rewrite Z.leb_refl in Hrun. unfold N in Hrun.
    rewrite Nat2Z.id, take_ge in Hrun by lia. congruence.
  - right. split; [exact Hdiff|]. unfold c. rewrite <- Hch, <- Hframes.
    destruct (method (config_ r')); simpl in Hrun;
      try (now apply linearUpsample_length in Hrun);
      try (now apply linearDownsample_length in Hrun);
      destruct (isUpsampling r'); simpl in Hrun;
      try (now apply linearUpsample_length in Hrun);
      now apply linearDownsample_length in Hrun.
Qed.

(** X6.  When the output rate is [k] times the input rate, [k] a positive
    integer, a block of [n] frames gives exactly [k * n] frames: the
    upsampling path returns [k * n * channels] samples. *)
Theorem integer_ratio_frames r k (input : list float) :
  let cfg := config_ r in
  let c := channels cfg in
  let N := Z.of_nat (length input) in
  ratio_ r = d_div (d_of_Z (output_sample_rate cfg))
                   (d_of_Z (input_sample_rate cfg)) ->
  0 < input_sample_rate cfg -> 0 < k ->
  output_sample_rate cfg = k * input_sample_rate cfg ->
  output_sample_rate cfg <= INT_MAX ->
  0 < c -> 2 <= N / c -> N * output_sample_rate cfg < 2 ^ 53 ->
  output_frames_of r (N / c) = k * (N / c) /\
  exists output,
    linearUpsample r input N = Some output /\
    Z.of_nat (length output) = k * (N / c) * c.
Proof.
  intros cfg c N Hratio Hin Hk Hmul Hmax Hc Hframes Hfit.
  assert (Hn : 0 <= N / c <= N).
  { split; [lia|]. apply Z.div_le_upper_bound; [lia|]. unfold N. nia. }
  assert (Hnc : N / c * c <= N) by (rewrite Z.mul_comm; apply Z.mul_div_le; lia).
  assert (Hcount : output_frames_of r (N / c) = k * (N / c)).
  { unfold output_frames_of. rewrite Hratio. fold cfg.
    destruct (frames_sandwich (input_sample_rate cfg) (output_sample_rate cfg)
                (N / c)) as (_ & Hhi & Hlo); [nia|lia|lia|nia|].
    specialize (Hhi k Hk ltac:(lia) ltac:(nia)).
    specialize (Hlo k Hk ltac:(lia)). lia. }
  split; [exact Hcount|].
  destruct (linearUpsample_run r input) as (output & Hrun & Hlen & _);
    fold cfg c N; try assumption; try (unfold N; lia).
  - rewrite Hcount. nia.
  - exists output. fold cfg c N in Hrun, Hlen. rewrite Hcount in Hlen.
    split; assumption.
Qed.

(** The frame count of an accepted resampler, as a plain product. *)
Lemma linear_sample_count r (input out : list float) :
  let cfg := config_ r in
  let c := channels cfg in
  let N := Z.of_nat (length input) in
  ratio_ r = d_div (d_of_Z (output_sample_rate cfg))
                   (d_of_Z (input_sample_rate cfg)) ->
  0 < input_sample_rate cfg <= INT_MAX ->
  0 < output_sample_rate cfg <= INT_MAX ->
  0 < c <= INT_MAX -> N * output_sample_rate cfg < 2 ^ 53 ->
  Z.of_nat (length out) = umul (output_frames_of r (N / usize c)) (usize c) ->
  let f := output_frames_of r (N / c) in
  Z.of_nat (length out) = f * c /\
  0 <= N / c /\ N / c * c <= N /\
  (output_sample_rate cfg <= input_sample_rate cfg -> f <= N / c) /\
  (input_sample_rate cfg <= output_sample_rate cfg -> N / c <= f).
Proof.
  intros cfg c N Hratio Hin Hout Hc Hfit Hlen f.
  assert (Hcc : usize c = c) by (apply usize_small; unfold INT_MAX in Hc; lia).
  rewrite Hcc in Hlen. fold f in Hlen.
  assert (Hn : 0 <= N / c <= N).
  { split; [apply Z.div_pos; unfold N; lia|].
    apply Z.div_le_upper_bound; [lia|]. unfold N. nia. }
  assert (Hnc : N / c * c <= N) by (rewrite Z.mul_comm; apply Z.mul_div_le; lia).
  assert (Hfr : f = to_size_t (d_ceil (d_mul (d_of_Z (N / c))
                     (d_div (d_of_Z (output_sample_rate cfg))
                            (d_of_Z (input_sample_rate cfg)))))).
  { unfold f, output_frames_of. now rewrite Hratio. }
  destruct (frames_sandwich (input_sample_rate cfg) (output_sample_rate cfg)
              (N / c) Hin Hout) as (Hf & Hhi & Hlo); [lia|nia|].
  rewrite <- Hfr in Hf, Hhi, Hlo.
  rewrite umul_small in Hlen by (unfold INT_MAX in Hc; nia).
  split; [exact Hlen|]. split; [lia|]. split; [exact Hnc|]. split.
  - intros Hdown. specialize (Hhi 1 ltac:(lia) ltac:(lia) ltac:(nia)). lia.
  - intros Hup. specialize (Hlo 1 ltac:(lia) ltac:(lia)). lia.
Qed.

(** X7.  Downsampling never lengthens: when the output rate is not above
    the input rate, [process] returns at most as many samples as it was
    given. *)
Theorem downsampling_never_lengthens r (input out : list float) :
  let cfg := config_ r in
  ratio_ r = d_div (d_of_Z (output_sample_rate cfg))
                   (d_of_Z (input_sample_rate cfg)) ->
  0 < output_sample_rate cfg <= input_sample_rate cfg ->
  input_sample_rate cfg <= INT_MAX ->
  0 < channels cfg <= INT_MAX ->
  Z.of_nat (length input) * output_sample_rate cfg < 2 ^ 53 ->
  fst (process r input) = Some out ->
  (length out <= length input)%nat.
Proof.
  intros cfg Hratio Hrates Hmax Hc Hfit Hrun.
  destruct (process_length r input out Hrun) as [->|[[_ ->]|Hlen]];
    [simpl; lia|lia|].
  assert (Hin : 0 < input_sample_rate cfg <= INT_MAX) by lia.
  assert (Hor : 0 < output_sample_rate cfg <= INT_MAX) by lia.
  destruct (linear_sample_count r input out Hratio Hin Hor Hc Hfit Hlen)
    as (Hout & _ & Hnc & Hdown & _).
  fold cfg in Hout, Hnc, Hdown. specialize (Hdown ltac:(lia)). nia.
Qed.

(** X8.  Upsampling never shortens: when the output rate is not below the
    input rate, an accepted resampler returns at least one sample for each
    sample of the whole input frames. *)
Theorem upsampling_never_shortens r (input out : list float) :
  let cfg := config_ r in
  let c := channels cfg in
  ratio_ r = d_div (d_of_Z (output_sample_rate cfg))
                   (d_of_Z (input_sample_rate cfg)) ->
  0 < input_sample_rate cfg <= output_sample_rate cfg ->
  output_sample_rate cfg <= INT_MAX ->
  0 < c <= INT_MAX ->
  Z.of_nat (length input) * output_sample_rate cfg < 2 ^ 53 ->
  fst (initialize r) = true ->
  fst (process r input) = Some out ->
  Z.of_nat (length input) / c * c <= Z.of_nat (length out).
Proof.
  intros cfg c Hratio Hrates Hmax Hc Hfit Hok Hrun.
  destruct input as [|x input].
  { rewrite Z.div_0_l by lia. lia. }
  destruct (process_accepted r (x :: input) out Hok ltac:(discriminate) Hrun)
    as [[_ ->]|[_ Hlen]].
  - rewrite Z.mul_comm. apply Z.mul_div_le. lia.
  - assert (Hin : 0 < input_sample_rate cfg <= INT_MAX) by lia.
    assert (Hor : 0 < output_sample_rate cfg <= INT_MAX) by lia.
    destruct (linear_sample_count r (x :: input) out Hratio Hin Hor Hc Hfit Hlen)
      as (Hout & Hn & _ & _ & Hup).
    fold cfg c in Hout, Hn, Hup. specialize (Hup ltac:(lia)).
    rewrite Hout. nia.
Qed.

End Frames.

(** With weight zero the blend is the first sample: exactly, unless that
    sample is a zero, whose sign may change. *)
Lemma interpolate_at_zero a b :
  is_finite a = true -> f_valid a = true ->
  is_finite b = true -> f_valid b = true ->
  SFeqb (interpolate a b (S754_zero false)) a = true /\
  (forall s m e, a = S754_finite s m e ->
     interpolate a b (S754_zero false) = a).
Proof.
  intros Hfa Hva Hfb Hvb. unfold interpolate.
  change (d_sub d_one (S754_zero false)) with d_one.
  assert (Hb : exists sb, d_mul (d_of_f b) (S754_zero false) = S754_zero sb).
  { destruct b as [s| | |s m e]; try discriminate.
    - now exists (xorb s false).
    - rewrite d_of_f_exact by exact Hvb. now exists (xorb s false). }
  destruct Hb as [sb ->].
  destruct a as [s| | |s m e]; try discriminate.
  - split; [|discriminate]. rewrite d_one_eq. now destruct sb, s.
  - pose proof (d_of_f_exact s m e Hva) as HX. cbv zeta in HX.
    destruct (f_valid_digits s m e Hva) as (Hm & He & _).
    assert (Hd : 1 <= Zdigits2 (Zpos m) <= 24).
    { split; [pose proof (RoundFacts.Zdigits2_pos (Zpos m)); lia
             |apply RoundFacts.Zdigits2_le; lia]. }
    assert (HP : 0 < 2 ^ (53 - Zdigits2 (Zpos m))) by (apply Z.pow_pos_nonneg; lia).
    assert (Hexact : f_of_d (d_add (d_mul (d_of_f (S754_finite s m e)) d_one)
                               (S754_zero sb))
                     = S754_finite s m e).
    { rewrite HX, d_mul_one.
      - change (d_add (S754_finite s ?M ?E) (S754_zero sb)) with (S754_finite s M E).
        rewrite <- HX. now apply f_of_d_of_f.
      - rewrite Z2Pos.id by nia. rewrite RoundFacts.Zdigits2_mul_pow2 by lia. lia.
      - lia. }
    rewrite Hexact. split; [apply SFeqb_refl_finite|reflexivity].
Qed.

(** X11.  Upsampling starts on the input: in every channel the first
    output sample is the first input sample (for finite samples; a zero
    may change its sign). *)
Theorem upsampled_first_frame `{Platform} r (input : list float) ch
    (a b : float) :
  let cfg := config_ r in
  let c := channels cfg in
  let N := Z.of_nat (length input) in
  ratio_ r = d_div (d_of_Z (output_sample_rate cfg))
                   (d_of_Z (input_sample_rate cfg)) ->
  0 < input_sample_rate cfg <= output_sample_rate cfg ->
  output_sample_rate cfg <= INT_MAX ->
  0 < c -> 2 <= N / c -> N * output_sample_rate cfg < 2 ^ 53 ->
  0 <= ch < c ->
  input !! Z.to_nat ch = Some a -> input !! Z.to_nat (c + ch) = Some b ->
  is_finite a = true -> f_valid a = true ->
  is_finite b = true -> f_valid b = true ->
  exists output x,
    linearUpsample r input N = Some output /\
    output !! Z.to_nat ch = Some x /\
    SFeqb x a = true /\
    (forall s m e, a = S754_finite s m e -> x = a).
Proof.
  intros cfg c N Hratio Hrates Hmax Hc Hframes Hfit Hch Ha Hb Hfa Hva Hfb Hvb.
  assert (Hn : 0 <= N / c <= N).
  { split; [lia|]. apply Z.div_le_upper_bound; [lia|]. unfold N. nia. }
  assert (Hnc : N / c * c <= N) by (rewrite Z.mul_comm; apply Z.mul_div_le; lia).
  assert (Hin : 0 < input_sample_rate cfg <= INT_MAX) by lia.
  assert (Hor : 0 < output_sample_rate cfg <= INT_MAX) by lia.
  assert (Hfr : output_frames_of r (N / c) =
                to_size_t (d_ceil (d_mul (d_of_Z (N / c))
                  (d_div (d_of_Z (output_sample_rate cfg))
                         (d_of_Z (input_sample_rate cfg))))))
    by (unfold output_frames_of; now rewrite Hratio).
  destruct (frames_sandwich (input_sample_rate cfg) (output_sample_rate cfg)
              (N / c) Hin Hor) as (Hf & _ & Hlo); [lia|nia|].
  rewrite <- Hfr in Hf, Hlo. specialize (Hlo 1 ltac:(lia) ltac:(lia)).
  destruct (linearUpsample_run r input) as (output & Hrun & _ & Hall);
    fold cfg c N; try assumption; try (unfold N; lia); [nia|].
  fold cfg c N in Hrun, Hall.
  destruct (Hall ch 0 Hch ltac:(lia)) as [[x Hx] Hrule].
  rewrite Z.mul_0_l, Z.add_0_l in Hx, Hrule.
  exists output, x. split; [exact Hrun|]. split; [exact Hx|].
  rewrite Hx in Hrule.
  destruct (ratio_bounds (input_sample_rate cfg) (output_sample_rate cfg) Hin Hor)
    as (_ & Hge & _).
  specialize (Hge ltac:(lia)). rewrite <- Hratio in Hge.
  assert (Hidx : index (ratio_ r) 0 = 0 /\ weight (ratio_ r) 0 = S754_zero false).
  { unfold weight, index, position.
    destruct (ratio_ r) as [s|s| |s m e]; simpl in Hge; try contradiction; [lia|].
    destruct Hge as [-> _].
    change (d_div (d_of_Z 0) (S754_finite false m e)) with (S754_zero false).
    rewrite to_size_t_zero. split; reflexivity. }
  destruct Hidx as [Hi0 Hw0].
  unfold upsample_rule in Hrule. rewrite Hi0, Hw0 in Hrule.
  destruct (Z.leb_spec (N / c - 1) 0); [lia|].
  replace (0 * c + ch) with ch in Hrule by lia.
  replace ((0 + 1) * c + ch) with (c + ch) in Hrule by lia.
  rewrite Ha, Hb in Hrule. simpl in Hrule. injection Hrule as ->.
  apply interpolate_at_zero; assumption.
Qed.

(** X25.  One frame is not enough for the scalar upsampling path: when
    it has an output frame to produce from a block of a single frame, its
    clamp wraps and the first read falls outside the input, so the call is
    undefined. *)
Theorem single_frame_upsampling_undefined `{Platform} r (input : list float) :
  let c := channels (config_ r) in
  let N := Z.of_nat (length input) in
  0 < c <= INT_MAX -> N / c = 1 ->
  0 < output_frames_of r 1 ->
  linearUpsample r input N = None.
Proof.
  intros c N Hc Hone Hout.
  assert (Hcc : usize c = c) by (apply usize_small; unfold INT_MAX in Hc; lia).
  assert (HN : c <= N < 2 * c).
  { pose proof (Z.div_mod N c ltac:(lia)) as Hdm.
    pose proof (Z.mod_pos_bound N c ltac:(lia)) as Hmod. nia. }
  unfold linearUpsample. fold c. fold N. rewrite Hcc, Hone.
  destruct (Z.eqb_spec c 0); [lia|].
  unfold for_range at 1. rewrite Z.sub_0_r.
  destruct (Z.to_nat c) as [|nc] eqn:Enc; [lia|]. simpl loop.
  unfold for_range at 1. rewrite Z.sub_0_r.
  destruct (Z.to_nat (output_frames_of r 1)) as [|nf] eqn:Enf; [lia|].
  simpl loop.
  assert (Hbody : forall out, upsample_body r input 1 0 0 out = None).
  { intros out. unfold upsample_body. fold c. rewrite Hcc.
    pose proof (upsample_source_one_frame r 0) as Hsrc.
    destruct (upsample_source r 1 0) as [src_idx frac]. simpl in Hsrc. subst src_idx.
    rewrite (load_out_of_range input (uadd (umul (2 ^ 64 - 1) c) (usize 0)));
      [reflexivity|].
    unfold uadd, umul, usize.
    replace ((2 ^ 64 - 1) * c) with (- c + c * 2 ^ 64) by ring.
    rewrite Z.mod_add by lia.
    assert (Hm : (- c) mod 2 ^ 64 = 2 ^ 64 - c).
    { symmetry. apply Z.mod_unique with (-1); unfold INT_MAX in Hc; lia. }
    rewrite Hm. change (0 mod 2 ^ 64) with 0. rewrite Z.add_0_r.
    rewrite Z.mod_small by (unfold INT_MAX in Hc; lia).
    fold N. unfold INT_MAX in Hc. lia. }
  now rewrite Hbody.
Qed.

(** X9.  [resampler_create] returns a null handle exactly when a rate or
    the channel count is not positive; otherwise the resampler behind the
    handle is initialised, has the parameters given and the ratio of the
    two rates, and uses the linear method the ratio selects, whatever
    method was asked for. *)
Theorem resampler_create_validates input_rate output_rate nchannels m :
  (resampler_create input_rate output_rate nchannels m = None <->
   input_rate <= 0 \/ output_rate <= 0 \/ nchannels <= 0) /\
  (forall r, resampler_create input_rate output_rate nchannels m = Some r ->
     initialized_ r = true /\
     input_sample_rate (config_ r) = input_rate /\
     output_sample_rate (config_ r) = output_rate /\
     channels (config_ r) = nchannels /\
     ratio_ r = d_div (d_of_Z output_rate) (d_of_Z input_rate) /\
     method (config_ r) =
       (if d_ltb d_one (ratio_ r) then LINEAR_UPSAMPLE else LINEAR_DOWNSAMPLE)).
Proof.
  unfold resampler_create, initialize, make, methodCToCpp. simpl.
  destruct (Z.leb_spec input_rate 0);
    [simpl; split; [split; [lia|reflexivity]|discriminate]|].
  destruct (Z.leb_spec output_rate 0);
    [simpl; split; [split; [lia|reflexivity]|discriminate]|].
  destruct (Z.leb_spec nchannels 0);
    [simpl; split; [split; [lia|reflexivity]|discriminate]|].
  simpl. split; [split; [discriminate|lia]|].
  intros r [= <-]. simpl.
  destruct (d_ltb d_one (d_div (d_of_Z output_rate) (d_of_Z input_rate)));
    simpl; repeat split.
Qed.

(** X10.  A buffer sized with [resampler_estimate_output_size] is large
    enough for [resampler_process], for up to 256 channels, whenever the
    estimate fits an [int] and the sample count times the output rate is
    below [2 ^ 53]: the call returns the number of samples produced, not
    [-1], and the buffer starts with all of them. *)
Theorem estimated_capacity_suffices `{Platform} input_rate output_rate nchannels m r
    (inp out result : list float) (input_samples : Z) :
  resampler_create input_rate output_rate nchannels m = Some r ->
  input_rate <= INT_MAX -> output_rate <= INT_MAX -> nchannels <= 256 ->
  0 < input_samples <= INT_MAX -> Z.of_nat (length inp) = input_samples ->
  input_samples * output_rate < 2 ^ 53 ->
  estimateOutputSize input_samples input_rate output_rate <= INT_MAX ->
  fst (process r inp) = Some result ->
  let capacity :=
    resampler_estimate_output_size input_samples input_rate output_rate in
  capacity <= Z.of_nat (length out) ->
  resampler_process (Some r) (Some inp) input_samples (Some out) capacity =
    Some (mkCResult (Z.of_nat (length result))
            (Some (result ++ drop (length result) out)) (Some r)) /\
  0 <= Z.of_nat (length result) <= capacity.
Proof.
  intros Hcreate Hin Hor Hch Hn Hlen H53 Hfit Hrun capacity Hcap.
  destruct (resampler_create_validates input_rate output_rate nchannels m)
    as [Hnull Hsome].
  destruct (Hsome r Hcreate) as (Hinit & Hri & Hro & Hc & Hratio & _).
  assert (Hvalid : 0 < input_rate /\ 0 < output_rate /\ 0 < nchannels).
  { destruct (Z.le_gt_cases input_rate 0); [rewrite (proj2 Hnull) in Hcreate; [discriminate|lia]|].
    destruct (Z.le_gt_cases output_rate 0); [rewrite (proj2 Hnull) in Hcreate; [discriminate|lia]|].
    destruct (Z.le_gt_cases nchannels 0); [rewrite (proj2 Hnull) in Hcreate; [discriminate|lia]|].
    lia. }
  destruct Hvalid as (Hi0 & Ho0 & Hc0).
  assert (Hout : 0 < output_rate <= INT_MAX) by lia.
  destruct (estimate_value input_samples input_rate output_rate
              ltac:(lia) Hout ltac:(lia) H53) as [Hest Hnb].
  assert (Hsize : usize input_samples = input_samples)
    by (apply usize_small; unfold INT_MAX in Hn; lia).
  assert (Hcapv : capacity = estimateOutputSize input_samples input_rate output_rate).
  { unfold capacity, resampler_estimate_output_size. rewrite Hsize.
    apply to_int_small. rewrite Hest in *. unfold INT_MAX in Hfit. lia. }
  assert (Hbound : Z.of_nat (length result) <= capacity).
  { rewrite Hcapv.
    pose proof (process_within_estimate r inp result) as Hw. cbv zeta in Hw.
    rewrite Hri, Hro, Hc, Hlen in Hw. apply Hw; try assumption; lia. }
  split; [|lia].
  unfold resampler_process.
  destruct (Z.leb_spec input_samples 0); [lia|].
  rewrite Hsize, <- Hlen. fold (process r inp).
  assert (Hstate : snd (process r inp) = r).
  { unfold process. rewrite process_ptr_state. unfold initialize. now rewrite Hinit. }
  destruct (process r inp) as [res r'] eqn:Hp. simpl in Hrun, Hstate. subst res r'.
  cbv zeta.
  rewrite to_int_small
    by (rewrite Hcapv in Hbound; unfold INT_MAX in Hfit; lia).
  destruct (Z.ltb_spec capacity (Z.of_nat (length result))); [lia|].
  destruct (Z.leb_spec (Z.of_nat (length result)) (Z.of_nat (length out)));
    [reflexivity|lia].
Qed.

(** X27.  As long as the result of the conversion has at most [INT_MAX]
    samples: when it has more samples than the capacity given,
    [resampler_process] returns [-1] and the output buffer is as it was;
    when it fits, the buffer starts with the whole result and the count is
    returned.  (The capacity is that of the buffer passed.) *)
Theorem capacity_check_within_int `{Platform} r r' (inp out result : list float)
    (input_samples output_capacity : Z) :
  0 < input_samples ->
  process_ptr r inp (usize input_samples) = (Some result, r') ->
  Z.of_nat (length result) <= INT_MAX ->
  output_capacity <= Z.of_nat (length out) ->
  (output_capacity < Z.of_nat (length result) ->
   resampler_process (Some r) (Some inp) input_samples (Some out) output_capacity
     = Some (mkCResult (-1) (Some out) (Some r'))) /\
  (Z.of_nat (length result) <= output_capacity ->
   resampler_process (Some r) (Some inp) input_samples (Some out) output_capacity
     = Some (mkCResult (Z.of_nat (length result))
               (Some (result ++ drop (length result) out)) (Some r'))).
Proof.
  intros Hn Hrun Hint Hcap. unfold resampler_process.
  destruct (Z.leb_spec input_samples 0); [lia|].
  rewrite Hrun. cbv zeta.
  rewrite to_int_small by (unfold INT_MAX in Hint; lia).
  split; intros Hsize.
  - destruct (Z.ltb_spec output_capacity (Z.of_nat (length result))); [|lia].
    reflexivity.
  - destruct (Z.ltb_spec output_capacity (Z.of_nat (length result))); [lia|].
    destruct (Z.leb_spec (Z.of_nat (length result)) (Z.of_nat (length out)));
      [reflexivity|lia].
Qed.

End ResamplerBehaviour.

(** ** Further properties of the sample conversions *)
Module FormatBehaviour.
Import Int Fp Format Rules Round.
Import IntFacts RoundFacts FpFacts FormatFacts.

(** The float made of an [int16_t] that is not zero. *)
Lemma int16ToFloat_value v :
  -32768 <= v <= 32767 -> v <> 0 ->
  let a := Z.abs v in
  let d := Zdigits2 a in
  int16ToFloat v =
    S754_finite (v <? 0) (Z.to_pos (a * 2 ^ (24 - d))) (d - 39) /\
  1 <= d <= 16 /\
  Zpos (Z.to_pos (a * 2 ^ (24 - d))) = a * 2 ^ (24 - d).
Proof.
  intros Hv Hne a d.
  assert (Ha : 1 <= a <= 32768) by (unfold a; lia).
  assert (Hd : 1 <= d <= 16).
  { unfold d. split; [pose proof (Zdigits2_pos a); lia|].
    apply Zdigits2_le; [|lia]. change (2 ^ 16) with 65536. lia. }
  assert (HP : 0 < 2 ^ (24 - d)) by (apply Z.pow_pos_nonneg; lia).
  assert (HM : Zpos (Z.to_pos (a * 2 ^ (24 - d))) = a * 2 ^ (24 - d))
    by (rewrite Z2Pos.id; nia).
  assert (HdM : Zdigits2 (Zpos (Z.to_pos (a * 2 ^ (24 - d)))) = 24).
  { rewrite HM, Zdigits2_mul_pow2 by lia. fold d. lia. }
  split; [|split; [exact Hd|exact HM]].
  unfold int16ToFloat.
  destruct (Z.ltb_spec v 0) as [Hneg|Hpos].
  - replace v with (- a) by (unfold a; lia).
    rewrite f_of_Z_exact_neg by (change (2 ^ 24) with 16777216; lia). fold d.
    rewrite f_div_32768 by (try exact HdM; lia).
    f_equal. lia.
  - replace v with a by (unfold a; lia).
    rewrite f_of_Z_exact by (change (2 ^ 24) with 16777216; lia). fold d.
    rewrite f_div_32768 by (try exact HdM; lia).
    f_equal. lia.
Qed.

(** X12.  The playback conversion is exact: for every [int16_t] value [v]
    the float [v / 32768.0f] is a valid finite single of the sign of [v]
    whose magnitude is [|v| * 2 ^ -15], neither more nor less; so it lies
    in [-1, 1) and different values give different floats. *)
Theorem int16ToFloat_exact v :
  -32768 <= v <= 32767 ->
  let x := int16ToFloat v in
  f_valid x = true /\ is_finite x = true /\
  mag_le (v <? 0) x (Z.abs v) (-15) /\
  mag_ge (v <? 0) x (Z.abs v) (-15) /\
  (forall w, -32768 <= w <= 32767 -> int16ToFloat w = x -> w = v).
Proof.
  intros Hv x.
  destruct (Z.eq_dec v 0) as [->|Hne].
  - subst x. change (int16ToFloat 0) with (S754_zero false).
    repeat split; try (simpl; lia).
    intros w Hw Heq. destruct (Z.eq_dec w 0) as [|Hw0]; [assumption|].
    destruct (int16ToFloat_value w Hw Hw0) as (Hval & _). cbv zeta in Hval.
    rewrite Hval in Heq. discriminate.
  - destruct (int16ToFloat_value v Hv Hne) as (Hval & Hd & HM).
    cbv zeta in Hval, Hd, HM. subst x. rewrite Hval.
    set (a := Z.abs v) in *. set (d := Zdigits2 a) in *.
    set (M := Z.to_pos (a * 2 ^ (24 - d))) in *.
    assert (HP : 0 < 2 ^ (24 - d)) by (apply Z.pow_pos_nonneg; lia).
    assert (HdM : Zdigits2 (Zpos M) = 24).
    { rewrite HM, Zdigits2_mul_pow2 by (unfold a; lia). fold d. lia. }
    assert (Hmin : Z.min (d - 39) (-15) = d - 39) by lia.
    assert (Hmin' : Z.min (-15) (d - 39) = d - 39) by lia.
    split; [|split; [reflexivity|split; [|split]]].
    + unfold f_valid, valid_binary, bounded, canonical_mantissa.
      change (Z.pos (digits2_pos M)) with (Zdigits2 (Zpos M)). rewrite HdM.
      apply andb_true_intro. split; [apply Z.eqb_eq|apply Z.leb_le].
      * unfold fexp, emin. lia.
      * lia.
    + split; [reflexivity|]. unfold scaled_le. rewrite Hmin, Z.sub_diag.
      replace (-15 - (d - 39)) with (24 - d) by lia. rewrite HM. simpl. lia.
    + split; [reflexivity|]. unfold scaled_le. rewrite Hmin', Z.sub_diag.
      replace (-15 - (d - 39)) with (24 - d) by lia. rewrite HM. simpl. lia.
    + intros w Hw Heq.
      destruct (Z.eq_dec w 0) as [->|Hw0]; [discriminate Heq|].
      destruct (int16ToFloat_value w Hw Hw0) as (Hvalw & Hdw & HMw).
      cbv zeta in Hvalw, Hdw, HMw. rewrite Hvalw in Heq.
      injection Heq as Hsign Hmant Hexp.
      assert (Hdd : Zdigits2 (Z.abs w) = d) by lia.
      rewrite Hdd in *.
      assert (Habs : Z.abs w = a).
      { apply (f_equal Zpos) in Hmant. rewrite HMw in Hmant. fold M in Hmant.
        rewrite HM in Hmant. nia. }
      destruct (Z.ltb_spec w 0), (Z.ltb_spec v 0); try discriminate;
        unfold a in Habs; lia.
Qed.



(** The two bytes of a sample, read back. *)
Lemma int16_bytes_back v :
  -32768 <= v <= 32767 ->
  exists lo hi,
    int16_bytes v = [lo; hi] /\
    0 <= lo < 256 /\ 0 <= hi < 256 /\
    int16_of_bytes lo hi = v.
Proof.
  intros Hv. exists (v mod 256), ((v / 256) mod 256).
  split; [reflexivity|].
  pose proof (Z.mod_pos_bound v 256 ltac:(lia)) as Hlo.
  pose proof (Z.mod_pos_bound (v / 256) 256 ltac:(lia)) as Hhi.
  split; [exact Hlo|]. split; [exact Hhi|].
  unfold int16_of_bytes, to_int16.
  pose proof (Z.div_mod v 256 ltac:(lia)) as Hv1.
  pose proof (Z.div_mod (v / 256) 256 ltac:(lia)) as Hv2.
  change (2 ^ 15) with 32768. change (2 ^ 16) with 65536.
  assert (Hq : -128 <= v / 256 <= 127).
  { split; [apply Z.div_le_lower_bound; lia|].
    apply Z.lt_succ_r. apply Z.div_lt_upper_bound; lia. }
  destruct (Z.lt_ge_cases v 0) as [Hneg|Hpos].
  - assert (Hh : (v / 256) mod 256 = v / 256 + 256).
    { symmetry. apply Z.mod_unique with (-1); lia. }
    rewrite Hh.
    replace (v mod 256 + 256 * (v / 256 + 256) + 32768)
      with (v + 32768 + 1 * 65536) by lia.
    rewrite Z.mod_add by lia. rewrite Z.mod_small by lia. lia.
  - assert (Hh : (v / 256) mod 256 = v / 256).
    { apply Z.mod_small. split; [apply Z.div_pos; lia|lia]. }
    rewrite Hh.
    replace (v mod 256 + 256 * (v / 256) + 32768) with (v + 32768) by lia.
    rewrite Z.mod_small by lia. lia.
Qed.

(** X15.  The two bytes stored for a sample are bytes, and read back
    through an [int16_t] pointer they are the same sample. *)
Theorem int16_bytes_roundtrip v :
  -32768 <= v <= 32767 ->
  exists lo hi,
    int16_bytes v = [lo; hi] /\
    0 <= lo < 256 /\ 0 <= hi < 256 /\
    int16_of_bytes lo hi = v.
Proof. apply int16_bytes_back. Qed.

End FormatBehaviour.

(** ** Further properties of the capture front end *)
Module CaptureBehaviour.
Import Int Fp Format Capture Blocks.
Import IntFacts CaptureFacts.

Section WithPlatform.
Context `{Platform}.

(** X13.  Over any number of audio callbacks nothing is lost, repeated or
    reordered: the chunks handed to the consumer, in order, followed by
    what is still buffered, are the bytes buffered at the start followed
    by the PCM16 bytes of all the samples read; every chunk has the chunk
    size and less than a chunk stays buffered. *)
Theorem capture_conserves_bytes g (blocks : list block) : forall s,
  user_callback s = true ->
  0 < chunk_size s <= INT_MAX ->
  Z.of_nat (length (buffer s)) < chunk_size s ->
  Forall (block_ok (chunk_size s)) blocks ->
  exists rest chunks,
    run (g, s) (audio_events blocks) = Some (g, with_buffer s rest, chunks) /\
    mjoin chunks ++ rest = buffer s ++ pcm16 (captured blocks) /\
    Forall (fun chunk => Z.of_nat (length chunk) = chunk_size s) chunks /\
    Z.of_nat (length rest) < chunk_size s.
Proof.
  induction blocks as [|[[[fuel data] frames] ch] blocks IH];
    intros s Hcb Hcs Hlen Hall.
  - exists (buffer s), []. simpl. destruct s; simpl.
    rewrite app_nil_r. repeat split; [constructor|assumption].
  - apply Forall_cons in Hall as [(Hfr & Hch & Hdata & Hfit & Hfuel) Hall].
    assert (Hsamples : 0 <= frames * ch) by nia.
    destruct (onAudioData_delivers fuel s data frames ch Hcb Hcs Hfr Hch Hdata)
      as (rest1 & chunks1 & Hrun1 & Hjoin1 & Hall1 & Hrest1); [lia| |].
    { apply Z.le_lt_trans with ((chunk_size s + 2 * (frames * ch)) / chunk_size s);
        [|exact Hfuel].
      apply Z.div_le_mono; lia. }
    destruct (IH (with_buffer s rest1)) as (rest & chunks & Hrun & Hjoin & Hchunks & Hrest);
      try assumption.
    exists rest, (chunks1 ++ chunks).
    split; [|split; [|split]].
    + change (audio_events ((fuel, data, frames, ch) :: blocks))
        with (EvAudio fuel data frames ch :: audio_events blocks).
      cbn [run step]. rewrite Hrun1. simpl. rewrite Hrun. simpl.
      now destruct s.
    + simpl in Hjoin. unfold captured. simpl.
      fold (captured blocks). rewrite pcm16_app, join_app.
      rewrite <- app_assoc, Hjoin, !app_assoc. f_equal. exact Hjoin1.
    + apply Forall_app. split; [exact Hall1|exact Hchunks].
    + exact Hrest.
Qed.


End WithPlatform.



(** X17.  What [Start] asks of the device: with a positive chunk size and
    channel count, the callback buffer is [chunk_size / (2 * channels)]
    frames, and never fewer than 64; the chunk size, the channels and the
    rate are the arguments given, or the process-wide defaults where an
    argument is not positive. *)
Theorem Start_parameters g start_ok s sr ch cs :
  is_open_ (stream s) = false ->
  let sr' := if sr <=? 0 then cfg_sample_rate g else sr in
  let ch' := if ch <=? 0 then cfg_channels g else ch in
  let cs' := if cs <=? 0 then cfg_chunk_size g else cs in
  0 < ch' < 2 ^ 30 -> 0 < cs' <= INT_MAX ->
  let started := snd (Start g true start_ok s sr ch cs) in
  is_open_ (stream started) = true /\
  frames_per_buffer (stream started) = Z.max 64 (cs' / (2 * ch')) /\
  64 <= frames_per_buffer (stream started) /\
  sample_rate started = sr' /\ channels started = ch' /\
  chunk_size started = cs' /\ buffer started = [].
Proof.
  intros Hclosed sr' ch' cs' Hch Hcs started.
  subst started. unfold Start. fold sr' ch' cs'. cbv zeta.
  unfold stream_open. simpl stream. rewrite Hclosed.
  assert (Hbpf : to_int (umul (usize ch') 2) = 2 * ch').
  { rewrite usize_small by lia. rewrite umul_small by lia.
    rewrite to_int_small; [lia|].
    change (2 ^ 30) with 1073741824 in Hch. change (2 ^ 31) with 2147483648. lia. }
  rewrite Hbpf.
  assert (Hquot : Z.quot cs' (2 * ch') = cs' / (2 * ch'))
    by (apply Z.quot_div_nonneg; lia).
  rewrite Hquot.
  assert (Hframes : (if cs' / (2 * ch') <? 64 then 64 else cs' / (2 * ch'))
                    = Z.max 64 (cs' / (2 * ch'))).
  { destruct (Z.ltb_spec (cs' / (2 * ch')) 64); lia. }
  rewrite Hframes.
  unfold stream_start. simpl.
  destruct (is_running_ (stream s)); simpl; [repeat split; lia|].
  destruct start_ok; simpl; repeat split; lia.
Qed.

(** X18.  The five-argument [Init] never installs a rate, a channel count
    or a chunk size that is not positive, nor a device below -1; and a
    capture object started under such defaults has a positive rate,
    channel count and chunk size whatever arguments [Start] is given. *)
Theorem defaults_stay_usable g :
  config_ok default_AudioConfig /\
  (config_ok g ->
   (forall sr ch cs cd pd, config_ok (Init g sr ch cs cd pd)) /\
   (forall open_ok start_ok s sr ch cs,
      let started := snd (Start g open_ok start_ok s sr ch cs) in
      0 < sample_rate started /\ 0 < channels started /\
      0 < chunk_size started)).
Proof.
  split; [unfold config_ok; simpl; lia|].
  intros (Hsr & Hch & Hcs & Hcd & Hpd). split.
  - intros sr ch cs cd pd. unfold config_ok, Init. simpl.
    destruct (Z.ltb_spec 0 sr), (Z.ltb_spec 0 ch), (Z.ltb_spec 0 cs),
      (Z.leb_spec (-1) cd), (Z.leb_spec (-1) pd); lia.
  - intros open_ok start_ok s sr ch cs. unfold Start. cbv zeta.
    destruct (stream_open _ _ _) as [[] st1]; simpl;
      [destruct (stream_start _ _) as [started st2]; simpl|];
      destruct (Z.leb_spec sr 0), (Z.leb_spec ch 0), (Z.leb_spec cs 0); lia.
Qed.

End CaptureBehaviour.

(** ** Properties of the playback side *)
Module PlaybackBehaviour.
Import Int Fp Format Output.
Import IntFacts.

Lemma ensure_release init_ok pa :
  pa_consistent pa ->
  let '(ok, pa1) := ensurePortAudioInitialized init_ok pa in
  pa_consistent pa1 /\
  (ok = true -> g_pa_ref_count pa1 = g_pa_ref_count pa + 1 /\
                releasePortAudio pa1 = pa) /\
  (ok = false -> pa1 = pa).
Proof.
  intros [Hc Hl].
  unfold ensurePortAudioInitialized, releasePortAudio, pa_consistent.
  destruct pa as [count live]. simpl in *.
  destruct (Z.eqb_spec count 0) as [->|Hne].
  - destruct init_ok; simpl.
    + split; [split; [lia|reflexivity]|]. split; [|discriminate].
      intros _. split; [reflexivity|]. now rewrite Hl.
    + split; [split; [lia|assumption]|]. split; [discriminate|reflexivity].
  - simpl. split; [split; [lia|]|].
    + rewrite Hl. destruct (Z.ltb_spec 0 count), (Z.ltb_spec 0 (count + 1)); lia.
    + split; [|discriminate]. intros _. split; [reflexivity|].
      destruct (Z.ltb_spec 0 (count + 1)); [|lia].
      replace (count + 1 - 1) with count by lia.
      destruct (Z.eqb_spec count 0); [contradiction|reflexivity].
Qed.

(** What [open] does to the counter: one more when it succeeds, nothing
    when it fails, whichever step fails. *)
Lemma open_counts config ans pa st :
  pa_consistent pa ->
  let '(ok, pa1, st1) := open config ans pa st in
  pa_consistent pa1 /\
  g_pa_ref_count pa1 - g_pa_ref_count pa = openness st1 - openness st /\
  (ok = true <-> is_open_ st = false /\ is_open_ st1 = true) /\
  (ok = false -> st1 = st /\ pa1 = pa).
Proof.
  intros Hpa. unfold open, openness.
  destruct (is_open_ st) eqn:Hopen.
  { rewrite Hopen. intuition (try discriminate; try lia). }
  pose proof (ensure_release (init_ok ans) pa Hpa) as Hens.
  destruct (ensurePortAudioInitialized (init_ok ans) pa) as [ok pa1].
  destruct Hens as (Hc1 & Hok & Hfail).
  destruct ok; simpl.
  2:{ rewrite (Hfail eq_refl), Hopen. intuition (try discriminate; try lia). }
  destruct (Hok eq_refl) as [Hcount Hrel].
  assert (Hback : pa_consistent (releasePortAudio pa1) /\
                  g_pa_ref_count (releasePortAudio pa1) - g_pa_ref_count pa
                  = (if is_open_ st then 1 else 0) - 0 /\
                  (false = true <-> false = false /\ is_open_ st = true) /\
                  (false = false -> st = st /\ releasePortAudio pa1 = pa)).
  { rewrite Hrel, Hopen. intuition (try discriminate; try lia). }
  destruct (has_name_hint config && (found_by_name ans <? 0)); [exact Hback|].
  destruct (_ =? paNoDevice); [exact Hback|].
  destruct (max_channels ans) as [maxc|]; [|exact Hback].
  destruct (open_ok ans); simpl; [|exact Hback].
  split; [exact Hc1|]. split; [lia|]. split; [now split|discriminate].
Qed.

(** What [close] does to the counter. *)
Lemma close_counts stop_ok pa st :
  pa_consistent pa -> openness st <= g_pa_ref_count pa ->
  let '(pa1, st1) := close stop_ok pa st in
  pa_consistent pa1 /\
  g_pa_ref_count pa1 - g_pa_ref_count pa = openness st1 - openness st /\
  is_open_ st1 = false.
Proof.
  intros [Hc Hl] Hle. unfold close, openness, pa_consistent in *.
  destruct (is_open_ st) eqn:Hopen; simpl.
  - unfold releasePortAudio. destruct pa as [count live]. simpl in *.
    destruct (Z.ltb_spec 0 count); [|lia]. simpl.
    split; [split; [lia|]|split; [lia|reflexivity]].
    destruct (Z.eqb_spec (count - 1) 0) as [E|E].
    + destruct (Z.ltb_spec 0 (count - 1)); [lia|reflexivity].
    + rewrite Hl. destruct (Z.ltb_spec 0 (count - 1)); [reflexivity|lia].
  - rewrite Hopen. split; [split; assumption|]. split; [lia|reflexivity].
Qed.

(** [AudioInputStream::open] and [close] count alike. *)
Lemma input_open_counts config ans pa st :
  pa_consistent pa ->
  let '(ok, pa1, st1) := Input.open config ans pa st in
  pa_consistent pa1 /\
  g_pa_ref_count pa1 - g_pa_ref_count pa = Input.openness st1 - Input.openness st /\
  (ok = true <-> Input.is_open_ st = false /\ Input.is_open_ st1 = true) /\
  (ok = false -> st1 = st /\ pa1 = pa).
Proof.
  intros Hpa. unfold Input.open, Input.openness.
  destruct (Input.is_open_ st) eqn:Hopen.
  { rewrite Hopen. intuition (try discriminate; try lia). }
  pose proof (ensure_release (Input.init_ok ans) pa Hpa) as Hens.
  destruct (ensurePortAudioInitialized (Input.init_ok ans) pa) as [ok pa1].
  destruct Hens as (Hc1 & Hok & Hfail).
  destruct ok; simpl.
  2:{ rewrite (Hfail eq_refl), Hopen. intuition (try discriminate; try lia). }
  destruct (Hok eq_refl) as [Hcount Hrel].
  assert (Hback : pa_consistent (releasePortAudio pa1) /\
                  g_pa_ref_count (releasePortAudio pa1) - g_pa_ref_count pa
                  = (if Input.is_open_ st then 1 else 0) - 0 /\
                  (false = true <-> false = false /\ Input.is_open_ st = true) /\
                  (false = false -> st = st /\ releasePortAudio pa1 = pa)).
  { rewrite Hrel, Hopen. intuition (try discriminate; try lia). }
  destruct (Input.has_name_hint config && (Input.found_by_name ans <? 0));
    [exact Hback|].
  destruct (_ =? paNoDevice); [exact Hback|].
  destruct (Input.max_channels ans) as [maxc|]; [|exact Hback].
  destruct (Input.open_ok ans); simpl; [|exact Hback].
  split; [exact Hc1|]. split; [lia|]. split; [now split|discriminate].
Qed.

Lemma input_close_counts stop_ok pa st :
  pa_consistent pa -> Input.openness st <= g_pa_ref_count pa ->
  let '(pa1, st1) := Input.close stop_ok pa st in
  pa_consistent pa1 /\
  g_pa_ref_count pa1 - g_pa_ref_count pa = Input.openness st1 - Input.openness st /\
  Input.is_open_ st1 = false.
Proof.
  intros [Hc Hl] Hle. unfold Input.close, Input.openness, pa_consistent in *.
  destruct (Input.is_open_ st) eqn:Hopen; simpl.
  - unfold releasePortAudio. destruct pa as [count live]. simpl in *.
    destruct (Z.ltb_spec 0 count); [|lia]. simpl.
    split; [split; [lia|]|split; [lia|reflexivity]].
    destruct (Z.eqb_spec (count - 1) 0) as [E|E].
    + destruct (Z.ltb_spec 0 (count - 1)); [lia|reflexivity].
    + rewrite Hl. destruct (Z.ltb_spec 0 (count - 1)); [reflexivity|lia].
  - rewrite Hopen. split; [split; assumption|]. split; [lia|reflexivity].
Qed.

(** A device query leaves the counter and PortAudio as they were. *)
Lemma listDevices_neutral init_ok pa :
  pa_consistent pa -> Shared.listDevices init_ok pa = pa.
Proof.
  intros Hpa. unfold Shared.listDevices.
  pose proof (ensure_release init_ok pa Hpa) as Hens.
  destruct (ensurePortAudioInitialized init_ok pa) as [ok pa1].
  destruct Hens as (_ & Hok & Hfail).
  destruct ok; simpl; [apply (Hok eq_refl)|apply (Hfail eq_refl)].
Qed.

Lemma findDeviceByName_neutral has_name init_ok pa :
  pa_consistent pa -> Shared.findDeviceByName has_name init_ok pa = pa.
Proof.
  intros Hpa. unfold Shared.findDeviceByName.
  destruct has_name; [|reflexivity]. apply (listDevices_neutral init_ok pa Hpa).
Qed.

Lemma openness_range s : 0 <= Shared.openness s <= 1.
Proof.
  destruct s as [st|st]; simpl;
    [unfold openness; destruct (is_open_ st)
    |unfold Input.openness; destruct (Input.is_open_ st)]; lia.
Qed.

Lemma open_count_nonneg streams : 0 <= Shared.open_count streams.
Proof.
  induction streams as [|st rest IH]; simpl; [lia|].
  pose proof (openness_range st). lia.
Qed.

Lemma open_count_insert streams : forall i s s',
  streams !! i = Some s ->
  Shared.open_count (<[i := s']> streams) =
    Shared.open_count streams - Shared.openness s + Shared.openness s' /\
  Shared.openness s <= Shared.open_count streams.
Proof.
  induction streams as [|x rest IH]; intros i s s' Hi; [discriminate|].
  destruct i as [|i]; simpl in *.
  - injection Hi as ->. pose proof (open_count_nonneg rest). lia.
  - destruct (IH i s s' Hi) as [Heq Hle].
    pose proof (openness_range x). lia.
Qed.

Lemma open_count_app a b :
  Shared.open_count (a ++ b) = Shared.open_count a + Shared.open_count b.
Proof. induction a as [|x a IH]; simpl; lia. Qed.

Lemma open_count_fresh n s :
  Shared.openness s = 0 -> Shared.open_count (replicate n s) = 0.
Proof. intros Hs. induction n as [|n IH]; simpl; lia. Qed.

(** A step that changes one stream and the counter by the same amount keeps
    the balance. *)
Lemma balanced_update pa pa1 streams i s s1 :
  g_pa_ref_count pa = Shared.open_count streams ->
  streams !! i = Some s ->
  pa_consistent pa1 ->
  g_pa_ref_count pa1 - g_pa_ref_count pa =
    Shared.openness s1 - Shared.openness s ->
  Shared.balanced (pa1, <[i := s1]> streams).
Proof.
  intros Hcount Hi Hpa1 Hdiff.
  destruct (open_count_insert streams i s s1 Hi) as [Hins _].
  split; simpl; [exact Hpa1|lia].
Qed.

Lemma apply_balanced sys o :
  Shared.balanced sys -> Shared.balanced (Shared.apply sys o).
Proof.
  destruct sys as [pa streams]. intros [Hpa Hcount]. simpl in Hpa, Hcount.
  assert (Hsame : Shared.balanced (pa, streams)) by (split; assumption).
  destruct o as [i config ans|i stop_ok|i pa_ok|i pa_ok|i pa_ok
                |i config ans|i stop_ok|i pa_ok|i pa_ok
                |init_ok|has_name init_ok]; simpl;
    try (destruct (streams !! i) as [[st|st]|] eqn:Hi; try exact Hsame).
  - pose proof (open_counts config ans pa st Hpa) as Hopen.
    destruct (open config ans pa st) as [[ok pa1] st1].
    destruct Hopen as (Hpa1 & Hdiff & _).
    apply (balanced_update pa pa1 streams i (Shared.Playback st) (Shared.Playback st1)
             Hcount Hi Hpa1 Hdiff).
  - destruct (open_count_insert streams i _ (Shared.Playback st) Hi) as [_ Hle].
    pose proof (close_counts stop_ok pa st Hpa ltac:(simpl in Hle; lia)) as Hclose.
    destruct (close stop_ok pa st) as [pa1 st1].
    destruct Hclose as (Hpa1 & Hdiff & _).
    apply (balanced_update pa pa1 streams i (Shared.Playback st) (Shared.Playback st1)
             Hcount Hi Hpa1 Hdiff).
  - apply (balanced_update pa pa streams i _ _ Hcount Hi Hpa). simpl.
    unfold start, openness. destruct (is_open_ st) eqn:E; simpl; [|rewrite E; lia].
    destruct (is_running_ st); simpl; [rewrite E; lia|].
    destruct pa_ok; simpl; rewrite E; lia.
  - apply (balanced_update pa pa streams i _ _ Hcount Hi Hpa). simpl.
    unfold stop, openness. destruct (is_running_ st); simpl; [|lia].
    destruct pa_ok; simpl; lia.
  - apply (balanced_update pa pa streams i _ _ Hcount Hi Hpa). simpl.
    unfold abort, openness. destruct (is_running_ st); simpl; [|lia].
    destruct pa_ok; simpl; lia.
  - pose proof (input_open_counts config ans pa st Hpa) as Hopen.
    destruct (Input.open config ans pa st) as [[ok pa1] st1].
    destruct Hopen as (Hpa1 & Hdiff & _).
    apply (balanced_update pa pa1 streams i (Shared.Recording st) (Shared.Recording st1)
             Hcount Hi Hpa1 Hdiff).
  - destruct (open_count_insert streams i _ (Shared.Recording st) Hi) as [_ Hle].
    pose proof (input_close_counts stop_ok pa st Hpa ltac:(simpl in Hle; lia))
      as Hclose.
    destruct (Input.close stop_ok pa st) as [pa1 st1].
    destruct Hclose as (Hpa1 & Hdiff & _).
    apply (balanced_update pa pa1 streams i (Shared.Recording st) (Shared.Recording st1)
             Hcount Hi Hpa1 Hdiff).
  - apply (balanced_update pa pa streams i _ _ Hcount Hi Hpa). simpl.
    unfold Input.start, Input.openness.
    destruct (Input.is_open_ st) eqn:E; simpl; [|rewrite E; lia].
    destruct (Input.is_running_ st); simpl; [rewrite E; lia|].
    destruct pa_ok; simpl; rewrite ?E; lia.
  - apply (balanced_update pa pa streams i _ _ Hcount Hi Hpa). simpl.
    unfold Input.stop, Input.openness. destruct (Input.is_running_ st); simpl; [|lia].
    destruct pa_ok; simpl; lia.
  - rewrite (listDevices_neutral init_ok pa Hpa). exact Hsame.
  - rewrite (findDeviceByName_neutral has_name init_ok pa Hpa). exact Hsame.
Qed.

Lemma apply_length sys o :
  length (snd (Shared.apply sys o)) = length (snd sys).
Proof.
  destruct sys as [pa streams].
  destruct o as [i config ans|i stop_ok|i pa_ok|i pa_ok|i pa_ok
                |i config ans|i stop_ok|i pa_ok|i pa_ok
                |init_ok|has_name init_ok]; simpl; try reflexivity;
    destruct (streams !! i) as [[st|st]|]; try reflexivity.
  - destruct (open config ans pa st) as [[ok pa1] st1]. simpl.
    apply length_insert.
  - destruct (close stop_ok pa st) as [pa1 st1]. simpl. apply length_insert.
  - simpl. apply length_insert.
  - simpl. apply length_insert.
  - simpl. apply length_insert.
  - destruct (Input.open config ans pa st) as [[ok pa1] st1]. simpl.
    apply length_insert.
  - destruct (Input.close stop_ok pa st) as [pa1 st1]. simpl.
    apply length_insert.
  - simpl. apply length_insert.
  - simpl. apply length_insert.
Qed.

(** X19.  PortAudio is held exactly while a stream is open: whatever is
    done to any number of output and input streams and to the device
    lists, in any order and whatever the device answers, the reference
    count is the number of open streams, and PortAudio is initialised
    exactly when that number is not zero.  A failed [open] gives back the
    reference it took, and a device query leaves the count as it was. *)
Theorem portaudio_reference_count n m ops :
  let sys := foldl Shared.apply (Shared.fresh n m) ops in
  g_pa_ref_count (fst sys) = Shared.open_count (snd sys) /\
  pa_live (fst sys) = (0 <? Shared.open_count (snd sys)) /\
  length (snd sys) = (n + m)%nat /\
  (forall config ans st,
     fst (fst (open config ans (fst sys) st)) = false ->
     snd (fst (open config ans (fst sys) st)) = fst sys) /\
  (forall config ans st,
     fst (fst (Input.open config ans (fst sys) st)) = false ->
     snd (fst (Input.open config ans (fst sys) st)) = fst sys) /\
  (forall has_name init_ok,
     Shared.listDevices init_ok (fst sys) = fst sys /\
     Shared.findDeviceByName has_name init_ok (fst sys) = fst sys).
Proof.
  cbv zeta.
  assert (Hstart : Shared.balanced (Shared.fresh n m) /\
                   length (snd (Shared.fresh n m)) = (n + m)%nat).
  { unfold Shared.fresh. split.
    - split; [split; [simpl; lia|reflexivity]|]. simpl.
      rewrite open_count_app, !open_count_fresh by reflexivity. reflexivity.
    - simpl. now rewrite length_app, !length_replicate. }
  revert Hstart. generalize (Shared.fresh n m).
  induction ops as [|o ops IH]; intros sys [Hbal Hlen]; simpl.
  - destruct Hbal as [Hpa Hcount]. pose proof Hpa as [_ Hlive].
    rewrite <- Hcount.
    split; [reflexivity|]. split; [exact Hlive|]. split; [exact Hlen|].
    split; [|split].
    + intros config ans st Hfail.
      pose proof (open_counts config ans (fst sys) st Hpa) as Hopen.
      destruct (open config ans (fst sys) st) as [[ok pa1] st1].
      simpl in *. destruct Hopen as (_ & _ & _ & Hback).
      now destruct (Hback Hfail).
    + intros config ans st Hfail.
      pose proof (input_open_counts config ans (fst sys) st Hpa) as Hopen.
      destruct (Input.open config ans (fst sys) st) as [[ok pa1] st1].
      simpl in *. destruct Hopen as (_ & _ & _ & Hback).
      now destruct (Hback Hfail).
    + intros has_name init_ok.
      split; [now apply listDevices_neutral|now apply findDeviceByName_neutral].
  - apply IH. split; [now apply apply_balanced|].
    now rewrite apply_length.
Qed.

(** [zero_fill] up to the end of a buffer. *)
Lemma zero_fill_tail (buf : list float) offset count :
  0 <= offset -> 0 <= count -> count * 4 < 2 ^ 64 ->
  offset + count = Z.of_nat (length buf) ->
  zero_fill buf offset (count * 4) =
    Some (take (Z.to_nat offset) buf ++ replicate (Z.to_nat count) f_zero).
Proof.
  intros Ho Hc Hfit Hlen. unfold zero_fill.
  rewrite Z.div_mul by lia.
  destruct (Z.leb_spec 0 offset); [|lia].
  destruct (Z.leb_spec (offset + count) (Z.of_nat (length buf))); [|lia].
  simpl. rewrite drop_ge by lia. now rewrite app_nil_r.
Qed.

(** X20.  The playback callback never leaves stale samples in the device
    buffer: what the user callback did not write is silence, a callback
    that writes nothing ends the playback, and without a user callback the
    whole buffer is silence. *)
Theorem output_callback_pads_with_silence st (output : list float) frames :
  let ch := actual_channels_ st in
  0 < ch <= INT_MAX -> 0 <= frames ->
  Z.of_nat (length output) = frames * ch -> frames * ch < 2 ^ 62 ->
  (callback_ st = None ->
   paCallback (Some st) (Some output) frames =
     Some (paContinue, Some (replicate (length output) f_zero))) /\
  (forall callback out1 written,
     callback_ st = Some callback ->
     callback output frames ch = (out1, written) ->
     length out1 = length output -> 0 <= written < 2 ^ 64 ->
     paCallback (Some st) (Some output) frames =
       Some (if (written =? 0) && (0 <? frames) then paComplete else paContinue,
             Some (take (Z.to_nat (written * ch)) out1 ++
                   replicate (Z.to_nat ((frames - written) * ch)) f_zero))).
Proof.
  intros ch [Hch Hmax] Hframes Hlen Hfit.
  assert (Hcc : usize ch = ch) by (apply usize_small; unfold INT_MAX in Hmax; lia).
  assert (Hprod : frames <= frames * ch) by nia.
  assert (H64 : 2 ^ 64 = 4 * 2 ^ 62) by reflexivity.
  split.
  - intros Hnone. unfold paCallback. rewrite Hnone. fold ch. rewrite Hcc.
    rewrite (umul_small frames ch) by lia. rewrite umul_small by lia.
    rewrite (zero_fill_tail output 0 (frames * ch)) by lia.
    replace (Z.to_nat (frames * ch)) with (length output) by lia.
    reflexivity.
  - intros callback out1 written Hcb Hcall Hlen1 Hw.
    unfold paCallback. rewrite Hcb. fold ch. rewrite Hcall, Hcc.
    destruct (Z.ltb_spec written frames) as [Hlt|Hge].
    + assert (Hw1 : 0 <= written * ch <= frames * ch) by nia.
      assert (Hw2 : 0 <= (frames - written) * ch <= frames * ch) by nia.
      assert (Hw3 : written * ch + (frames - written) * ch = frames * ch) by ring.
      rewrite usub_small by lia.
      rewrite (umul_small written) by lia.
      rewrite (umul_small (frames - written)) by lia.
      rewrite umul_small by lia.
      rewrite (zero_fill_tail out1 (written * ch) ((frames - written) * ch))
        by (rewrite ?Hlen1; lia).
      simpl. destruct (Z.eqb_spec written 0) as [->|Hne]; simpl.
      * destruct (Z.ltb_spec 0 frames); [reflexivity|lia].
      * reflexivity.
    + replace (Z.to_nat ((frames - written) * ch)) with 0%nat by nia.
      rewrite take_ge by nia. simpl. rewrite app_nil_r.
      destruct (Z.eqb_spec written 0) as [->|Hne]; simpl; [|reflexivity].
      destruct (Z.ltb_spec 0 frames); [lia|reflexivity].
Qed.

(** The conversion loop of [writeInt16] overwrites the front of the float
    buffer with the converted samples. *)
Lemma convert_samples (data : list Z) (buf : list float) total :
  0 <= total <= Z.of_nat (length data) -> total <= Z.of_nat (length buf) ->
  for_range 0 total (convert_body data) buf =
    Some ((int16ToFloat <$> take (Z.to_nat total) data)
            ++ drop (Z.to_nat total) buf).
Proof.
  intros Hdata Hbuf.
  destruct (for_range_invariant
              (fun i b => b = (int16ToFloat <$> take (Z.to_nat i) data)
                              ++ drop (Z.to_nat i) buf)
              (convert_body data) 0 total buf) as (b & Hrun & Hb).
  - lia.
  - reflexivity.
  - intros i b Hi ->. unfold convert_body.
    destruct (load_in_range data i) as [v Hv]; [lia|].
    rewrite Hv. simpl. apply load_Some in Hv as [_ Hv].
    destruct (lookup_lt_is_Some_2 buf (Z.to_nat i)) as [y Hy]; [lia|].
    set (done := int16ToFloat <$> take (Z.to_nat i) data).
    assert (Hdone : length done = Z.to_nat i).
    { unfold done. rewrite length_fmap, length_take. lia. }
    rewrite store_in_range
      by (rewrite length_app, length_drop, Hdone; lia).
    eexists. split; [reflexivity|].
    rewrite insert_app_r_alt by lia.
    rewrite Hdone, Nat.sub_diag, (drop_S buf y (Z.to_nat i) Hy). simpl.
    replace (Z.to_nat (i + 1)) with (S (Z.to_nat i)) by lia.
    rewrite (take_S_r data (Z.to_nat i) v Hv), fmap_app. fold done.
    now rewrite <- app_assoc.
  - now rewrite Hrun, Hb.
Qed.

(** What [writeInt16] does on an open stream. *)
Lemma writeInt16_run start_ok write_ok st (data : list Z) frames :
  let ch := actual_channels_ st in
  let total := frames * ch in
  is_open_ st = true -> 0 < frames <= INT_MAX -> 0 < ch <= INT_MAX ->
  total <= Z.of_nat (length data) ->
  exists w,
    writeInt16 start_ok write_ok st (Some data) frames = Some w /\
    float_buffer_ (stream_after w) =
      (int16ToFloat <$> take (Z.to_nat total) data)
        ++ drop (Z.to_nat total) (float_buffer_ st) /\
    Z.of_nat (length (float_buffer_ (stream_after w))) =
      Z.max (Z.of_nat (length (float_buffer_ st))) total /\
    (use_callback_mode_ st = true -> returned w = -1 /\ pa_write w = None) /\
    (use_callback_mode_ st = false ->
     is_running_ st = true \/ start_ok = true -> write_ok = true ->
     returned w = frames /\
     pa_write w = Some (float_buffer_ (stream_after w), frames) /\
     is_running_ (stream_after w) = true).
Proof.
  intros ch total Hopen Hframes Hch Hdata.
  assert (Htotal : 0 < total < 2 ^ 64).
  { unfold total, INT_MAX in *. split; nia. }
  unfold writeInt16. rewrite Hopen. simpl negb.
  destruct (Z.eqb_spec frames 0); [lia|]. cbv iota. simpl orb. cbv iota.
  fold ch. rewrite (usize_small ch) by (unfold INT_MAX in Hch; lia).
  rewrite umul_small by (fold total; lia). fold total.
  set (buffer := if Z.of_nat (length (float_buffer_ st)) <? total
                 then grow total (float_buffer_ st) else float_buffer_ st).
  assert (Hbuf : Z.of_nat (length buffer) = Z.max (Z.of_nat (length (float_buffer_ st))) total
                 /\ drop (Z.to_nat total) buffer
                    = drop (Z.to_nat total) (float_buffer_ st)).
  { unfold buffer, grow.
    destruct (Z.ltb_spec (Z.of_nat (length (float_buffer_ st))) total).
    - split; [rewrite length_app, length_replicate; lia|].
      rewrite drop_app_ge by lia.
      rewrite (drop_ge (float_buffer_ st)) by lia.
      rewrite drop_replicate.
      now replace (Z.to_nat total - length (float_buffer_ st)
                   - (Z.to_nat total - length (float_buffer_ st)))%nat with 0%nat by lia.
    - split; [lia|reflexivity]. }
  destruct Hbuf as [Hlen Hdrop].
  rewrite convert_samples by lia. simpl. rewrite Hdrop.
  set (filled := (int16ToFloat <$> take (Z.to_nat total) data)
                   ++ drop (Z.to_nat total) (float_buffer_ st)).
  assert (Hfilled : Z.of_nat (length filled)
                    = Z.max (Z.of_nat (length (float_buffer_ st))) total).
  { unfold filled. rewrite length_app, length_fmap, length_take, length_drop. lia. }
  eexists. split; [reflexivity|].
  unfold write. simpl. rewrite Hopen. simpl.
  destruct (use_callback_mode_ st) eqn:Hmode; simpl.
  - repeat split; try assumption; discriminate.
  - destruct (is_running_ st) eqn:Hrun; simpl.
    + destruct write_ok; simpl; repeat split; try assumption; try discriminate;
        try (intros; apply to_int_small; unfold INT_MAX in Hframes; lia).
    + unfold start. simpl. rewrite Hopen, Hrun. simpl.
      destruct start_ok; simpl;
        [destruct write_ok; simpl|];
        repeat split; try assumption; try discriminate;
        try (intros; apply to_int_small; unfold INT_MAX in Hframes; lia);
        match goal with Hor : _ \/ _ |- _ => destruct Hor; discriminate end.
Qed.

(** X21.  [writeInt16] on an open stream converts exactly
    [frames * channels] samples into the front of the float buffer, which
    grows when it is too short and never shrinks, and passes that buffer
    and the frame count on.  In write mode, with the stream running or
    startable and PortAudio accepting the data, it returns the frame
    count; a stream in callback mode returns [-1] and passes nothing. *)
Theorem writeInt16_converts start_ok write_ok st (data : list Z) frames :
  let ch := actual_channels_ st in
  let total := frames * ch in
  is_open_ st = true -> 0 < frames <= INT_MAX -> 0 < ch <= INT_MAX ->
  total <= Z.of_nat (length data) ->
  exists w,
    writeInt16 start_ok write_ok st (Some data) frames = Some w /\
    float_buffer_ (stream_after w) =
      (int16ToFloat <$> take (Z.to_nat total) data)
        ++ drop (Z.to_nat total) (float_buffer_ st) /\
    Z.of_nat (length (float_buffer_ (stream_after w))) =
      Z.max (Z.of_nat (length (float_buffer_ st))) total /\
    (use_callback_mode_ st = true -> returned w = -1 /\ pa_write w = None) /\
    (use_callback_mode_ st = false ->
     is_running_ st = true \/ start_ok = true -> write_ok = true ->
     returned w = frames /\
     pa_write w = Some (float_buffer_ (stream_after w), frames) /\
     is_running_ (stream_after w) = true).
Proof. apply writeInt16_run. Qed.

(** X22.  [writeInt16] and [write] refuse without touching PortAudio: a
    null pointer, no frames or a closed stream make [writeInt16] return
    [-1] and leave the stream as it was; [write] returns [-1] on a closed
    stream, on a stream in callback mode and when the stream cannot be
    started. *)
Theorem playback_refusals start_ok write_ok st :
  (forall frames, writeInt16 start_ok write_ok st None frames
                  = Some (mkWritten (-1) st None)) /\
  (forall data, writeInt16 start_ok write_ok st (Some data) 0
                = Some (mkWritten (-1) st None)) /\
  (is_open_ st = false ->
   forall data samples frames,
     writeInt16 start_ok write_ok st data frames = Some (mkWritten (-1) st None) /\
     write start_ok write_ok st samples frames = mkWritten (-1) st None) /\
  (use_callback_mode_ st = true ->
   forall data frames, write start_ok write_ok st data frames = mkWritten (-1) st None) /\
  (is_open_ st = true -> use_callback_mode_ st = false ->
   is_running_ st = false -> start_ok = false ->
   forall data frames, write start_ok write_ok st data frames = mkWritten (-1) st None).
Proof.
  split; [reflexivity|]. split.
  { intros data. unfold writeInt16. simpl. now rewrite orb_true_r. }
  split; [|split].
  - intros Hclosed data samples frames. unfold writeInt16, write.
    rewrite Hclosed. simpl.
    split; [now destruct data|reflexivity].
  - intros Hmode data frames. unfold write. rewrite Hmode.
    now rewrite orb_true_r.
  - intros Hopen Hmode Hrun -> data frames. unfold write, start.
    rewrite Hopen, Hmode, Hrun. reflexivity.
Qed.

End PlaybackBehaviour.

(** ** From capture to playback *)
Module PlayerBehaviour.
Import Int Fp Format.
Import IntFacts CaptureFacts FormatBehaviour PlaybackBehaviour.

Section WithPlatform.
Context `{Platform}.

(** The capture conversion always yields a value of an [int16_t]. *)
Lemma floatToInt16_is_int16 x : -32768 <= floatToInt16 x <= 32767.
Proof.
  unfold floatToInt16, f_to_int16.
  set (y := f_mul _ _).
  assert (Hcast : forall z, -32768 <= to_int16 z <= 32767).
  { intros z. unfold to_int16. change (2 ^ 15) with 32768.
    change (2 ^ 16) with 65536.
    pose proof (Z.mod_pos_bound (z + 32768) 65536 ltac:(lia)). lia. }
  destruct (trunc y) as [z|]; [|apply Hcast].
  change (- 2 ^ 15) with (-32768). change (2 ^ 15) with 32768.
  destruct (Z.leb_spec (-32768) z); simpl; [|apply Hcast].
  destruct (Z.ltb_spec z 32768); [lia|apply Hcast].
Qed.

(** Read through an [int16_t] pointer, the bytes of a captured block are
    its converted samples. *)
Lemma pcm_view_pcm16 (xs : list float) :
  Player.pcm_view (Capture.pcm16 xs) = floatToInt16 <$> xs.
Proof.
  induction xs as [|x xs IH]; [reflexivity|].
  change (Capture.pcm16 (x :: xs))
    with (int16_bytes (floatToInt16 x) ++ Capture.pcm16 xs).
  destruct (int16_bytes_back (floatToInt16 x) (floatToInt16_is_int16 x))
    as (lo & hi & -> & _ & _ & Hback).
  simpl. now rewrite Hback, IH.
Qed.

(** X23.  Bytes delivered by the capture side and written to an open
    player in write mode reach PortAudio as the floats
    [int16ToFloat (floatToInt16 x)] of the samples [x] captured, frame by
    frame and in order: [Write] accepts them and passes the whole frames
    on. *)
Theorem captured_bytes_play_back start_ok write_ok p (xs : list float) :
  let st := Player.stream p in
  let frames := Z.of_nat (length xs) / Player.channels p in
  let total := frames * Output.actual_channels_ st in
  Output.is_open_ st = true -> Output.use_callback_mode_ st = false ->
  0 < Output.actual_channels_ st <= Player.channels p ->
  Player.channels p <= INT_MAX ->
  0 < frames <= INT_MAX ->
  Output.is_running_ st = true \/ start_ok = true -> write_ok = true ->
  exists played buffer,
    Player.Write start_ok write_ok p (Capture.pcm16 xs) = Some played /\
    Player.accepted played = true /\
    Player.handed_over played = Some (buffer, frames) /\
    take (Z.to_nat total) buffer =
      (fun x => int16ToFloat (floatToInt16 x)) <$> take (Z.to_nat total) xs.
Proof.
  intros st frames total Hopen Hmode Hch Hmax Hframes Hrun Hwrite.
  assert (Hc : usize (Player.channels p) = Player.channels p)
    by (apply usize_small; unfold INT_MAX in Hmax; lia).
  assert (Hlen : Z.of_nat (length (Capture.pcm16 xs)) = 2 * Z.of_nat (length xs))
    by (rewrite length_pcm16; lia).
  assert (Hxs : frames * Player.channels p <= Z.of_nat (length xs)).
  { unfold frames. rewrite Z.mul_comm. apply Z.mul_div_le. lia. }
  assert (Htotal : 0 <= total <= Z.of_nat (length xs)) by (unfold total; nia).
  unfold Player.Write, Player.Write_ptr. fold st. rewrite Hopen, Hlen. simpl negb.
  destruct (Z.eqb_spec (2 * Z.of_nat (length xs)) 0) as [H0|_].
  { assert (frames = 0) by (unfold frames; replace (Z.of_nat (length xs)) with 0 by lia;
                            apply Z.div_0_l; lia). lia. }
  simpl orb. cbv iota. rewrite Hc.
  destruct (Z.eqb_spec (Player.channels p) 0); [lia|].
  replace (2 * Z.of_nat (length xs) / 2) with (Z.of_nat (length xs))
    by (rewrite Z.mul_comm, Z.div_mul; lia).
  fold frames. destruct (Z.eqb_spec frames 0); [lia|].
  simpl fmap. rewrite pcm_view_pcm16.
  destruct (writeInt16_run start_ok write_ok st (floatToInt16 <$> xs) frames)
    as (w & Hw & Hbuf & _ & _ & Hgood); try assumption.
  { unfold INT_MAX in *. lia. }
  { rewrite length_fmap. fold total. lia. }
  destruct (Hgood Hmode Hrun Hwrite) as (Hret & Hcall & _).
  rewrite Hw. simpl. eexists. exists (Output.float_buffer_ (Output.stream_after w)).
  split; [reflexivity|]. simpl. split; [rewrite Hret; lia|]. split; [exact Hcall|].
  rewrite Hbuf. fold total.
  rewrite take_app_le by (rewrite length_fmap, length_take, length_fmap; lia).
  rewrite take_ge by (rewrite length_fmap, length_take, length_fmap; lia).
  rewrite <- fmap_take, <- list_fmap_compose. reflexivity.
Qed.

End WithPlatform.

(** X24.  [Write] at its edges: on a closed stream or with no bytes it
    returns [false]; with some bytes but less than one whole frame it
    returns [true] although nothing is played.  Neither reaches
    PortAudio or changes the player. *)
Theorem Write_edges start_ok write_ok p (data : list byte) :
  0 < Player.channels p <= INT_MAX ->
  let size := Z.of_nat (length data) in
  (Output.is_open_ (Player.stream p) = false \/ size = 0 ->
   Player.Write start_ok write_ok p data = Some (Player.mkPlayed false p None)) /\
  (Output.is_open_ (Player.stream p) = true ->
   0 < size < 2 * Player.channels p ->
   Player.Write start_ok write_ok p data = Some (Player.mkPlayed true p None)).
Proof.
  intros Hch size.
  assert (Hc : usize (Player.channels p) = Player.channels p)
    by (apply usize_small; unfold INT_MAX in Hch; lia).
  unfold Player.Write, Player.Write_ptr. fold size. split.
  - intros [Hclosed|Hempty].
    + now rewrite Hclosed.
    + rewrite Hempty. simpl. now rewrite orb_true_r.
  - intros Hopen Hsize. rewrite Hopen, Hc. simpl negb.
    destruct (Z.eqb_spec size 0); [lia|]. simpl orb. cbv iota.
    destruct (Z.eqb_spec (Player.channels p) 0); [lia|].
    assert (Hframes : size / 2 / Player.channels p = 0).
    { apply Z.div_small. split; [apply Z.div_pos; lia|].
      apply Z.div_lt_upper_bound; lia. }
    now rewrite Hframes.
Qed.

End PlayerBehaviour.

(** ** Concrete runs on the RISC-V target *)
Module Runs.
Import Int Fp Resampler Rules Samples.
Import ResamplerBehaviour FormatBehaviour.

#[local] Existing Instance riscv_fcvt.

Ltac by_run :=
  first [ reflexivity
        | apply Z.leb_le; reflexivity
        | apply Z.ltb_lt; reflexivity
        | split; by_run ].

Lemma initialize_validates_run :
  fst (initialize doubling) = true /\
  method (config_ (snd (initialize same_rate))) = LINEAR_DOWNSAMPLE.
Proof.
  split.
  - apply (proj1 (initialize_validates doubling eq_refl)). repeat split.
  - reflexivity.
Defined.

Lemma invalid_configuration_converts_nothing_run :
  process refused (ramp 4) = (Some [], refused).
Proof.
  apply (proj1 (proj2 (invalid_configuration_converts_nothing refused eq_refl))).
Defined.

Lemma equal_rates_copy_run : fst (process same_rate (ramp 4)) = Some (ramp 4).
Proof. apply (equal_rates_copy same_rate (ramp 4)); reflexivity. Defined.

Lemma capacity_check_within_int_run :
  returned <$> resampler_process (Some doubling) (Some (ramp 4)) 4
                 (Some (replicate 3 f_zero)) 3 = Some (-1) /\
  output_after <$> resampler_process (Some doubling) (Some (ramp 4)) 4
                     (Some (replicate 3 f_zero)) 3
    = Some (Some (replicate 3 f_zero)).
Proof.
  destruct (process_ptr doubling (ramp 4) (usize 4)) as [res r'] eqn:Hrun.
  assert (Hlen : length <$> res = Some 8%nat).
  { change res with (fst (res, r')). rewrite <- Hrun. lazy. reflexivity. }
  destruct res as [result|]; [|discriminate Hlen].
  simpl in Hlen. injection Hlen as Hlen.
  destruct (capacity_check_within_int doubling r' (ramp 4)
              (replicate 3 f_zero) result 4 3) as [Hw _];
    [by_run|exact Hrun|rewrite Hlen; by_run|by_run|].
  rewrite Hw; [split; reflexivity|rewrite Hlen; by_run].
Defined.

Lemma integer_ratio_frames_run : output_frames_of doubling 4 = 8.
Proof.
  pose proof (integer_ratio_frames doubling 2 (ramp 4)) as Hw. cbv zeta in Hw.
  destruct Hw as [Hw _]; [by_run..|]. exact Hw.
Defined.

Lemma downsampling_never_lengthens_run :
  exists out,
    fst (process halving (ramp 4)) = Some out /\ (length out <= 4)%nat.
Proof.
  destruct (fst (process halving (ramp 4))) as [out|] eqn:Hrun.
  - exists out. split; [reflexivity|].
    pose proof (downsampling_never_lengthens halving (ramp 4) out) as Hw.
    cbv zeta in Hw. apply Hw; [by_run..|exact Hrun].
  - lazy in Hrun. discriminate Hrun.
Defined.

Lemma upsampling_never_shortens_run :
  exists out,
    fst (process doubling (ramp 4)) = Some out /\ 4 <= Z.of_nat (length out).
Proof.
  destruct (fst (process doubling (ramp 4))) as [out|] eqn:Hrun.
  - exists out. split; [reflexivity|].
    pose proof (upsampling_never_shortens doubling (ramp 4) out) as Hw.
    cbv zeta in Hw. apply Hw; [by_run..|exact Hrun].
  - lazy in Hrun. discriminate Hrun.
Defined.

(** A block of one second at 16 kHz becomes one of 48000 samples. *)
Lemma tripling_second (inp : list float) :
  Z.of_nat (length inp) = 16000 ->
  exists result,
    fst (process tripling inp) = Some result /\
    Z.of_nat (length result) = 48000.
Proof.
  intros Hlen.
  assert (Hframes : output_frames_of tripling 16000 = 48000) by reflexivity.
  destruct (ResamplerFacts.linearUpsample_run tripling inp) as (result & Hrun & Hsize & _).
  - reflexivity.
  - rewrite Hlen. reflexivity.
  - rewrite Hlen. apply Z.leb_le. reflexivity.
  - rewrite Hlen. change (16000 / channels (config_ tripling)) with 16000.
    rewrite Hframes. reflexivity.
  - rewrite Hlen in Hsize.
    change (16000 / channels (config_ tripling)) with 16000 in Hsize.
    rewrite Hframes in Hsize.
    exists result. split; [|exact Hsize].
    unfold process. rewrite Hlen. rewrite Hlen in Hrun. rewrite <- Hrun.
    reflexivity.
Qed.

Lemma estimated_capacity_suffices_run :
  exists result,
    resampler_create 16000 48000 1 RESAMPLE_METHOD_LINEAR = Some tripling /\
    resampler_estimate_output_size 16000 16000 48000 = 48256 /\
    resampler_process (Some tripling) (Some (replicate (Z.to_nat 16000) f_zero)) 16000
      (Some (replicate (Z.to_nat 48256) f_zero)) 48256
    = Some (mkCResult (Z.of_nat (length result))
              (Some (result ++ drop (length result) (replicate (Z.to_nat 48256) f_zero)))
              (Some tripling)) /\
    Z.of_nat (length result) = 48000.
Proof.
  destruct (tripling_second (replicate (Z.to_nat 16000) f_zero) eq_refl)
    as (result & Hrun & Hsize).
  exists result. split; [reflexivity|]. split; [reflexivity|].
  split; [|exact Hsize].
  apply (estimated_capacity_suffices 16000 48000 1 RESAMPLE_METHOD_LINEAR
           tripling (replicate (Z.to_nat 16000) f_zero) (replicate (Z.to_nat 48256) f_zero) result
           16000);
    first [exact Hrun | by_run].
Defined.

Lemma upsampled_first_frame_run :
  exists output x,
    linearUpsample doubling (drop 1 (ramp 5)) 4 = Some output /\
    output !! 0%nat = Some x /\
    SFeqb x (binary_normalize 24 128 1 (-7) false) = true.
Proof.
  pose proof (upsampled_first_frame doubling (drop 1 (ramp 5)) 0
                (binary_normalize 24 128 1 (-7) false)
                (binary_normalize 24 128 2 (-7) false)) as Hw.
  cbv zeta in Hw.
  destruct Hw as (output & x & Hrun & Hx & Heq & _); [by_run..|].
  exists output, x. repeat split; assumption.
Defined.

Lemma int16ToFloat_exact_run :
  Fp.f_valid (Format.int16ToFloat 1000) = true /\
  Round.mag_le false (Format.int16ToFloat 1000) 1000 (-15).
Proof.
  destruct (int16ToFloat_exact 1000) as (Hv & _ & Hle & _); [by_run|].
  split; [exact Hv|exact Hle].
Defined.

Lemma int16_bytes_roundtrip_run :
  exists lo hi,
    Format.int16_bytes (-2) = [lo; hi] /\
    0 <= lo < 256 /\ 0 <= hi < 256 /\ Format.int16_of_bytes lo hi = -2.
Proof. apply (int16_bytes_roundtrip (-2)). by_run. Defined.

Lemma single_frame_upsampling_undefined_run :
  linearUpsample doubling (ramp 1) 1 = None.
Proof.
  apply (single_frame_upsampling_undefined doubling (ramp 1)); by_run.
Defined.

Import Capture Blocks CaptureBehaviour PlaybackBehaviour PlayerBehaviour.

Lemma capture_conserves_bytes_run :
  exists rest chunks,
    run (default_AudioConfig, listening)
        (audio_events [(2%nat, ramp 50, 50, 1); (3%nat, ramp 1700, 1700, 1)])
      = Some (default_AudioConfig, with_buffer listening rest, chunks) /\
    mjoin chunks ++ rest = pcm16 (ramp 50 ++ ramp 1700) /\
    Z.of_nat (length rest) < 3200.
Proof.
  destruct (capture_conserves_bytes default_AudioConfig
              [(2%nat, ramp 50, 50, 1); (3%nat, ramp 1700, 1700, 1)] listening)
    as (rest & chunks & Hrun & Hjoin & _ & Hrest).
  - reflexivity.
  - by_run.
  - by_run.
  - apply Forall_cons. split; [by_run|].
    apply Forall_cons. split; [by_run|apply Forall_nil_2].
  - exists rest, chunks. split; [exact Hrun|]. split; [|exact Hrest].
    rewrite Hjoin. reflexivity.
Defined.



Lemma Start_parameters_run :
  frames_per_buffer
    (stream (snd (Start default_AudioConfig true true listening 0 0 0))) = 1600.
Proof.
  pose proof (Start_parameters default_AudioConfig true listening 0 0 0) as Hw.
  cbv zeta in Hw.
  destruct Hw as (_ & Hframes & _); [by_run..|]. exact Hframes.
Defined.

Lemma output_callback_pads_with_silence_run :
  Output.paCallback (Some callback_stream) (Some (replicate 6 f_one)) 3 =
    Some (Output.paContinue, Some ([f_one; f_one] ++ replicate 4 f_zero)).
Proof.
  pose proof (output_callback_pads_with_silence callback_stream
                (replicate 6 f_one) 3) as Hw.
  cbv zeta in Hw.
  destruct Hw as [_ Hw]; [by_run..|].
  apply (Hw one_frame (replicate 6 f_one) 1); by_run.
Defined.

Lemma writeInt16_converts_run :
  exists w,
    Output.writeInt16 true true write_stream (Some [16384; -16384]) 2 = Some w /\
    Output.returned w = 2 /\
    Output.float_buffer_ (Output.stream_after w) =
      [Format.int16ToFloat 16384; Format.int16ToFloat (-16384)].
Proof.
  destruct (writeInt16_converts true true write_stream [16384; -16384] 2)
    as (w & Hw & Hbuf & _ & _ & Hgood); [by_run..|].
  exists w. split; [exact Hw|].
  destruct (Hgood eq_refl (or_intror eq_refl) eq_refl) as (Hret & _).
  split; [exact Hret|exact Hbuf].
Defined.

Lemma captured_bytes_play_back_run :
  exists played buffer,
    Player.Write true true player (pcm16 (ramp 4)) = Some played /\
    Player.accepted played = true /\
    Player.handed_over played = Some (buffer, 4) /\
    take 4 buffer =
      (fun x => Format.int16ToFloat (Format.floatToInt16 x)) <$> ramp 4.
Proof.
  destruct (captured_bytes_play_back true true player (ramp 4))
    as (played & buffer & Hrun & Hacc & Hcall & Hbuf); [by_run..| |by_run|].
  - right. reflexivity.
  - exists played, buffer. repeat split; assumption.
Defined.

Lemma Write_edges_run :
  Player.Write true true player [0] = Some (Player.mkPlayed true player None).
Proof.
  destruct (Write_edges true true player [0]) as [_ Hw]; [by_run|].
  apply Hw; by_run.
Defined.

End Runs.
